(** * Null distribution of Spearman's rho: a shallow embedding of
      [src/compute_rho_null.cpp] and the properties of its three entry
      points [get_null_rho], [get_null_rho_design] and [test_rnorm]. *)

From Stdlib Require Import ZArith Lia Bool Permutation.
From Stdlib Require Import Floats.SpecFloat.
From stdpp Require Import base list strings sorting.

Local Open Scope Z_scope.

(** ** Double precision numbers

    A C++ [double] is an IEEE 754 binary64 number.  The standard library's
    [spec_float] is the reference description of that format: 53 bits of
    precision, infinities at exponent 1024, one NaN. *)
Module Binary64.

Definition prec : Z := 53.
Definition emax : Z := 1024.

Definition double : Type := spec_float.

Definition dadd : double -> double -> double := SFadd prec emax.
Definition dsub : double -> double -> double := SFsub prec emax.
Definition dmul : double -> double -> double := SFmul prec emax.
Definition ddiv : double -> double -> double := SFdiv prec emax.

Definition dlt : double -> double -> bool := SFltb.
Definition deq : double -> double -> bool := SFeqb.

(** Conversion of an [int] to [double]; every 32-bit integer has fewer
    than 53 significant bits, so the conversion rounds nothing. *)
Definition double_of_int (z : Z) : double := binary_normalize prec emax z 0 false.

Definition dzero : double := double_of_int 0.
Definition done_ : double := double_of_int 1.
Definition dsix : double := double_of_int 6.

Definition is_nan (x : double) : bool :=
  match x with S754_nan => true | _ => false end.


End Binary64.
Import Binary64.

Arguments dadd : simpl never.
Arguments dsub : simpl never.
Arguments dmul : simpl never.
Arguments ddiv : simpl never.
Arguments double_of_int : simpl never.

Declare Scope double_scope.
Delimit Scope double_scope with D.
Bind Scope double_scope with double.
Infix "+" := dadd : double_scope.
Infix "-" := dsub : double_scope.
Infix "*" := dmul : double_scope.
Infix "/" := ddiv : double_scope.

(** ** 32-bit [int] arithmetic *)

Definition INT_MIN : Z := - 2 ^ 31.
Definition INT_MAX : Z := 2 ^ 31 - 1.
Definition is_int (z : Z) : Prop := INT_MIN <= z <= INT_MAX.

(** Two's complement wrap-around into the range of [int]. *)
Definition wrap_int (z : Z) : Z := (z + 2 ^ 31) mod 2 ^ 32 - 2 ^ 31.
Definition int_sub (a b : Z) : Z := wrap_int (a - b).

(** ** Vectors indexed by [int] *)

Definition vget {A} (d : A) (v : list A) (i : Z) : A := nth (Z.to_nat i) v d.
Definition vset {A} (v : list A) (i : Z) (x : A) : list A := <[Z.to_nat i := x]> v.

(** [for (int i = lo; i < hi; ++i) s = body(i, s);] *)
Fixpoint for_iter {S : Type} (n : nat) (i : Z) (body : Z -> S -> S) (s : S) : S :=
  match n with
  | O => s
  | Datatypes.S n' => for_iter n' (i + 1) body (body i s)
  end.

Definition for_range {S : Type} (lo hi : Z) (body : Z -> S -> S) (s : S) : S :=
  for_iter (Z.to_nat (hi - lo)) lo body s.

(** [std::iota(v.begin(), v.end(), start)] *)
Definition std_iota (v : list Z) (start : Z) : list Z :=
  imap (fun i _ => start + Z.of_nat i) v.

(** [std::fill(v.begin() + lo, v.begin() + hi, x)] *)
Definition std_fill {A} (v : list A) (lo hi : Z) (x : A) : list A :=
  for_range lo hi (fun i v => vset v i x) v.

(** ** Exceptions and the trace of simulation work

    A call either returns a value or throws [std::runtime_error]; the
    Rcpp boundary ([BEGIN_RCPP]/[END_RCPP]) turns the exception into an
    error of the host.  Calls into the random number layer and into the
    orthogonal transform are recorded in a trace. *)
Inductive event : Type :=
| EvSeed (seed : Z)
| EvShuffle
| EvNormal
| EvRun.

Inductive outcome (A : Type) : Type :=
| Returned (a : A)
| Thrown (msg : string).
Arguments Returned {A} a.
Arguments Thrown {A} msg.

Definition M (A : Type) : Type := list event -> outcome A * list event.

Definition ret {A} (a : A) : M A := fun t => (Returned a, t).
Definition throw {A} (msg : string) : M A := fun t => (Thrown msg, t).
Definition bind {A B} (k : A -> M B) (m : M A) : M B :=
  fun t => match m t with
           | (Returned a, t') => k a t'
           | (Thrown msg, t') => (Thrown msg, t')
           end.
Definition emit (e : event) : M unit := fun t => (Returned tt, t ++ [e]).

#[global] Instance M_ret : MRet M := @ret.
#[global] Instance M_bind : MBind M := @bind.

Fixpoint forM_iter {S : Type} (n : nat) (i : Z) (body : Z -> S -> M S) (s : S) : M S :=
  match n with
  | O => ret s
  | Datatypes.S n' => s' ← body i s; forM_iter n' (i + 1) body s'
  end.

Definition forM_range {S : Type} (lo hi : Z) (body : Z -> S -> M S) (s : S) : M S :=
  forM_iter (Z.to_nat (hi - lo)) lo body s.

(** [operator<] of [std::pair<double, int>]: lexicographic, the second
    component deciding between values neither of which is below the other. *)
Definition pair_lt (x y : double * Z) : bool :=
  dlt x.1 y.1 || (negb (dlt y.1 x.1) && (x.2 <? y.2)).

(** [Rcpp::NumericVector output(n)]: a zero-filled vector; the allocator
    of the host refuses a negative length. *)
Definition numeric_vector (n : Z) : M (list double) :=
  if n <? 0 then throw "negative length vectors are not allowed"
  else ret (replicate (Z.to_nat n) dzero).

(** The part of [run_dormqr] (declared in [run_dormqr.h]) that the sampler
    uses: the two dimensions of the factorization, the working vector
    [rhs] as the constructor leaves it, and the effect of [run()] on the
    working vector (multiplication by Q, in place). *)
Record run_dormqr : Type := {
  get_nobs : Z;
  get_ncoefs : Z;
  rhs_init : list double;
  run : list double -> list double
}.

(** The buffers that [get_null_rho_design] allocates once and reuses. *)
Record workspace : Type := {
  rhs : list double;
  collected1 : list (double * Z);
  collected2 : list (double * Z);
  rank1 : list Z;
  rank2 : list Z
}.

(** ** The scaling constant *)

(** [static double rho_mult (double Ncells)] *)
Definition rho_mult (Ncells : double) : double :=
  (dsix / (Ncells * (Ncells * Ncells - done_)))%D.

(** ** The samplers

    The random number layer ([std::mt19937], [std::shuffle],
    [std::normal_distribution]) and the orthogonal transform
    ([run_dormqr], declared in [run_dormqr.h]) are collaborators of this
    file; they are parameters of the development. *)
Section Samplers.

(** State of a [std::mt19937] and its constructor from a seed. *)
Variable generator : Type.
Variable mt19937 : Z -> generator.

(** [std::shuffle(first, last, g)]: the rearranged range. *)
Variable shuffle : list Z -> generator -> list Z.

(** State of a [std::normal_distribution<double>], its default
    constructor, and one call [cpp_rnorm(generator)]. *)
Variable normal_distribution : Type.
Variable normal_init : normal_distribution.
Variable rnorm :
  normal_distribution -> generator -> double * normal_distribution * generator.

Definition new_generator (seed : Z) : M generator :=
  _ ← emit (EvSeed seed); ret (mt19937 seed).

Definition std_shuffle (v : list Z) (g : generator) : M (list Z) :=
  _ ← emit EvShuffle; ret (shuffle v g).

Definition cpp_rnorm (d : normal_distribution) (g : generator)
  : M (double * normal_distribution * generator) :=
  _ ← emit EvNormal; ret (rnorm d g).

(** [std::sort] on a sequence of [std::pair<double, int>]. *)
Variable sort : list (double * Z) -> list (double * Z).

Definition std_sort (v : list (double * Z)) : list (double * Z) := sort v.

(** *** Null distribution estimation without a design matrix *)

Definition get_null_rho (cells iters : Z) (seeds : list Z) : M (list double) :=
  let Ncells := cells in
  if Ncells <=? 1 then throw "number of cells should be greater than 2" else
  let Niters := iters in
  if Niters <? 0 then throw "number of iterations should be non-negative" else
  let Seeds := seeds in
  if negb (Z.of_nat (length Seeds) =? Niters) then
    throw "number of iterations and seeds should be the same"
  else
  let rankings := replicate (Z.to_nat Ncells) 0 in
  let output := replicate (Z.to_nat Niters) dzero in
  let mult := rho_mult (double_of_int Ncells) in
  '(_, output) ←
    forM_range 0 Niters (fun it '(rankings, output) =>
      let rankings := std_iota rankings 0 in
      g ← new_generator (vget 0 Seeds it);
      rankings ← std_shuffle rankings g;
      let tmp :=
        for_range 0 Ncells (fun cell tmp =>
          let tmpdiff := double_of_int (int_sub (vget 0 rankings cell) cell) in
          (tmp + tmpdiff * tmpdiff)%D) dzero in
      let tmp := (tmp * mult)%D in
      ret (rankings, vset output it (done_ - tmp)%D))
    (rankings, output);
  ret output.

(** *** Null distribution estimation with a design matrix *)

Definition multQ_run (multQ : run_dormqr) (v : list double) : M (list double) :=
  _ ← emit EvRun; ret (run multQ v).

(** The body of [for (int mode=0; mode<2; ++mode)]. *)
Definition simulate_mode (multQ : run_dormqr) (mode : Z)
    (s : workspace * normal_distribution * generator)
  : M (workspace * normal_distribution * generator) :=
  let Nobs := get_nobs multQ in
  let Ncoef := get_ncoefs multQ in
  let '(w, d, g) := s in
  let rhs := std_fill (rhs w) 0 Ncoef dzero in
  '(rhs, d, g) ←
    forM_range Ncoef Nobs (fun col '(rhs, d, g) =>
      '(x, d, g) ← cpp_rnorm d g;
      ret (vset rhs col x, d, g))
    (rhs, d, g);
  rhs ← multQ_run multQ rhs;
  let current := if mode =? 0 then collected2 w else collected1 w in
  let current :=
    for_range 0 Nobs (fun row current =>
      vset current row (vget dzero rhs row, row)) current in
  let current := std_sort current in
  let rank := if mode =? 0 then rank2 w else rank1 w in
  let rank :=
    for_range 0 Nobs (fun row rank =>
      vset rank (vget (dzero, 0) current row).2 row) rank in
  let w :=
    if mode =? 0 then
      {| rhs := rhs; collected1 := collected1 w; collected2 := current;
         rank1 := rank1 w; rank2 := rank |}
    else
      {| rhs := rhs; collected1 := current; collected2 := collected2 w;
         rank1 := rank; rank2 := rank2 w |} in
  ret (w, d, g).

(** The body of [for (int it=0; it<Niters; ++it)]. *)
Definition design_iteration (multQ : run_dormqr) (mult : double)
    (Seeds : list Z) (it : Z) (s : workspace * list double)
  : M (workspace * list double) :=
  let Nobs := get_nobs multQ in
  let '(w, output) := s in
  g ← new_generator (vget 0 Seeds it);
  let d := normal_init in
  '(w, _, _) ← forM_range 0 2 (simulate_mode multQ) (w, d, g);
  let output := vset output it dzero in
  let output :=
    for_range 0 Nobs (fun row output =>
      let tmpdiff :=
        double_of_int (int_sub (vget 0 (rank1 w) row) (vget 0 (rank2 w) row)) in
      vset output it (vget dzero output it + tmpdiff * tmpdiff)%D) output in
  let output := vset output it (vget dzero output it * mult)%D in
  let output := vset output it (done_ - vget dzero output it)%D in
  ret (w, output).

Definition get_null_rho_design (multQ : run_dormqr) (iters : Z) (seeds : list Z)
  : M (list double) :=
  let Niters := iters in
  if Niters <=? 0 then throw "number of iterations should be positive" else
  let Seeds := seeds in
  if negb (Z.of_nat (length Seeds) =? Niters) then
    throw "number of iterations and seeds should be the same"
  else
  let Nobs := get_nobs multQ in
  let Ncoef := get_ncoefs multQ in
  let output := replicate (Z.to_nat Niters) dzero in
  let w :=
    {| rhs := rhs_init multQ;
       collected1 := replicate (Z.to_nat Nobs) (dzero, 0);
       collected2 := replicate (Z.to_nat Nobs) (dzero, 0);
       rank1 := replicate (Z.to_nat Nobs) 0;
       rank2 := replicate (Z.to_nat Nobs) 0 |} in
  let mult := rho_mult (double_of_int Nobs) in
  '(_, output) ←
    forM_range 0 Niters (design_iteration multQ mult Seeds) (w, output);
  ret output.

(** *** The diagnostic of the random number layer *)

Definition test_rnorm (N seed : Z) : M (list double) :=
  g ← new_generator seed;
  let d := normal_init in
  output ← numeric_vector N;
  '(output, _, _) ←
    forM_range 0 (Z.of_nat (length output)) (fun i '(output, d, g) =>
      '(x, d, g) ← cpp_rnorm d g;
      ret (vset output i x, d, g))
    (output, d, g);
  ret output.

End Samplers.

(** ** Spearman's rho of two rankings, as the specification words it

    [rho = 1 - c * sum (p[i] - q[i])^2] with [c = rho_mult N]; the sum runs
    over the positions in order and every operation is one on doubles. *)
Definition sum_sq_diff (p q : list Z) : double :=
  fold_left (fun acc '(a, b) =>
               let d := double_of_int (a - b) in (acc + d * d)%D)
            (zip p q) dzero.

Definition spearman_rho (N : Z) (p q : list Z) : double :=
  (done_ - rho_mult (double_of_int N) * sum_sq_diff p q)%D.

(** The ranking that one iteration of the unconstrained sampler scores:
    the identity ranking shuffled with the generator made from the seed. *)
Definition permuted {generator : Type} (mt19937 : Z -> generator)
    (shuffle : list Z -> generator -> list Z) (N seed : Z) : list Z :=
  shuffle (seqZ 0 N) (mt19937 seed).

(** ** The design-adjusted iteration, as the specification words it *)

(** [n] successive calls of [cpp_rnorm(generator)], in draw order. *)
Fixpoint draw_normals {normal_distribution generator : Type}
    (rnorm : normal_distribution -> generator ->
             double * normal_distribution * generator)
    (n : nat) (d : normal_distribution) (g : generator)
  : list double * normal_distribution * generator :=
  match n with
  | O => ([], d, g)
  | Datatypes.S n' =>
      let '(x, d, g) := rnorm d g in
      let '(xs, d, g) := draw_normals rnorm n' d g in
      (x :: xs, d, g)
  end.

(** One realization: zeros in the first [Ncoef] entries, deviates in the
    remaining [Nobs - Ncoef] entries, then the orthogonal transform. *)
Definition residuals {normal_distribution generator : Type}
    (rnorm : normal_distribution -> generator ->
             double * normal_distribution * generator)
    (multQ : run_dormqr) (d : normal_distribution) (g : generator)
  : list double * normal_distribution * generator :=
  let '(xs, d, g) :=
    draw_normals rnorm (Z.to_nat (get_nobs multQ - get_ncoefs multQ)) d g in
  (run multQ (replicate (Z.to_nat (get_ncoefs multQ)) dzero ++ xs), d, g).

(** Each value paired with its position. *)
Definition indexed (v : list double) : list (double * Z) :=
  imap (fun i x => (x, Z.of_nat i)) v.

(** The sorted position of item [i]: the number of (value, index) pairs
    that [pair_lt] places before the pair of item [i]. *)
Definition sorted_position (v : list double) (i : Z) : Z :=
  Z.of_nat (length (filter (fun p => pair_lt p (vget dzero v i, i) = true) (indexed v))).

Definition ranks (v : list double) : list Z :=
  map (sorted_position v) (seqZ 0 (Z.of_nat (length v))).

(** The two realizations of one iteration: mode 0, then mode 1, drawn
    from one generator made from the seed. *)
Definition realizations {normal_distribution generator : Type}
    (mt19937 : Z -> generator) (normal_init : normal_distribution)
    (rnorm : normal_distribution -> generator ->
             double * normal_distribution * generator)
    (multQ : run_dormqr) (seed : Z) : list double * list double :=
  let '(v0, d, g) := residuals rnorm multQ normal_init (mt19937 seed) in
  let '(v1, _, _) := residuals rnorm multQ d g in
  (v0, v1).

Definition design_rho {normal_distribution generator : Type}
    (mt19937 : Z -> generator) (normal_init : normal_distribution)
    (rnorm : normal_distribution -> generator ->
             double * normal_distribution * generator)
    (multQ : run_dormqr) (seed : Z) : double :=
  let '(v0, v1) := realizations mt19937 normal_init rnorm multQ seed in
  spearman_rho (get_nobs multQ) (ranks v0) (ranks v1).

(** What [std::sort] promises for a comparison that is a strict weak
    ordering of the elements, as [pair_lt] is when no value is NaN: the
    result rearranges the input, and no element is below an earlier one. *)
Definition no_nan (l : list (double * Z)) : Prop :=
  Forall (fun p => is_nan p.1 = false) l.

Definition sort_contract (sort : list (double * Z) -> list (double * Z)) : Prop :=
  forall l, no_nan l ->
    Permutation (sort l) l /\
    StronglySorted (fun a b => pair_lt b a = false) (sort l).


(** Neither realization of the iteration with this seed holds a NaN. *)
Definition realizations_no_nan {normal_distribution generator : Type}
    (mt19937 : Z -> generator) (normal_init : normal_distribution)
    (rnorm : normal_distribution -> generator ->
             double * normal_distribution * generator)
    (multQ : run_dormqr) (seed : Z) : Prop :=
  no_nan (indexed (realizations mt19937 normal_init rnorm multQ seed).1) /\
  no_nan (indexed (realizations mt19937 normal_init rnorm multQ seed).2).

(** The buffers have the size they are allocated with. *)
Definition workspace_sized (n : nat) (w : workspace) : Prop :=
  length (rhs w) = n /\ length (collected1 w) = n /\ length (collected2 w) = n /\
  length (rank1 w) = n /\ length (rank2 w) = n.

(** The canonical binary64 representation of an integer [0 < V < 2^53]. *)
Definition canon (V : positive) : double :=
  S754_finite false (Z.to_pos (Z.pos V * 2 ^ (53 - Z.pos (digits2_pos V))))
    (Z.pos (digits2_pos V) - 53).

(** The sum of squared differences as an integer. *)
Definition sum_sq (p q : list Z) : Z :=
  foldr (fun '(a, b) acc => (a - b) * (a - b) + acc) 0 (zip p q).

Definition zsum (l : list Z) : Z := foldr Z.add 0 l.

(** The largest number of ranked items for which [N (N^2 - 1)], and
    with it every sum of squared rank differences, is below [2^53]. *)
Definition N_exact : Z := 208063.

(** What the bounds need of the scaling constant for the denominator [D]:
    a positive normal double [mq * 2^eq], at most 1, with
    [D * mq * 2^eq <= 6 * (1 + 2^-53)]. *)
Definition mult_spec (D : Z) (q : double) : Prop :=
  exists mq eq,
    q = S754_finite false mq eq /\ 2 ^ 52 <= Z.pos mq < 2 ^ 53 /\
    -1074 <= eq <= -52 /\
    D * Z.pos mq <= 3 * (2 ^ 53 + 1) * 2 ^ (-52 - eq).



(** ** The trace of a successful call *)

(** [emits m evs]: the computation returns, and appends exactly [evs] to
    the trace. *)
Definition emits {A} (m : M A) (evs : list event) : Prop :=
  forall t, exists a, m t = (Returned a, t ++ evs).

(** The events of one mode of the design-adjusted sampler: the deviates
    of the residual subspace, then the orthogonal transform. *)
Definition mode_events (multQ : run_dormqr) : list event :=
  replicate (Z.to_nat (get_nobs multQ - get_ncoefs multQ)) EvNormal ++ [EvRun].

(** The events of one iteration: the generator, then the two modes. *)
Definition iteration_events (multQ : run_dormqr) (seed : Z) : list event :=
  EvSeed seed :: mode_events multQ ++ mode_events multQ.

(** The deviates that [N] successive calls produce from a generator made
    from the seed and a distribution object in its initial state. *)
Definition deviates {normal_distribution generator : Type}
    (mt19937 : Z -> generator) (normal_init : normal_distribution)
    (rnorm : normal_distribution -> generator ->
             double * normal_distribution * generator)
    (N : nat) (seed : Z) : list double :=
  (draw_normals rnorm N normal_init (mt19937 seed)).1.1.

(** ** The range of the bound *)


(** [mult_spec] for the constant as it is computed, decided by
    evaluation. *)
Definition mult_ok (N : Z) : bool :=
  match rho_mult (double_of_int N) with
  | S754_finite false mq eq =>
      (2 ^ 52 <=? Z.pos mq) && (Z.pos mq <? 2 ^ 53) &&
      (-1074 <=? eq) && (eq <=? -52) &&
      (N * (N * N - 1) * Z.pos mq <=? 3 * (2 ^ 53 + 1) * 2 ^ (-52 - eq))
  | _ => false
  end.

(** *** A factorization that reverses the ranks

    With a single residual dimension ([Ncoef = Nobs - 1]) the two
    realizations of an iteration are two multiples of the last column of
    the orthogonal factor.  When that column grows with the index and
    the two deviates differ in sign, the ranks of mode 1 are the ranks of
    mode 0 reversed. *)



Definition increasing (v : list double) : Prop :=
  forall (i j : nat) x y, v !! i = Some x -> v !! j = Some y -> (i < j)%nat ->
    dlt x y = true.

Definition decreasing (v : list double) : Prop :=
  forall (i j : nat) x y, v !! i = Some x -> v !! j = Some y -> (i < j)%nat ->
    dlt y x = true.

(** ** A small instance of the collaborators

    Used to run the samplers on concrete inputs: a linear congruential
    generator (the recurrence of [std::minstd_rand]) in place of the
    Mersenne twister, a shuffle that reverses its range, deviates taken
    from a short table, and insertion sort with [pair_lt]. *)
Module Instance.

Definition generator : Type := Z.
Definition seed_generator (seed : Z) : generator := seed mod 2147483647.
Definition next (g : generator) : generator := 48271 * g mod 2147483647.

Definition shuffle (v : list Z) (g : generator) : list Z := rev v.

Definition normal_distribution : Type := unit.
Definition rnorm (d : normal_distribution) (g : generator)
  : double * normal_distribution * generator :=
  (double_of_int (next g mod 5 - 2), tt, next g).

Fixpoint insert_pair (x : double * Z) (l : list (double * Z)) : list (double * Z) :=
  match l with
  | [] => [x]
  | y :: l' => if pair_lt x y then x :: l else y :: insert_pair x l'
  end.

Definition insertion_sort (l : list (double * Z)) : list (double * Z) :=
  foldr insert_pair [] l.

(** A factorization whose orthogonal factor is the identity. *)
Definition identityQ (nobs ncoefs : Z) : run_dormqr :=
  {| get_nobs := nobs; get_ncoefs := ncoefs;
     rhs_init := replicate (Z.to_nat nobs) dzero;
     run := fun v => v |}.

Definition null_rho := get_null_rho generator seed_generator shuffle.
Definition null_rho_design :=
  get_null_rho_design generator seed_generator normal_distribution tt rnorm
    insertion_sort.
Definition rnorm_test :=
  test_rnorm generator seed_generator normal_distribution tt rnorm.

End Instance.

(** * Properties *)

(** ** Loops *)

Lemma for_iter_app {S : Type} (n m : nat) (i : Z) (body : Z -> S -> S) (s : S) :
  for_iter (n + m) i body s = for_iter m (i + Z.of_nat n) body (for_iter n i body s).
Proof.
  revert i s. induction n as [|n IH]; intros i s; simpl.
  - f_equal. lia.
  - rewrite IH. f_equal. lia.
Qed.

Lemma for_iter_ext {S : Type} (n : nat) (i : Z) (f g : Z -> S -> S) (s : S) :
  (forall j s', i <= j < i + Z.of_nat n -> f j s' = g j s') ->
  for_iter n i f s = for_iter n i g s.
Proof.
  revert i s. induction n as [|n IH]; intros i s H; simpl; [done|].
  rewrite H by lia. apply IH. intros j s' Hj. apply H. lia.
Qed.

(** A loop whose body only looks at the counter through a list is a left
    fold over that list. *)
Lemma for_iter_fold_left {S A : Type} (l : list A) (i : Z) (f : S -> A -> S)
    (body : Z -> S -> S) (s : S) :
  (forall k x s', l !! k = Some x -> body (i + Z.of_nat k) s' = f s' x) ->
  for_iter (length l) i body s = fold_left f l s.
Proof.
  revert i s. induction l as [|x l IH]; intros i s H; simpl; [done|].
  rewrite <- (H O x s eq_refl). replace (i + Z.of_nat 0) with i by lia.
  apply IH. intros k y s' Hk.
  rewrite <- (H (Datatypes.S k) y s' Hk). f_equal. lia.
Qed.

(** ** The monad *)

(** [returns m]: the computation never throws. *)
Definition returns {A} (m : M A) : Prop :=
  forall t, exists a t', m t = (Returned a, t').

(** [uniform m]: outcome and emitted events do not depend on the events
    recorded before the call. *)
Definition uniform {A} (m : M A) : Prop :=
  exists (r : outcome A) (evs : list event), forall t, m t = (r, t ++ evs).

Lemma bind_returned {A B} (m : M A) (k : A -> M B) t a t' :
  m t = (Returned a, t') -> (m ≫= k) t = k a t'.
Proof. intros E. unfold mbind, M_bind, bind. by rewrite E. Qed.

Lemma returns_ret {A} (a : A) : returns (ret a).
Proof. intros t. by exists a, t. Qed.

Lemma returns_emit e : returns (emit e).
Proof. intros t. by exists tt, (t ++ [e]). Qed.

Lemma returns_bind {A B} (m : M A) (k : A -> M B) :
  returns m -> (forall a, returns (k a)) -> returns (m ≫= k).
Proof.
  intros Hm Hk t. destruct (Hm t) as (a & t' & E).
  destruct (Hk a t') as (b & t'' & E'). exists b, t''.
  unfold mbind, M_bind, bind. by rewrite E.
Qed.

Lemma returns_forM_iter {S : Type} (n : nat) (i : Z) (body : Z -> S -> M S) (s : S) :
  (forall j s', returns (body j s')) -> returns (forM_iter n i body s).
Proof.
  intros Hb. revert i s. induction n as [|n IH]; intros i s; simpl.
  - apply returns_ret.
  - apply returns_bind; [apply Hb | intros s'; apply IH].
Qed.

Lemma uniform_ret {A} (a : A) : uniform (ret a).
Proof. exists (Returned a), []. intros t. unfold ret. by rewrite app_nil_r. Qed.

Lemma uniform_throw {A} msg : uniform (@throw A msg).
Proof. exists (Thrown msg), []. intros t. unfold throw. by rewrite app_nil_r. Qed.

Lemma uniform_emit e : uniform (emit e).
Proof. by exists (Returned tt), [e]. Qed.

Lemma uniform_bind {A B} (m : M A) (k : A -> M B) :
  uniform m -> (forall a, uniform (k a)) -> uniform (m ≫= k).
Proof.
  intros (r & evs & Hm) Hk. destruct r as [a|msg].
  - destruct (Hk a) as (r' & evs' & Hk'). exists r', (evs ++ evs'). intros t.
    unfold mbind, M_bind, bind. rewrite Hm, Hk'. by rewrite app_assoc.
  - exists (Thrown msg), evs. intros t.
    unfold mbind, M_bind, bind. by rewrite Hm.
Qed.

Lemma uniform_forM_iter {S : Type} (n : nat) (i : Z) (body : Z -> S -> M S) (s : S) :
  (forall j s', uniform (body j s')) -> uniform (forM_iter n i body s).
Proof.
  intros Hb. revert i s. induction n as [|n IH]; intros i s; simpl.
  - apply uniform_ret.
  - apply uniform_bind; [apply Hb | intros s'; apply IH].
Qed.

Lemma uniform_fst {A} (m : M A) t1 t2 : uniform m -> (m t1).1 = (m t2).1.
Proof. intros (r & evs & H). by rewrite !H. Qed.

(** A monadic loop whose body always returns the value of a pure function
    returns the value of the pure loop. *)
Lemma forM_iter_pure {S : Type} (f : Z -> S -> S) (n : nat) (i : Z)
    (body : Z -> S -> M S) (s : S) (t : list event) :
  (forall j s' t', i <= j < i + Z.of_nat n -> exists t'', body j s' t' = (Returned (f j s'), t'')) ->
  exists t', forM_iter n i body s t = (Returned (for_iter n i f s), t').
Proof.
  revert i s t. induction n as [|n IH]; intros i s t Hb; simpl.
  - by exists t.
  - destruct (Hb i s t ltac:(lia)) as (t1 & E).
    destruct (IH (i + 1) (f i s) t1) as (t2 & E2).
    { intros j s' t' Hj. apply Hb. lia. }
    exists t2. unfold mbind, M_bind, bind. by rewrite E.
Qed.

Ltac munfold := unfold mbind, M_bind, bind, mret, M_ret, ret, throw, emit.

(** ** Validation of the arguments *)
Section Validation.

Variable generator : Type.
Variable mt19937 : Z -> generator.
Variable shuffle : list Z -> generator -> list Z.
Variable normal_distribution : Type.
Variable normal_init : normal_distribution.
Variable rnorm :
  normal_distribution -> generator -> double * normal_distribution * generator.
Variable sort : list (double * Z) -> list (double * Z).

Local Abbreviation null_rho := (get_null_rho generator mt19937 shuffle).
Local Abbreviation mode_body :=
  (simulate_mode generator normal_distribution rnorm sort).
Local Abbreviation iteration_body :=
  (design_iteration generator mt19937 normal_distribution normal_init rnorm sort).
Local Abbreviation null_rho_design :=
  (get_null_rho_design generator mt19937 normal_distribution normal_init rnorm sort).
Local Abbreviation rnorm_test :=
  (test_rnorm generator mt19937 normal_distribution normal_init rnorm).

Lemma returns_cpp_rnorm d g : returns (cpp_rnorm generator normal_distribution rnorm d g).
Proof. apply returns_bind; [apply returns_emit | intros; apply returns_ret]. Qed.

Lemma returns_simulate_mode multQ mode s : returns (mode_body multQ mode s).
Proof.
  destruct s as [[w d] g]. unfold simulate_mode.
  apply returns_bind.
  - apply returns_forM_iter. intros j [[r d'] g'].
    apply returns_bind; [apply returns_cpp_rnorm|].
    intros [[x d''] g'']. apply returns_ret.
  - intros [[r d'] g']. apply returns_bind.
    + apply returns_bind; [apply returns_emit | intros; apply returns_ret].
    + intros r'. apply returns_ret.
Qed.

Lemma returns_design_iteration multQ mult Seeds it s :
  returns (iteration_body multQ mult Seeds it s).
Proof.
  destruct s as [w output]. unfold design_iteration.
  apply returns_bind.
  - apply returns_bind; [apply returns_emit | intros; apply returns_ret].
  - intros g. apply returns_bind.
    + apply returns_forM_iter. intros; apply returns_simulate_mode.
    + intros [[w' d'] g']. apply returns_ret.
Qed.

(** Once the checks have passed, the unconstrained sampler returns. *)
Lemma get_null_rho_returns cells iters seeds :
  1 < cells -> 0 <= iters -> Z.of_nat (length seeds) = iters ->
  returns (null_rho cells iters seeds).
Proof.
  intros Hc Hi Hs. unfold get_null_rho.
  destruct (Z.leb_spec cells 1); [lia|].
  destruct (Z.ltb_spec iters 0); [lia|].
  destruct (Z.eqb_spec (Z.of_nat (length seeds)) iters); [simpl|lia].
  apply returns_bind.
  - apply returns_forM_iter. intros j [r o].
    apply returns_bind.
    + apply returns_bind; [apply returns_emit | intros; apply returns_ret].
    + intros g. apply returns_bind.
      * apply returns_bind; [apply returns_emit | intros; apply returns_ret].
      * intros r'. apply returns_ret.
  - intros [r o]. apply returns_ret.
Qed.

(** Once the checks have passed, the design-adjusted sampler returns. *)
Lemma get_null_rho_design_returns multQ iters seeds :
  0 < iters -> Z.of_nat (length seeds) = iters ->
  returns (null_rho_design multQ iters seeds).
Proof.
  intros Hi Hs. unfold get_null_rho_design.
  destruct (Z.leb_spec iters 0); [lia|].
  destruct (Z.eqb_spec (Z.of_nat (length seeds)) iters); [simpl|lia].
  apply returns_bind.
  - apply returns_forM_iter. intros; apply returns_design_iteration.
  - intros [r o]. apply returns_ret.
Qed.

(** What the unconstrained sampler does when a check fails. *)
Lemma get_null_rho_rejects cells iters seeds t :
  cells <= 1 \/ iters < 0 \/ Z.of_nat (length seeds) <> iters ->
  exists msg, null_rho cells iters seeds t = (Thrown msg, t).
Proof.
  intros H. unfold get_null_rho.
  destruct (Z.leb_spec cells 1); [by eexists|].
  destruct (Z.ltb_spec iters 0); [by eexists|].
  destruct (Z.eqb_spec (Z.of_nat (length seeds)) iters); [lia|].
  by eexists.
Qed.

(** What the design-adjusted sampler does when a check fails. *)
Lemma get_null_rho_design_rejects multQ iters seeds t :
  iters <= 0 \/ Z.of_nat (length seeds) <> iters ->
  exists msg, null_rho_design multQ iters seeds t = (Thrown msg, t).
Proof.
  intros H. unfold get_null_rho_design.
  destruct (Z.leb_spec iters 0); [by eexists|].
  destruct (Z.eqb_spec (Z.of_nat (length seeds)) iters); [lia|].
  by eexists.
Qed.

(** C5: the unconstrained sampler throws exactly when the number of
    cells is at most 1, the number of iterations is negative, or the
    number of seeds differs from the number of iterations; on every
    other input it returns. *)
Theorem get_null_rho_throws_iff cells iters seeds t :
  ((exists msg, (null_rho cells iters seeds t).1 = Thrown msg) <->
     (cells <= 1 \/ iters < 0 \/ Z.of_nat (length seeds) <> iters)) /\
  ((exists out, (null_rho cells iters seeds t).1 = Returned out) <->
     ~ (cells <= 1 \/ iters < 0 \/ Z.of_nat (length seeds) <> iters)).
Proof.
  destruct (decide (cells <= 1 \/ iters < 0 \/ Z.of_nat (length seeds) <> iters))
    as [Hbad|Hok].
  - destruct (get_null_rho_rejects cells iters seeds t Hbad) as (msg & E).
    rewrite E; simpl. split; split; try done.
    + by exists msg.
    + by intros (out & ?).
  - destruct (get_null_rho_returns cells iters seeds) with (t := t)
      as (out & t' & E); [lia..|].
    rewrite E; simpl. split; split; try done.
    + by intros (msg & ?).
    + by exists out.
Qed.

(** C10: two cells are accepted although the message of the check
    speaks of more than 2; the accepting condition is [2 <= cells]. *)
Theorem get_null_rho_accepts_two iters seeds t :
  0 <= iters -> Z.of_nat (length seeds) = iters ->
  (exists out t', null_rho 2 iters seeds t = (Returned out, t')) /\
  (forall cells,
      (exists out t', null_rho cells iters seeds t = (Returned out, t')) <->
      2 <= cells) /\
  (forall cells, cells <= 1 ->
      null_rho cells iters seeds t =
      (Thrown "number of cells should be greater than 2", t)).
Proof.
  intros Hi Hs. split; [|split].
  - apply get_null_rho_returns; lia.
  - intros cells. split.
    + intros (out & t' & E). destruct (Z.le_gt_cases 2 cells) as [|Hlt]; [done|].
      destruct (get_null_rho_rejects cells iters seeds t) as (msg & E');
        [lia|congruence].
    + intros Hc. apply get_null_rho_returns; lia.
  - intros cells Hc. unfold get_null_rho.
    by destruct (Z.leb_spec cells 1); [|lia].
Qed.

(** C2, as the code has it: without iterations the unconstrained sampler
    returns the empty sequence and does no simulation work, while the
    design-adjusted sampler throws, its check being [Niters <= 0]. *)
Theorem samplers_zero_iterations cells multQ t :
  1 < cells ->
  null_rho cells 0 [] t = (Returned [], t) /\
  null_rho_design multQ 0 [] t =
    (Thrown "number of iterations should be positive", t).
Proof.
  intros Hc. split; [|done].
  unfold get_null_rho. by destruct (Z.leb_spec cells 1); [lia|].
Qed.

(** C8: in both samplers a thrown error leaves the trace of simulation
    work as it was before the call, and comes from a failed check of the
    arguments; the outcome of such a call carries no output. *)
Theorem errors_precede_simulation cells multQ iters seeds t msg t' :
  (null_rho cells iters seeds t = (Thrown msg, t') ->
     t' = t /\
     (cells <= 1 \/ iters < 0 \/ Z.of_nat (length seeds) <> iters)) /\
  (null_rho_design multQ iters seeds t = (Thrown msg, t') ->
     t' = t /\ (iters <= 0 \/ Z.of_nat (length seeds) <> iters)).
Proof.
  split; intros E.
  - destruct (decide (cells <= 1 \/ iters < 0 \/ Z.of_nat (length seeds) <> iters))
      as [Hbad|Hok].
    + destruct (get_null_rho_rejects cells iters seeds t Hbad) as (msg' & E').
      split; [congruence|done].
    + destruct (get_null_rho_returns cells iters seeds) with (t := t)
        as (out & t'' & E'); [lia..|congruence].
  - destruct (decide (iters <= 0 \/ Z.of_nat (length seeds) <> iters))
      as [Hbad|Hok].
    + destruct (get_null_rho_design_rejects multQ iters seeds t Hbad) as (msg' & E').
      split; [congruence|done].
    + destruct (get_null_rho_design_returns multQ iters seeds) with (t := t)
        as (out & t'' & E'); [lia..|congruence].
Qed.

(** *** Determinism *)

Ltac uniform_step :=
  lazymatch goal with
  | |- uniform (ret _) => apply uniform_ret
  | |- uniform (mret _) => apply uniform_ret
  | |- uniform (throw _) => apply uniform_throw
  | |- uniform (emit _) => apply uniform_emit
  | |- uniform (_ ≫= _) => apply uniform_bind
  | |- uniform (forM_range _ _ _ _) => apply uniform_forM_iter
  | |- uniform (if ?b then _ else _) => destruct b
  | |- uniform (match ?x with (_, _) => _ end) => destruct x
  | |- forall _, _ => intro
  end.

Lemma uniform_get_null_rho cells iters seeds : uniform (null_rho cells iters seeds).
Proof.
  unfold get_null_rho, new_generator, std_shuffle. cbv zeta.
  repeat uniform_step.
Qed.

Lemma uniform_get_null_rho_design multQ iters seeds :
  uniform (null_rho_design multQ iters seeds).
Proof.
  unfold get_null_rho_design, design_iteration, simulate_mode, new_generator,
    cpp_rnorm, multQ_run. cbv zeta.
  repeat uniform_step.
Qed.

Lemma uniform_test_rnorm N seed : uniform (rnorm_test N seed).
Proof.
  unfold test_rnorm, new_generator, cpp_rnorm, numeric_vector. cbv zeta.
  repeat uniform_step.
Qed.

End Validation.

(** ** Arithmetic helpers *)

Lemma wrap_int_small z : is_int z -> wrap_int z = z.
Proof.
  unfold is_int, INT_MIN, INT_MAX, wrap_int. intros H.
  rewrite Z.mod_small; lia.
Qed.

Lemma dmul_comm (x y : double) : (x * y)%D = (y * x)%D.
Proof.
  unfold dmul.
  destruct x as [sx|sx| |sx mx ex], y as [sy|sy| |sy my ey]; simpl;
    rewrite ?(xorb_comm sx sy), ?(Pos.mul_comm mx my), ?(Z.add_comm ex ey);
    reflexivity.
Qed.

Lemma std_iota_seqZ (v : list Z) (start : Z) :
  std_iota v start = seqZ start (Z.of_nat (length v)).
Proof.
  unfold std_iota. apply list_eq. intros i.
  rewrite list_lookup_imap.
  destruct (v !! i) as [x|] eqn:E; simpl.
  - apply lookup_lt_Some in E. symmetry. apply lookup_seqZ. lia.
  - apply lookup_ge_None in E. symmetry. apply lookup_seqZ_ge. lia.
Qed.

Lemma vget_lookup {A} (d : A) (v : list A) (k : nat) (x : A) :
  v !! k = Some x -> vget d v (Z.of_nat k) = x.
Proof.
  intros H. unfold vget. rewrite Nat2Z.id.
  by rewrite (nth_lookup_Some _ _ _ _ H).
Qed.

(** The accumulation loop of both samplers is [sum_sq_diff]. *)
Lemma sum_loop (p q : list Z) (N : Z) :
  Z.of_nat (length p) = N -> Z.of_nat (length q) = N -> is_int N ->
  Forall (fun x => 0 <= x < N) p -> Forall (fun x => 0 <= x < N) q ->
  for_range 0 N (fun row tmp =>
      let tmpdiff := double_of_int (int_sub (vget 0 p row) (vget 0 q row)) in
      (tmp + tmpdiff * tmpdiff)%D) dzero
  = sum_sq_diff p q.
Proof.
  intros Hp Hq HN Fp Fq. unfold for_range, sum_sq_diff.
  replace (Z.to_nat (N - 0)) with (length (zip p q)).
  2:{ rewrite length_zip_with. lia. }
  apply for_iter_fold_left. intros k [a b] s' Hk.
  apply lookup_zip_with_Some in Hk as (a' & b' & [= <- <-] & Ha & Hb).
  simpl. rewrite (vget_lookup _ _ _ _ Ha), (vget_lookup _ _ _ _ Hb).
  unfold int_sub. rewrite wrap_int_small; [done|].
  rewrite Forall_lookup in Fp, Fq. specialize (Fp _ _ Ha). specialize (Fq _ _ Hb).
  unfold is_int, INT_MIN, INT_MAX in *. simpl in *. lia.
Qed.

(** Writing one value per iteration into a vector leaves the values in
    iteration order in front of the untouched rest. *)
Lemma output_loop {S A : Type} (Inv : S -> Prop) (val : Z -> A)
    (body : Z -> S * list A -> S * list A) (out0 : list A) :
  (forall it s out, 0 <= it < Z.of_nat (length out0) -> Inv s ->
     exists s', body it (s, out) = (s', vset out it (val it)) /\ Inv s') ->
  forall s0, Inv s0 -> forall n, (n <= length out0)%nat ->
  exists s,
    for_iter n 0 body (s0, out0)
    = (s, map val (seqZ 0 (Z.of_nat n)) ++ drop n out0) /\ Inv s.
Proof.
  intros Hbody s0 H0 n. induction n as [|n IH]; intros Hn.
  - exists s0. by simpl.
  - destruct IH as (s & E & Hs); [lia|].
    replace (Datatypes.S n) with (n + 1)%nat by lia.
    rewrite for_iter_app, E. simpl.
    destruct (Hbody (Z.of_nat n) s (map val (seqZ 0 (Z.of_nat n)) ++ drop n out0))
      as (s' & E' & Hs'); [lia|done|].
    exists s'. split; [|done]. rewrite Z.add_0_l, E'. f_equal.
    unfold vset. rewrite Nat2Z.id.
    rewrite insert_app_r_alt by (rewrite length_map, length_seqZ; lia).
    rewrite length_map, length_seqZ.
    replace (n - Z.to_nat (Z.of_nat n))%nat with O by lia.
    destruct (lookup_lt_is_Some_2 out0 n ltac:(lia)) as [x Hx].
    rewrite (drop_S _ _ _ Hx). simpl.
    replace (Z.of_nat (n + 1)) with (Z.of_nat n + 1) by lia.
    rewrite seqZ_app by lia. rewrite map_app. simpl.
    rewrite <- app_assoc. simpl. do 3 f_equal. lia.
Qed.

(** The same for a loop whose only state is the vector. *)
Lemma fill_loop {A : Type} (val : Z -> A) (v : list A) (n : nat) :
  (n <= length v)%nat ->
  for_iter n 0 (fun i v => vset v i (val i)) v
  = map val (seqZ 0 (Z.of_nat n)) ++ drop n v.
Proof.
  intros Hn.
  destruct (output_loop (fun _ : unit => True) val
              (fun i (s : unit * list A) => (tt, vset s.2 i (val i))) v)
    with (s0 := tt) (n := n) as (s & E & _); [by eexists|done|done|].
  assert (forall k i w, for_iter k i (fun i (s : unit * list A) => (tt, vset s.2 i (val i))) (tt, w)
                        = (tt, for_iter k i (fun i v => vset v i (val i)) w)) as Hgen.
  { induction k as [|k IH]; intros i w; simpl; [done|]. by rewrite IH. }
  rewrite Hgen in E. by injection E.
Qed.

Lemma map_vget_seqZ {A B} (d : A) (g : A -> B) (l : list A) :
  map (fun it => g (vget d l it)) (seqZ 0 (Z.of_nat (length l))) = map g l.
Proof.
  apply list_eq. intros i. rewrite !list_lookup_fmap.
  destruct (l !! i) as [x|] eqn:E; simpl.
  - rewrite lookup_seqZ_lt by (apply lookup_lt_Some in E; lia). simpl.
    by rewrite (vget_lookup _ _ _ _ E).
  - rewrite lookup_seqZ_ge; [done|]. apply lookup_ge_None in E. lia.
Qed.

(** ** The unconstrained sampler *)
Section Unconstrained.

Variable generator : Type.
Variable mt19937 : Z -> generator.
Variable shuffle : list Z -> generator -> list Z.

(** [std::shuffle] rearranges the range it is given. *)
Hypothesis shuffle_perm : forall v g, Permutation (shuffle v g) v.

Local Abbreviation null_rho := (get_null_rho generator mt19937 shuffle).
Local Abbreviation ranking_of := (permuted mt19937 shuffle).

Lemma permuted_perm N seed : Permutation (ranking_of N seed) (seqZ 0 N).
Proof. apply shuffle_perm. Qed.

Lemma permuted_length N seed : 0 <= N -> Z.of_nat (length (ranking_of N seed)) = N.
Proof. intros HN. rewrite (Permutation_length (permuted_perm N seed)), length_seqZ. lia. Qed.

Lemma permuted_range N seed : Forall (fun x => 0 <= x < N) (ranking_of N seed).
Proof.
  apply Forall_forall. intros x Hx.
  rewrite (permuted_perm N seed) in Hx. apply elem_of_seqZ in Hx. lia.
Qed.

Lemma seqZ_range N : Forall (fun x => 0 <= x < N) (seqZ 0 N).
Proof. apply Forall_forall. intros x Hx. apply elem_of_seqZ in Hx. lia. Qed.

(** The sequence of values of a successful call. *)
Lemma get_null_rho_closed_form cells iters seeds t :
  1 < cells -> is_int cells -> 0 <= iters -> Z.of_nat (length seeds) = iters ->
  exists t',
    null_rho cells iters seeds t =
    (Returned (map (fun seed =>
                      spearman_rho cells (ranking_of cells seed) (seqZ 0 cells))
                   seeds), t').
Proof.
  intros Hc Hint Hi Hs. unfold get_null_rho.
  destruct (Z.leb_spec cells 1); [lia|].
  destruct (Z.ltb_spec iters 0); [lia|].
  destruct (Z.eqb_spec (Z.of_nat (length seeds)) iters); [simpl|lia].
  set (mult := rho_mult (double_of_int cells)).
  set (val := fun it : Z =>
         (done_ - sum_sq_diff (ranking_of cells (vget 0 seeds it)) (seqZ 0 cells) * mult)%D).
  set (f := fun (it : Z) (s : list Z * list double) =>
         let r := shuffle (std_iota s.1 0) (mt19937 (vget 0 seeds it)) in
         (r, vset s.2 it
               (done_ - for_range 0 cells (fun cell tmp =>
                   let tmpdiff := double_of_int (int_sub (vget 0 r cell) cell) in
                   (tmp + tmpdiff * tmpdiff)%D) dzero * mult)%D)).
  unfold forM_range.
  replace (Z.to_nat (iters - 0)) with (length seeds) by lia.
  replace (Z.to_nat iters) with (length seeds) by lia.
  lazymatch goal with
  | |- context [forM_iter _ 0 ?b ?s0] =>
      destruct (forM_iter_pure f (length seeds) 0 b s0 t) as (t1 & E1)
  end.
  { intros j [r o] t' Hj. eexists. unfold new_generator, std_shuffle. munfold.
    reflexivity. }
  rewrite (bind_returned _ _ _ _ _ E1).
  destruct (output_loop (fun r : list Z => Z.of_nat (length r) = cells)
              val f (replicate (length seeds) dzero)) with
    (s0 := replicate (Z.to_nat cells) 0) (n := length seeds) as (r & E2 & _).
  { intros it r out Hit Hr. rewrite length_replicate in Hit.
    exists (ranking_of cells (vget 0 seeds it)).
    split; [|apply permuted_length; lia].
    unfold f, val, permuted. simpl.
    rewrite std_iota_seqZ, Hr. do 3 f_equal.
    rewrite <- (sum_loop _ (seqZ 0 cells) cells);
      [|apply permuted_length; lia|rewrite length_seqZ; lia|done
       |apply permuted_range|apply seqZ_range].
    unfold for_range. f_equal. apply for_iter_ext. intros j s' Hj. simpl.
    assert (vget 0 (seqZ 0 cells) j = j) as ->; [|done].
    unfold vget. rewrite nth_lookup, lookup_seqZ_lt by lia. simpl. lia. }
  { rewrite length_replicate. lia. }
  { by rewrite length_replicate. }
  rewrite E2. eexists. unfold ret. f_equal. f_equal.
  rewrite drop_ge, app_nil_r by (by rewrite length_replicate). unfold val.
  rewrite (map_vget_seqZ 0
    (fun seed => (done_ - sum_sq_diff (ranking_of cells seed) (seqZ 0 cells) * mult)%D)).
  apply map_ext. intros seed. unfold spearman_rho. by rewrite dmul_comm.
Qed.

(** C7: with four cells, an iteration whose shuffle leaves the reversed
    ranking [3,2,1,0] yields exactly -1: the scaling constant is the
    double nearest to 6/60, the sum of squares is 20, their product
    rounds to 2, and 1 - 2 is -1. *)
Theorem reversed_ranking_rho seed t :
  ranking_of 4 seed = [3; 2; 1; 0] ->
  exists t',
    null_rho 4 1 [seed] t = (Returned [double_of_int (-1)], t') /\
    sum_sq_diff [3; 2; 1; 0] (seqZ 0 4) = double_of_int (9 + 1 + 1 + 9) /\
    rho_mult (double_of_int 4) = (dsix / double_of_int (4 * 15))%D /\
    (done_ - dsix / double_of_int (4 * 15) * double_of_int (9 + 1 + 1 + 9))%D
      = double_of_int (-1).
Proof.
  intros H. unfold permuted in H.
  unfold get_null_rho, forM_range, new_generator, std_shuffle. simpl. munfold.
  change (std_iota [0; 0; 0; 0] 0) with (seqZ 0 4).
  change (vget 0 [seed] 0) with seed.
  rewrite H. eexists. repeat split; vm_compute; reflexivity.
Qed.

End Unconstrained.

(** The instance satisfies what is assumed of [std::shuffle]. *)
Lemma instance_shuffle_perm v g : Permutation (Instance.shuffle v g) v.
Proof. unfold Instance.shuffle. by rewrite reverse_Permutation || apply Permutation_sym, Permutation_rev. Qed.

Lemma get_null_rho_accepts_two_witness :
  exists out t', Instance.null_rho 2 3 [11; 12; 13] [] = (Returned out, t').
Proof.
  refine (proj1 (get_null_rho_accepts_two Instance.generator Instance.seed_generator
                   Instance.shuffle 3 [11; 12; 13] [] _ _)); [lia | reflexivity].
Defined.

Lemma samplers_zero_iterations_witness :
  Instance.null_rho 5 0 [] [] = (Returned [], []) /\
  Instance.null_rho_design (Instance.identityQ 4 1) 0 [] [] =
    (Thrown "number of iterations should be positive", []).
Proof.
  apply (samplers_zero_iterations Instance.generator Instance.seed_generator
           Instance.shuffle Instance.normal_distribution tt Instance.rnorm
           Instance.insertion_sort 5 (Instance.identityQ 4 1) []). lia.
Defined.

(** C2 fails for the design-adjusted sampler: called without iterations
    and without seeds it throws instead of returning an empty sequence. *)
Lemma design_sampler_rejects_zero_iterations :
  ~ exists out t',
      Instance.null_rho_design (Instance.identityQ 4 1) 0 [] [] = (Returned out, t').
Proof. intros (out & t' & E). vm_compute in E. discriminate E. Qed.

Lemma reversed_ranking_rho_witness :
  exists t',
    Instance.null_rho 4 1 [2024] [] = (Returned [double_of_int (-1)], t') /\
    sum_sq_diff [3; 2; 1; 0] (seqZ 0 4) = double_of_int (9 + 1 + 1 + 9) /\
    rho_mult (double_of_int 4) = (dsix / double_of_int (4 * 15))%D /\
    (done_ - dsix / double_of_int (4 * 15) * double_of_int (9 + 1 + 1 + 9))%D
      = double_of_int (-1).
Proof.
  apply (reversed_ranking_rho Instance.generator Instance.seed_generator
           Instance.shuffle 2024 []). reflexivity.
Defined.

(** ** The order of [pair_lt] *)

(** A key for the comparison of doubles that are not NaN: [dlt] is the
    lexicographic order of the keys. *)
Definition fkey (x : double) : Z * Z * Z :=
  match x with
  | S754_zero _ => (0, 0, 0)
  | S754_infinity s => (if s then -2 else 2, 0, 0)
  | S754_nan => (0, 0, 0)
  | S754_finite s m e => if s then (-1, - e, - Z.pos m) else (1, e, Z.pos m)
  end.

Definition lt3 (a b : Z * Z * Z) : Prop :=
  a.1.1 < b.1.1 \/
  (a.1.1 = b.1.1 /\ (a.1.2 < b.1.2 \/ (a.1.2 = b.1.2 /\ a.2 < b.2))).

Lemma dlt_fkey (x y : double) :
  is_nan x = false -> is_nan y = false ->
  dlt x y = true <-> lt3 (fkey x) (fkey y).
Proof.
  unfold dlt, SFltb, SFcompare, lt3.
  destruct x as [sx|sx| |sx mx ex], y as [sy|sy| |sy my ey]; try discriminate;
    intros _ _; try destruct sx; try destruct sy; simpl; try (split; [discriminate|lia]);
    try (split; [lia|reflexivity]).
  all: change (Pos.compare_cont Eq mx my) with (Pos.compare mx my).
  all: destruct (Z.compare_spec ex ey); destruct (Pos.compare_spec mx my);
    simpl; split; intros; try discriminate; try reflexivity; try lia.
Qed.

Lemma dlt_irrefl (x : double) : dlt x x = false.
Proof.
  unfold dlt, SFltb, SFcompare.
  destruct x as [sx|sx| |sx mx ex]; try destruct sx; try reflexivity.
  all: change (Pos.compare_cont Eq mx mx) with (Pos.compare mx mx).
  all: by rewrite Z.compare_refl, Pos.compare_refl.
Qed.

Lemma pair_lt_irrefl (a : double * Z) : pair_lt a a = false.
Proof. unfold pair_lt. rewrite dlt_irrefl, Z.ltb_irrefl. reflexivity. Qed.

(** Two pairs with different indices are ordered one way or the other. *)
Lemma pair_lt_total (a b : double * Z) :
  a.2 <> b.2 -> pair_lt b a = false -> pair_lt a b = true.
Proof.
  unfold pair_lt. intros Hne H.
  destruct (dlt b.1 a.1), (dlt a.1 b.1); simpl in *; try done.
  destruct (Z.ltb_spec b.2 a.2); [done|]. apply Z.ltb_lt. lia.
Qed.

Lemma pair_lt_asym (a b : double * Z) :
  is_nan a.1 = false -> is_nan b.1 = false ->
  pair_lt a b = true -> pair_lt b a = false.
Proof.
  unfold pair_lt. intros Ha Hb H.
  pose proof (dlt_fkey a.1 b.1 Ha Hb) as Hab. pose proof (dlt_fkey b.1 a.1 Hb Ha) as Hba.
  unfold lt3 in *.
  destruct (dlt a.1 b.1), (dlt b.1 a.1); simpl in *; try done.
  - exfalso. destruct Hab as [Hab _], Hba as [Hba _].
    specialize (Hab eq_refl). specialize (Hba eq_refl). lia.
  - destruct (Z.ltb_spec a.2 b.2); [|done]. apply Z.ltb_ge. lia.
Qed.

(** "Not above": the relation in which [std::sort] leaves its result. *)
Definition pair_le (a b : double * Z) : Prop := pair_lt b a = false.

Lemma pair_le_trans (a b c : double * Z) :
  is_nan a.1 = false -> is_nan b.1 = false -> is_nan c.1 = false ->
  pair_le a b -> pair_le b c -> pair_le a c.
Proof.
  unfold pair_le, pair_lt. intros Ha Hb Hc Hab Hbc.
  pose proof (dlt_fkey a.1 b.1 Ha Hb). pose proof (dlt_fkey b.1 a.1 Hb Ha).
  pose proof (dlt_fkey b.1 c.1 Hb Hc). pose proof (dlt_fkey c.1 b.1 Hc Hb).
  pose proof (dlt_fkey a.1 c.1 Ha Hc). pose proof (dlt_fkey c.1 a.1 Hc Ha).
  unfold lt3 in *.
  destruct (dlt a.1 b.1), (dlt b.1 a.1), (dlt b.1 c.1), (dlt c.1 b.1),
    (dlt a.1 c.1), (dlt c.1 a.1); simpl in *; try done;
    repeat match goal with
      | H : true = true <-> _ |- _ => destruct H as [H _]; specialize (H eq_refl)
      | H : false = true <-> _ |- _ =>
          let H' := fresh in destruct H as [_ H];
          assert (H' := fun p => eq_ind false (fun b => if b then False else True) I _ (H p));
          clear H
      end;
    try (exfalso; lia);
    destruct (Z.ltb_spec b.2 a.2), (Z.ltb_spec c.2 b.2), (Z.ltb_spec c.2 a.2);
    simpl in *; try done; try (exfalso; lia).
Qed.

(** ** Insertion sort keeps the promise of [std::sort] *)

Lemma insert_pair_perm x l : Permutation (Instance.insert_pair x l) (x :: l).
Proof.
  induction l as [|y l IH]; simpl; [done|].
  destruct (pair_lt x y); [done|].
  rewrite IH. apply perm_swap.
Qed.

Lemma insertion_sort_perm l : Permutation (Instance.insertion_sort l) l.
Proof.
  induction l as [|x l IH]; simpl; [done|].
  fold (Instance.insertion_sort l). by rewrite insert_pair_perm, IH.
Qed.

Lemma insert_pair_sorted x l :
  no_nan (x :: l) -> StronglySorted pair_le l ->
  StronglySorted pair_le (Instance.insert_pair x l).
Proof.
  intros Hnan Hl. induction Hl as [|y l Hl IH Hy]; simpl.
  - repeat constructor.
  - apply Forall_cons in Hnan as [Hx Hyl]. apply Forall_cons in Hyl as [Hy' Hl'].
    destruct (pair_lt x y) eqn:E.
    + constructor; [by constructor|].
      assert (pair_le x y) as Hxy by (by apply pair_lt_asym).
      constructor; [done|].
      rewrite Forall_forall in Hy, Hl'. apply Forall_forall. intros z Hz.
      apply (pair_le_trans x y z); auto.
    + constructor.
      * apply IH. by constructor.
      * rewrite insert_pair_perm. by constructor.
Qed.

Lemma insertion_sort_contract : sort_contract Instance.insertion_sort.
Proof.
  intros l Hnan. split; [apply insertion_sort_perm|].
  induction l as [|x l IH]; simpl; [constructor|].
  fold (Instance.insertion_sort l).
  apply Forall_cons in Hnan as [Hx Hl].
  apply insert_pair_sorted; [|by apply IH].
  constructor; [done|]. unfold no_nan. by rewrite insertion_sort_perm.
Qed.

(** ** The buffers of the design-adjusted sampler *)

Lemma std_fill_prefix {A : Type} (v : list A) (k : nat) (x : A) :
  (k <= length v)%nat ->
  std_fill v 0 (Z.of_nat k) x = replicate k x ++ drop k v.
Proof.
  intros Hk. unfold std_fill, for_range.
  replace (Z.to_nat (Z.of_nat k - 0)) with k by lia.
  rewrite (fill_loop (fun _ => x)) by done. f_equal.
  apply list_eq. intros i. rewrite list_lookup_fmap.
  destruct (decide (i < k)%nat).
  - rewrite lookup_seqZ_lt by lia. simpl. by rewrite lookup_replicate_2.
  - rewrite lookup_seqZ_ge by lia. simpl. symmetry. apply lookup_replicate_None; lia.
Qed.

(** Filling the pairs: each value with its row. *)
Lemma collect_loop (rhs : list double) (current : list (double * Z)) :
  length current = length rhs ->
  for_range 0 (Z.of_nat (length rhs))
    (fun row current => vset current row (vget dzero rhs row, row)) current
  = indexed rhs.
Proof.
  intros Hlen. unfold for_range.
  replace (Z.to_nat (Z.of_nat (length rhs) - 0)) with (length rhs) by lia.
  rewrite (fill_loop (fun row => (vget dzero rhs row, row))) by lia.
  rewrite drop_ge, app_nil_r by lia.
  unfold indexed. apply list_eq. intros i.
  rewrite list_lookup_fmap, list_lookup_imap.
  destruct (rhs !! i) as [x|] eqn:E; simpl.
  - rewrite lookup_seqZ_lt by (apply lookup_lt_Some in E; lia). simpl.
    rewrite Z.add_0_l. by rewrite (vget_lookup _ _ _ _ E).
  - rewrite lookup_seqZ_ge; [done|]. apply lookup_ge_None in E. lia.
Qed.

Lemma indexed_length v : length (indexed v) = length v.
Proof. unfold indexed. apply length_imap. Qed.

Lemma indexed_lookup v (i : nat) p :
  indexed v !! i = Some p <-> exists x, v !! i = Some x /\ p = (x, Z.of_nat i).
Proof.
  unfold indexed. rewrite list_lookup_imap.
  destruct (v !! i) as [x|]; simpl; split.
  - intros [= <-]. by exists x.
  - intros (y & [= <-] & ->). done.
  - done.
  - by intros (y & ? & _).
Qed.

Lemma indexed_snd v : (indexed v).*2 = seqZ 0 (Z.of_nat (length v)).
Proof.
  apply list_eq. intros i. rewrite list_lookup_fmap.
  destruct (indexed v !! i) as [p|] eqn:E; simpl.
  - apply indexed_lookup in E as (x & Hx & ->). simpl.
    by rewrite lookup_seqZ_lt by (apply lookup_lt_Some in Hx; lia).
  - apply lookup_ge_None in E. rewrite indexed_length in E.
    by rewrite lookup_seqZ_ge by lia.
Qed.

(** The loop [rank[current[row].second] = row] inverts the permutation of
    the indices held by [current]. *)
Lemma rank_loop (current : list (double * Z)) (rank0 : list Z) (n : nat) :
  Permutation (current.*2) (seqZ 0 (Z.of_nat (length current))) ->
  length rank0 = length current -> (n <= length current)%nat ->
  let rank := for_iter n 0 (fun row rank =>
                vset rank (vget (dzero, 0) current row).2 row) rank0 in
  length rank = length current /\
  forall (row : nat) p, (row < n)%nat -> current !! row = Some p ->
    rank !! Z.to_nat p.2 = Some (Z.of_nat row).
Proof.
  intros Hperm Hlen. cbv zeta. induction n as [|n IH]; intros Hn.
  - split; [done|]. intros; lia.
  - destruct IH as [IHlen IH]; [lia|].
    replace (Datatypes.S n) with (n + 1)%nat by lia.
    rewrite for_iter_app. simpl. rewrite Z.add_0_l.
    set (rank := for_iter n 0 _ rank0) in *.
    destruct (lookup_lt_is_Some_2 current n ltac:(lia)) as [q Hq].
    rewrite (vget_lookup _ _ _ _ Hq).
    split; [unfold vset; by rewrite length_insert|].
    assert (NoDup (current.*2)) as Hnd.
    { rewrite Hperm. apply NoDup_seqZ. }
    assert (forall (row : nat) p, current !! row = Some p ->
              0 <= p.2 < Z.of_nat (length current)) as Hrange.
    { intros row p Hp.
      assert (p.2 ∈ current.*2) as Hin.
      { apply list_elem_of_lookup. exists row. by rewrite list_lookup_fmap, Hp. }
      rewrite Hperm in Hin. apply elem_of_seqZ in Hin. lia. }
    intros row p Hrow Hp. unfold vset.
    destruct (decide (row = n)) as [->|Hne].
    + rewrite Hq in Hp. injection Hp as <-.
      apply list_lookup_insert_eq. pose proof (Hrange _ _ Hq). lia.
    + rewrite list_lookup_insert_ne; [apply IH; [lia|done]|].
      intros Heq.
      assert (q.2 = p.2) as Heq2.
      { pose proof (Hrange _ _ Hq). pose proof (Hrange _ _ Hp). lia. }
      apply Hne. eapply (NoDup_lookup _ _ _ _ Hnd).
      * by rewrite list_lookup_fmap, Hp.
      * rewrite list_lookup_fmap, Hq. simpl. by rewrite Heq2.
Qed.

Lemma filter_all {A} (P : A -> Prop) `{forall x, Decision (P x)} (l : list A) :
  Forall P l -> filter P l = l.
Proof.
  induction 1 as [|x l Hx Hl IH]; [done|].
  by rewrite filter_cons_True, IH.
Qed.

Lemma filter_none {A} (P : A -> Prop) `{forall x, Decision (P x)} (l : list A) :
  Forall (fun x => ~ P x) l -> filter P l = [].
Proof.
  induction 1 as [|x l Hx Hl IH]; [done|].
  by rewrite filter_cons_False, IH.
Qed.

(** In a sorted sequence of pairs with distinct indices, the position of
    a pair is the number of pairs below it. *)
Lemma count_before (current : list (double * Z)) (row : nat) (x : double * Z) :
  StronglySorted pair_le current -> NoDup (current.*2) ->
  current !! row = Some x ->
  length (filter (fun p => pair_lt p x = true) current) = row.
Proof.
  intros Hs Hnd Hx.
  pose proof (take_drop_middle _ _ _ Hx) as E.
  assert (length (take row current) = row) as Hlen.
  { apply length_take_le. apply lookup_lt_Some in Hx. lia. }
  revert E Hlen. generalize (take row current) (drop (Datatypes.S row) current).
  intros l1 l2 E Hlen. subst current.
  apply StronglySorted_app in Hs as (H12 & _ & Hs2).
  apply StronglySorted_cons in Hs2 as [Hx2 _].
  rewrite fmap_app in Hnd. apply NoDup_app in Hnd as (_ & Hdisj & _).
  rewrite filter_app, filter_cons_False, length_app.
  2:{ by rewrite pair_lt_irrefl. }
  rewrite (filter_all _ l1), (filter_none _ l2); [simpl; lia| |].
  - eapply Forall_impl; [exact Hx2|]. intros p Hp. unfold pair_le in Hp. by rewrite Hp.
  - apply Forall_forall. intros p Hp. apply pair_lt_total.
    + intros Heq. apply (Hdisj p.2).
      * apply list_elem_of_fmap. by exists p.
      * rewrite Heq. simpl. left.
    + apply H12; [done|left].
Qed.

Lemma rank_loop_perm (current : list (double * Z)) (rank : list Z) :
  Permutation (current.*2) (seqZ 0 (Z.of_nat (length current))) ->
  length rank = length current ->
  (forall (row : nat) p, current !! row = Some p ->
     rank !! Z.to_nat p.2 = Some (Z.of_nat row)) ->
  Permutation rank (seqZ 0 (Z.of_nat (length current))).
Proof.
  intros Hperm Hlen Hrank.
  assert (vget 0 rank <$> current.*2 = seqZ 0 (Z.of_nat (length current))) as E1.
  { apply list_eq. intros i. rewrite !list_lookup_fmap.
    destruct (current !! i) as [p|] eqn:E; simpl.
    - rewrite lookup_seqZ_lt by (apply lookup_lt_Some in E; lia).
      unfold vget. by rewrite (nth_lookup_Some _ _ _ _ (Hrank _ _ E)).
    - apply lookup_ge_None in E. by rewrite lookup_seqZ_ge by lia. }
  assert (vget 0 rank <$> seqZ 0 (Z.of_nat (length current)) = rank) as E2.
  { apply list_eq. intros i. rewrite list_lookup_fmap.
    destruct (rank !! i) as [x|] eqn:E; simpl.
    - rewrite lookup_seqZ_lt by (apply lookup_lt_Some in E; lia). simpl.
      by rewrite (vget_lookup _ _ _ _ E).
    - apply lookup_ge_None in E. by rewrite lookup_seqZ_ge by lia. }
  rewrite <- E2 at 1. rewrite <- E1 at 2. by rewrite Hperm.
Qed.

(** The rank vector left by the two loops around [std::sort]. *)
Lemma rank_is_sorted_position (v : list double) (current : list (double * Z))
    (rank : list Z) :
  Permutation current (indexed v) -> StronglySorted pair_le current ->
  length rank = length v ->
  (forall (row : nat) p, current !! row = Some p ->
     rank !! Z.to_nat p.2 = Some (Z.of_nat row)) ->
  rank = ranks v.
Proof.
  intros Hperm Hs Hlen Hrank. unfold ranks.
  apply list_eq. intros i. rewrite list_lookup_fmap.
  destruct (v !! i) as [x|] eqn:E.
  - rewrite lookup_seqZ_lt by (apply lookup_lt_Some in E; lia). simpl.
    assert ((x, Z.of_nat i) ∈ current) as Hin.
    { rewrite Hperm. apply list_elem_of_lookup. exists i.
      apply indexed_lookup. by exists x. }
    apply list_elem_of_lookup in Hin as [row Hrow].
    pose proof (Hrank _ _ Hrow) as Hr. simpl in Hr. rewrite Nat2Z.id in Hr.
    rewrite Hr. f_equal. unfold sorted_position.
    rewrite (vget_lookup _ _ _ _ E). rewrite <- Hperm.
    rewrite (count_before current row); [done|done| |done].
    rewrite Hperm, indexed_snd. apply NoDup_seqZ.
  - apply lookup_ge_None in E.
    rewrite lookup_seqZ_ge by lia. simpl. apply lookup_ge_None. lia.
Qed.

(** Accumulating in one slot of a vector is accumulating in a local. *)
Lemma slot_loop (h : Z -> double -> double) (it : Z) (n : nat) (i : Z)
    (out : list double) :
  0 <= it < Z.of_nat (length out) ->
  for_iter n i (fun row out => vset out it (h row (vget dzero out it))) out
  = vset out it (for_iter n i h (vget dzero out it)).
Proof.
  revert i out. induction n as [|n IH]; intros i out Hit; simpl.
  - unfold vset, vget. symmetry. apply list_insert_id.
    destruct (lookup_lt_is_Some_2 out (Z.to_nat it) ltac:(lia)) as [x Hx].
    by rewrite (nth_lookup_Some _ _ _ _ Hx).
  - rewrite IH by (unfold vset; rewrite length_insert; lia).
    unfold vset, vget. rewrite list_insert_insert_eq. do 2 f_equal.
    rewrite nth_lookup, list_lookup_insert_eq by lia. done.
Qed.

(** The square of a difference does not see its sign. *)
Lemma binary_round_opp m e :
  binary_round prec emax true m e = SFopp (binary_round prec emax false m e).
Proof.
  unfold binary_round, binary_round_aux.
  destruct (shl_align m e _) as [mz ez].
  destruct (shr_fexp prec emax (Z.pos mz) ez loc_Exact) as [mrs e'].
  destruct (shr_fexp prec emax _ e' loc_Exact) as [mrs' e''].
  destruct (shr_m mrs'); try reflexivity.
  by destruct (e'' <=? emax - prec).
Qed.

Lemma dmul_opp_opp (x : double) : (SFopp x * SFopp x)%D = (x * x)%D.
Proof. unfold dmul. destruct x as [[]|[]| |[] m e]; reflexivity. Qed.

Lemma square_opp (z : Z) :
  (double_of_int (- z) * double_of_int (- z))%D = (double_of_int z * double_of_int z)%D.
Proof.
  unfold double_of_int, binary_normalize. destruct z as [|p|p]; simpl.
  - done.
  - by rewrite binary_round_opp, dmul_opp_opp.
  - by rewrite binary_round_opp, dmul_opp_opp.
Qed.

Lemma sum_sq_diff_sym (p q : list Z) : sum_sq_diff p q = sum_sq_diff q p.
Proof.
  unfold sum_sq_diff. generalize dzero.
  revert q. induction p as [|a p IH]; intros [|b q] acc; simpl; try done.
  rewrite <- IH. do 2 f_equal.
  replace (b - a) with (- (a - b)) by lia. by rewrite square_opp.
Qed.

(** A monadic loop that writes one value per iteration, with an
    invariant on the rest of its state. *)
Lemma forM_output_loop {S A : Type} (Inv : S -> Prop) (val : Z -> A)
    (body : Z -> S * list A -> M (S * list A)) (K : nat) :
  (forall it s out t, 0 <= it < Z.of_nat K -> Inv s -> length out = K ->
     exists s' t', body it (s, out) t = (Returned (s', vset out it (val it)), t') /\ Inv s') ->
  forall (n i : nat) s out t, (i + n = K)%nat -> Inv s -> length out = K ->
  exists s' t',
    forM_iter n (Z.of_nat i) body (s, out) t
    = (Returned (s', take i out ++ map val (seqZ (Z.of_nat i) (Z.of_nat n))), t') /\
    Inv s'.
Proof.
  intros Hbody n. induction n as [|n IH]; intros i s out t Hin Hs Hout; simpl.
  - exists s, t. split; [|done]. unfold ret.
    change (seqZ (Z.of_nat i) 0) with (@nil Z). simpl.
    rewrite app_nil_r. assert (length out <= i)%nat as Hle by lia. by rewrite take_ge.
  - destruct (Hbody (Z.of_nat i) s out t) as (s1 & t1 & E1 & Hs1); [lia|done|done|].
    rewrite (bind_returned _ _ _ _ _ E1).
    replace (Z.of_nat i + 1) with (Z.of_nat (Datatypes.S i)) by lia.
    destruct (IH (Datatypes.S i) s1 (vset out (Z.of_nat i) (val (Z.of_nat i))) t1)
      as (s2 & t2 & E2 & Hs2); [lia|done|unfold vset; by rewrite length_insert|].
    exists s2, t2. split; [|done]. rewrite E2. do 3 f_equal.
    unfold vset. rewrite Nat2Z.id.
    rewrite (take_S_r _ _ (val (Z.of_nat i))) by (apply list_lookup_insert_eq; lia).
    rewrite take_insert_ge by lia. rewrite <- app_assoc. f_equal.
    replace (Z.of_nat (Datatypes.S n)) with (Z.succ (Z.of_nat n)) by lia.
    rewrite (seqZ_cons (Z.of_nat i)) by lia. simpl. do 3 f_equal; lia.
Qed.

(** The ranks of a vector without NaN are a permutation of its positions. *)
Lemma ranks_perm (v : list double) :
  no_nan (indexed v) -> Permutation (ranks v) (seqZ 0 (Z.of_nat (length v))).
Proof.
  intros Hnan.
  destruct (insertion_sort_contract (indexed v) Hnan) as [Hperm Hsorted].
  set (current := Instance.insertion_sort (indexed v)) in *.
  assert (length current = length v) as Hlen.
  { by rewrite (Permutation_length Hperm), indexed_length. }
  assert (Permutation (current.*2) (seqZ 0 (Z.of_nat (length current)))) as Hidx.
  { by rewrite Hlen, Hperm, indexed_snd. }
  destruct (rank_loop current (replicate (length current) 0) (length current) Hidx)
    as [Hrl Hrank]; [by rewrite length_replicate|done|].
  set (rank := for_iter (length current) 0 _ _) in *.
  assert (forall (row : nat) p, current !! row = Some p ->
            rank !! Z.to_nat p.2 = Some (Z.of_nat row)) as Hrank'.
  { intros row p Hp. apply Hrank; [|done]. by apply lookup_lt_Some in Hp. }
  assert (rank = ranks v) as <-.
  { apply (rank_is_sorted_position v current); [done|done|lia|done]. }
  rewrite <- Hlen. by apply rank_loop_perm.
Qed.

(** ** The design-adjusted sampler *)
Section Design.

Variable generator : Type.
Variable mt19937 : Z -> generator.
Variable normal_distribution : Type.
Variable normal_init : normal_distribution.
Variable rnorm :
  normal_distribution -> generator -> double * normal_distribution * generator.
Variable sort : list (double * Z) -> list (double * Z).
Variable multQ : run_dormqr.

Local Abbreviation Nobs := (get_nobs multQ).
Local Abbreviation Ncoef := (get_ncoefs multQ).
Local Abbreviation mode_body :=
  (simulate_mode generator normal_distribution rnorm sort multQ).
Local Abbreviation iteration_body :=
  (design_iteration generator mt19937 normal_distribution normal_init rnorm sort multQ).
Local Abbreviation null_rho_design :=
  (get_null_rho_design generator mt19937 normal_distribution normal_init rnorm sort multQ).

(** [std::sort] keeps its promise. *)
Hypothesis sort_ok : sort_contract sort.
(** The factorization has no more coefficients than observations, and
    [run()] works in place on the [Nobs] entries of the working vector. *)
Hypothesis coef_range : 0 <= Ncoef <= Nobs.
Hypothesis run_length : forall v, length (run multQ v) = length v.

(** The loop [for (int col=Ncoef; col<Nobs; ++col)] draws the deviates
    in order and leaves the other entries alone. *)
Lemma draw_loop (n k : nat) (col0 : Z) (rhs : list double) d g t xs d' g' :
  col0 = Z.of_nat k ->
  (k + n <= length rhs)%nat ->
  draw_normals rnorm n d g = (xs, d', g') ->
  exists t',
    forM_iter n col0
      (fun col '(rhs, d, g) =>
         '(x, d, g) ← cpp_rnorm generator normal_distribution rnorm d g;
         ret (vset rhs col x, d, g))
      (rhs, d, g) t
    = (Returned (take k rhs ++ xs ++ drop (k + n) rhs, d', g'), t').
Proof.
  revert k col0 rhs d g t xs d' g'.
  induction n as [|n IH]; intros k col0 rhs d g t xs d' g' -> Hk Hdraw; simpl in *.
  - injection Hdraw as <- <- <-. exists t. unfold ret. simpl.
    by rewrite Nat.add_0_r, take_drop.
  - destruct (rnorm d g) as [[x d1] g1] eqn:E1.
    destruct (draw_normals rnorm n d1 g1) as [[xs1 d2] g2] eqn:E2.
    injection Hdraw as <- <- <-.
    destruct (IH (Datatypes.S k) (Z.of_nat k + 1) (vset rhs (Z.of_nat k) x) d1 g1
                (t ++ [EvNormal]) xs1 d2 g2) as (t' & E);
      [lia|unfold vset; rewrite length_insert; lia|done|].
    exists t'.
    erewrite bind_returned; [|unfold cpp_rnorm; munfold; rewrite E1; reflexivity].
    rewrite E. do 3 f_equal. unfold vset. rewrite Nat2Z.id.
    rewrite (take_S_r _ _ x) by (apply list_lookup_insert_eq; lia).
    rewrite take_insert_ge by lia.
    assert (k < Datatypes.S k + n)%nat as Hlt by lia.
    rewrite (drop_insert_lt rhs (Datatypes.S k + n) k x Hlt).
    rewrite <- app_assoc. simpl.
    by replace (k + Datatypes.S n)%nat with (Datatypes.S (k + n)) by lia.
Qed.

Lemma residuals_length d g v d' g' :
  residuals rnorm multQ d g = (v, d', g') -> length v = Z.to_nat Nobs.
Proof.
  unfold residuals.
  destruct (draw_normals rnorm _ d g) as [[xs d1] g1] eqn:E. intros [= <- <- <-].
  rewrite run_length, length_app, length_replicate.
  assert (forall n d g xs d' g', draw_normals rnorm n d g = (xs, d', g') -> length xs = n) as Hlen.
  { clear. induction n as [|n IH]; intros d g xs d' g'; simpl.
    - by intros [= <- _ _].
    - destruct (rnorm d g) as [[x d1] g1].
      destruct (draw_normals rnorm n d1 g1) as [[xs1 d2] g2] eqn:E.
      intros [= <- _ _]. simpl. f_equal. eauto. }
  rewrite (Hlen _ _ _ _ _ _ E). lia.
Qed.

(** One mode of one iteration. *)
Lemma simulate_mode_spec (mode : Z) w d g t v d' g' :
  workspace_sized (Z.to_nat Nobs) w ->
  residuals rnorm multQ d g = (v, d', g') -> no_nan (indexed v) ->
  exists w' t',
    mode_body mode (w, d, g) t = (Returned (w', d', g'), t') /\
    workspace_sized (Z.to_nat Nobs) w' /\
    (if mode =? 0 then rank2 w' = ranks v /\ rank1 w' = rank1 w
     else rank1 w' = ranks v /\ rank2 w' = rank2 w).
Proof.
  intros (Hrhs & Hc1 & Hc2 & Hr1 & Hr2) Hres Hnan.
  pose proof (residuals_length _ _ _ _ _ Hres) as Hv.
  unfold residuals in Hres.
  destruct (draw_normals rnorm _ d g) as [[xs d1] g1] eqn:Edraw.
  injection Hres as Hres <- <-.
  assert (std_fill (rhs w) 0 Ncoef dzero
          = replicate (Z.to_nat Ncoef) dzero ++ drop (Z.to_nat Ncoef) (rhs w)) as Efill.
  { rewrite <- std_fill_prefix by lia. f_equal. lia. }
  destruct (draw_loop (Z.to_nat (Nobs - Ncoef)) (Z.to_nat Ncoef) Ncoef
              (replicate (Z.to_nat Ncoef) dzero ++ drop (Z.to_nat Ncoef) (rhs w))
              d g t xs d1 g1) as (t1 & E1); [lia| |done|].
  { rewrite length_app, length_replicate, length_drop. lia. }
  rewrite take_app_length' in E1 by (by rewrite length_replicate).
  rewrite (drop_ge _ (_ + _)) in E1
    by (rewrite length_app, length_replicate, length_drop; lia).
  rewrite app_nil_r in E1.
  assert (forall current0, length current0 = length v ->
            for_range 0 Nobs (fun row current =>
              vset current row (vget dzero v row, row)) current0 = indexed v) as Ecol.
  { intros current0 Hcur. replace Nobs with (Z.of_nat (length v)) by lia.
    by apply collect_loop. }
  destruct (sort_ok (indexed v) Hnan) as [Hperm Hsorted].
  set (current := sort (indexed v)) in *.
  assert (length current = length v) as Hlen.
  { by rewrite (Permutation_length Hperm), indexed_length. }
  assert (Permutation (current.*2) (seqZ 0 (Z.of_nat (length current)))) as Hidx.
  { by rewrite Hlen, Hperm, indexed_snd. }
  assert (forall rank0, length rank0 = length v ->
            for_range 0 Nobs (fun row rank =>
              vset rank (vget (dzero, 0) current row).2 row) rank0 = ranks v) as Erank.
  { intros rank0 Hrank0. unfold for_range.
    replace (Z.to_nat (Nobs - 0)) with (length current) by lia.
    destruct (rank_loop current rank0 (length current) Hidx) as [Hrl Hrank]; [lia|done|].
    apply (rank_is_sorted_position v current); [done|done|lia|].
    intros row p Hp. apply Hrank; [|done]. by apply lookup_lt_Some in Hp. }
  pose proof (ranks_perm v Hnan) as Hrp. apply Permutation_length in Hrp.
  rewrite length_seqZ in Hrp.
  unfold simulate_mode. cbv zeta. rewrite Efill. unfold forM_range.
  rewrite (bind_returned _ _ _ _ _ E1). unfold multQ_run, std_sort. munfold.
  rewrite Hres.
  eexists _, _. split; [reflexivity|].
  destruct (mode =? 0); simpl; unfold workspace_sized; simpl;
    rewrite ?Ecol, ?Erank by lia; fold current;
    repeat split; try done; try lia.
Qed.

Lemma vget_vset (out : list double) (it : Z) (x : double) :
  0 <= it < Z.of_nat (length out) -> vget dzero (vset out it x) it = x.
Proof.
  intros Hit. unfold vget, vset.
  by rewrite nth_lookup, list_lookup_insert_eq by lia.
Qed.

Lemma vset_vset (out : list double) (it : Z) (x y : double) :
  vset (vset out it x) it y = vset out it y.
Proof. unfold vset. apply list_insert_insert_eq. Qed.

Lemma ranks_range (v : list double) :
  no_nan (indexed v) ->
  Forall (fun x => 0 <= x < Z.of_nat (length v)) (ranks v).
Proof.
  intros Hnan. apply Forall_forall. intros x Hx.
  rewrite (ranks_perm v Hnan) in Hx. apply elem_of_seqZ in Hx. lia.
Qed.

Lemma ranks_length (v : list double) : length (ranks v) = length v.
Proof. unfold ranks. rewrite length_map, length_seqZ. lia. Qed.

(** One iteration: both modes, then the score. *)
Lemma design_iteration_spec mult Seeds (it : Z) w out t v0 v1 :
  workspace_sized (Z.to_nat Nobs) w -> is_int Nobs ->
  0 <= it < Z.of_nat (length out) ->
  realizations mt19937 normal_init rnorm multQ (vget 0 Seeds it) = (v0, v1) ->
  no_nan (indexed v0) -> no_nan (indexed v1) ->
  exists w' t',
    iteration_body mult Seeds it (w, out) t
    = (Returned (w', vset out it (done_ - sum_sq_diff (ranks v0) (ranks v1) * mult)%D), t') /\
    workspace_sized (Z.to_nat Nobs) w' /\
    rank2 w' = ranks v0 /\ rank1 w' = ranks v1.
Proof.
  intros Hw Hint Hit Hreal Hnan0 Hnan1. unfold realizations in Hreal.
  destruct (residuals rnorm multQ normal_init (mt19937 (vget 0 Seeds it)))
    as [[v0' d1] g1] eqn:E0.
  destruct (residuals rnorm multQ d1 g1) as [[v1' d2] g2] eqn:E1.
  injection Hreal as -> ->.
  pose proof (residuals_length _ _ _ _ _ E0) as Hv0.
  pose proof (residuals_length _ _ _ _ _ E1) as Hv1.
  destruct (simulate_mode_spec 0 w normal_init (mt19937 (vget 0 Seeds it))
              (t ++ [EvSeed (vget 0 Seeds it)]) v0 d1 g1 Hw E0 Hnan0)
    as (w1 & t1 & Em0 & Hw1 & Hr2 & _).
  destruct (simulate_mode_spec 1 w1 d1 g1 t1 v1 d2 g2 Hw1 E1 Hnan1)
    as (w2 & t2 & Em1 & Hw2 & Hr1 & Hr2').
  simpl in Hr2, Hr1, Hr2'. rewrite Hr2 in Hr2'.
  exists w2, t2. split; [|done].
  unfold design_iteration, new_generator, forM_range. cbv zeta.
  change (Z.to_nat (2 - 0)) with 2%nat. simpl forM_iter.
  erewrite bind_returned; [|munfold; reflexivity].
  erewrite bind_returned;
    [|erewrite bind_returned; [|exact Em0];
      erewrite bind_returned; [|exact Em1]; reflexivity].
  unfold ret. do 3 f_equal.
  set (h := fun (row : Z) (tmp : double) =>
         (tmp + double_of_int (int_sub (vget 0 (rank1 w2) row) (vget 0 (rank2 w2) row)) *
                double_of_int (int_sub (vget 0 (rank1 w2) row) (vget 0 (rank2 w2) row)))%D).
  assert (for_iter (Z.to_nat (Nobs - 0)) 0 h dzero = sum_sq_diff (ranks v0) (ranks v1))
    as Esum.
  { rewrite sum_sq_diff_sym, <- Hr1, <- Hr2'.
    apply (sum_loop (rank1 w2) (rank2 w2) Nobs).
    - rewrite Hr1, ranks_length. lia.
    - rewrite Hr2', ranks_length. lia.
    - done.
    - rewrite Hr1. replace Nobs with (Z.of_nat (length v1)) by lia. by apply ranks_range.
    - rewrite Hr2'. replace Nobs with (Z.of_nat (length v0)) by lia. by apply ranks_range. }
  unfold for_range.
  rewrite (slot_loop h) by (unfold vset; rewrite length_insert; lia).
  rewrite !vget_vset by (unfold vset; rewrite ?length_insert; lia).
  rewrite !vset_vset. by rewrite Esum.
Qed.

(** C9: after an iteration, each of the two rank vectors is a
    permutation of [0..Nobs-1]; nothing is asked of the values of the
    residual vectors but that none is NaN, so they may be tied. *)
Theorem rank_vectors_are_permutations mult Seeds (it : Z) w out t :
  workspace_sized (Z.to_nat Nobs) w -> is_int Nobs ->
  0 <= it < Z.of_nat (length out) ->
  realizations_no_nan mt19937 normal_init rnorm multQ (vget 0 Seeds it) ->
  exists w' out' t',
    iteration_body mult Seeds it (w, out) t = (Returned (w', out'), t') /\
    Permutation (rank1 w') (seqZ 0 Nobs) /\
    Permutation (rank2 w') (seqZ 0 Nobs).
Proof.
  intros Hw Hint Hit [Hnan0 Hnan1].
  destruct (realizations mt19937 normal_init rnorm multQ (vget 0 Seeds it))
    as [v0 v1] eqn:Hreal. simpl in Hnan0, Hnan1.
  destruct (design_iteration_spec mult Seeds it w out t v0 v1)
    as (w' & t' & E & _ & Hr2 & Hr1); try done.
  assert (length v0 = Z.to_nat Nobs /\ length v1 = Z.to_nat Nobs) as [Hv0 Hv1].
  { unfold realizations in Hreal.
    destruct (residuals rnorm multQ normal_init _) as [[a d1] g1] eqn:E0.
    destruct (residuals rnorm multQ d1 g1) as [[b d2] g2] eqn:E1.
    injection Hreal as <- <-.
    split; eapply residuals_length; eauto. }
  eexists w', _, t'. split; [exact E|].
  rewrite Hr1, Hr2. split.
  - replace Nobs with (Z.of_nat (length v1)) by lia. by apply ranks_perm.
  - replace Nobs with (Z.of_nat (length v0)) by lia. by apply ranks_perm.
Qed.

End Design.

Lemma rank_vectors_are_permutations_witness :
  exists w' out' t',
    design_iteration Instance.generator Instance.seed_generator
      Instance.normal_distribution tt Instance.rnorm Instance.insertion_sort
      (Instance.identityQ 3 3) dzero [5]
      0 ({| rhs := replicate 3 dzero; collected1 := replicate 3 (dzero, 0);
            collected2 := replicate 3 (dzero, 0);
            rank1 := replicate 3 0; rank2 := replicate 3 0 |}, [dzero]) []
    = (Returned (w', out'), t') /\
    Permutation (rank1 w') (seqZ 0 3) /\ Permutation (rank2 w') (seqZ 0 3).
Proof.
  apply (rank_vectors_are_permutations Instance.generator Instance.seed_generator
           Instance.normal_distribution tt Instance.rnorm Instance.insertion_sort
           (Instance.identityQ 3 3) insertion_sort_contract).
  - simpl. lia.
  - intros v. reflexivity.
  - repeat split.
  - unfold is_int, INT_MIN, INT_MAX. simpl. lia.
  - simpl. lia.
  - repeat constructor.
Defined.

(** Tied values are ranked by their index. *)
Example ranks_with_ties :
  ranks [dzero; done_; dzero; double_of_int (-1)] = [1; 3; 2; 0].
Proof. reflexivity. Qed.

Example design_iteration_all_tied :
  (Instance.null_rho_design (Instance.identityQ 3 3) 1 [5] []).1
  = Returned [done_].
Proof. vm_compute. reflexivity. Qed.

(** ** Rounding to nearest even *)

(** The mantissa [m] shifted right by [n] bits and rounded to nearest,
    ties to even. *)
Definition rne (m n : Z) : Z :=
  if n <=? 0 then m
  else
    let q := m / 2 ^ n in
    let rem := m mod 2 ^ n in
    let h := 2 ^ (n - 1) in
    if rem <? h then q
    else if h <? rem then q + 1
    else if Z.even q then q else q + 1.

Lemma iter_pos_nat {A : Type} (f : A -> A) (p : positive) (x : A) :
  SpecFloat.iter_pos f p x = Nat.iter (Pos.to_nat p) f x.
Proof.
  revert x. induction p as [p IH|p IH|]; intros x; cbn [SpecFloat.iter_pos].
  - rewrite !IH, Pos2Nat.inj_xI.
    replace (Datatypes.S (2 * Pos.to_nat p)) with (Pos.to_nat p + (Pos.to_nat p + 1))%nat by lia.
    rewrite !Nat.iter_add. reflexivity.
  - rewrite !IH, Pos2Nat.inj_xO.
    replace (2 * Pos.to_nat p)%nat with (Pos.to_nat p + Pos.to_nat p)%nat by lia.
    rewrite Nat.iter_add. reflexivity.
  - reflexivity.
Qed.

Lemma shr_1_spec (m : Z) (r s : bool) :
  0 <= m ->
  shr_1 (Build_shr_record m r s) = Build_shr_record (m / 2) (Z.odd m) (r || s).
Proof.
  intros Hm. rewrite <- Z.div2_div.
  destruct m as [|[p|p|]|p]; try reflexivity. lia.
Qed.

Lemma mod_pow2_split (m k : Z) :
  0 <= m -> 0 <= k ->
  m mod 2 ^ (k + 1) = m mod 2 ^ k + 2 ^ k * (if Z.odd (m / 2 ^ k) then 1 else 0).
Proof.
  intros Hm Hk. rewrite Z.pow_add_r, Z.pow_1_r by lia.
  assert (0 < 2 ^ k) by (apply Z.pow_pos_nonneg; lia).
  rewrite Z.rem_mul_r by lia. by rewrite Zmod_odd.
Qed.

Lemma shr_iter (m : Z) (k : nat) :
  0 <= m ->
  Nat.iter (Datatypes.S k) shr_1 (Build_shr_record m false false)
  = Build_shr_record (m / 2 ^ Z.of_nat (Datatypes.S k))
      (Z.odd (m / 2 ^ Z.of_nat k))
      (negb (m mod 2 ^ Z.of_nat k =? 0)).
Proof.
  intros Hm. induction k as [|k IH].
  - rewrite Nat.iter_succ. unfold Nat.iter; cbn [nat_rect].
    rewrite shr_1_spec by done.
    change (Z.of_nat 1) with 1. change (Z.of_nat 0) with 0.
    by rewrite Z.pow_1_r, Z.pow_0_r, Z.div_1_r, Z.mod_1_r.
  - assert (0 < 2 ^ Z.of_nat k) as Hpos by (apply Z.pow_pos_nonneg; lia).
    assert (0 < 2 ^ Z.of_nat (Datatypes.S k)) as Hpos' by (apply Z.pow_pos_nonneg; lia).
    rewrite Nat.iter_succ, IH. rewrite shr_1_spec by (apply Z.div_pos; lia).
    f_equal.
    + rewrite Z.div_div by lia. f_equal.
      rewrite (Nat2Z.inj_succ (Datatypes.S k)), Z.pow_succ_r by lia. lia.
    + rewrite (Nat2Z.inj_succ k). unfold Z.succ.
      rewrite (mod_pow2_split m (Z.of_nat k)) by lia.
      pose proof (Z.mod_pos_bound m (2 ^ Z.of_nat k) Hpos).
      destruct (Z.odd (m / 2 ^ Z.of_nat k)); simpl.
      * symmetry. apply negb_true_iff, Z.eqb_neq. lia.
      * by rewrite Z.mul_0_r, Z.add_0_r.
Qed.

(** Shifting and rounding in [binary_round_aux], for an exact mantissa. *)
Lemma shr_round (m e n : Z) :
  0 <= m ->
  let '(mrs, e') := shr (Build_shr_record m false false) e n in
  round_nearest_even (shr_m mrs) (loc_of_shr_record mrs) = rne m n /\
  e' = (if 0 <? n then e + n else e).
Proof.
  intros Hm. unfold rne, shr. destruct n as [|p|p]; simpl; try done.
  rewrite iter_pos_nat.
  destruct (Pos2Nat.is_succ p) as [k Hk]. rewrite Hk.
  rewrite shr_iter by done. simpl shr_m.
  assert (Z.pos p = Z.of_nat k + 1) as Hp by lia.
  replace (Z.of_nat (Datatypes.S k)) with (Z.pos p) by lia.
  replace (Z.pos p - 1) with (Z.of_nat k) by lia.
  split; [|done].
  assert (m mod 2 ^ Z.pos p
          = m mod 2 ^ Z.of_nat k
            + 2 ^ Z.of_nat k * (if Z.odd (m / 2 ^ Z.of_nat k) then 1 else 0)) as Hrem.
  { rewrite Hp. apply mod_pow2_split; lia. }
  rewrite Hrem. clear Hrem.
  assert (0 < 2 ^ Z.of_nat k) as Hpos by (apply Z.pow_pos_nonneg; lia).
  pose proof (Z.mod_pos_bound m (2 ^ Z.of_nat k) Hpos) as Hb.
  destruct (Z.odd (m / 2 ^ Z.of_nat k)).
  - destruct (Z.eqb_spec (m mod 2 ^ Z.of_nat k) 0) as [E|E]; simpl.
    + rewrite E. replace (0 + 2 ^ Z.of_nat k * 1) with (2 ^ Z.of_nat k) by lia.
      by rewrite Z.ltb_irrefl.
    + destruct (Z.ltb_spec (m mod 2 ^ Z.of_nat k + 2 ^ Z.of_nat k * 1) (2 ^ Z.of_nat k));
        [lia|].
      destruct (Z.ltb_spec (2 ^ Z.of_nat k) (m mod 2 ^ Z.of_nat k + 2 ^ Z.of_nat k * 1));
        [done|lia].
  - rewrite Z.mul_0_r, Z.add_0_r.
    destruct (Z.ltb_spec (m mod 2 ^ Z.of_nat k) (2 ^ Z.of_nat k)); [|lia].
    by destruct (Z.eqb_spec (m mod 2 ^ Z.of_nat k) 0).
Qed.

Lemma pow2_pos (k : Z) : 0 <= k -> 0 < 2 ^ k.
Proof. intros. apply Z.pow_pos_nonneg; lia. Qed.


Lemma rne_exact (m n k : Z) : 0 <= n -> m = k * 2 ^ n -> rne m n = k.
Proof.
  intros Hn ->. unfold rne. destruct (Z.leb_spec n 0).
  - replace n with 0 by lia. simpl. lia.
  - pose proof (pow2_pos n Hn). pose proof (pow2_pos (n - 1) ltac:(lia)).
    cbv zeta. rewrite Z.mod_mul, Z.div_mul by lia.
    destruct (Z.ltb_spec 0 (2 ^ (n - 1))); [done|lia].
Qed.


Lemma digits2_pos_bounds (m : positive) :
  2 ^ (Z.pos (digits2_pos m) - 1) <= Z.pos m < 2 ^ Z.pos (digits2_pos m).
Proof.
  induction m as [m IH|m IH|]; cbn [digits2_pos].
  - rewrite Pos2Z.inj_succ, Pos2Z.inj_xI.
    replace (Z.succ (Z.pos (digits2_pos m)) - 1) with (Z.succ (Z.pos (digits2_pos m) - 1)) by lia.
    rewrite !Z.pow_succ_r by lia. lia.
  - rewrite Pos2Z.inj_succ. change (Z.pos m~0) with (2 * Z.pos m).
    replace (Z.succ (Z.pos (digits2_pos m)) - 1) with (Z.succ (Z.pos (digits2_pos m) - 1)) by lia.
    rewrite !Z.pow_succ_r by lia. lia.
  - simpl. lia.
Qed.

Lemma digits2_pos_unique (m : positive) (k : Z) :
  2 ^ (k - 1) <= Z.pos m < 2 ^ k -> Z.pos (digits2_pos m) = k.
Proof.
  intros [Hlo Hhi]. pose proof (digits2_pos_bounds m) as [Hlo' Hhi'].
  assert (0 < k).
  { destruct (Z.le_gt_cases k 0) as [Hk|]; [|done].
    destruct (decide (k = 0)) as [->|]; [simpl in Hhi; lia|].
    rewrite Z.pow_neg_r in Hhi by lia. lia. }
  apply Z.le_antisymm.
  - apply Z.lt_succ_r. unfold Z.succ.
    apply (Z.pow_lt_mono_r_iff 2); [lia|lia|].
    replace (k + 1 - 1) with k by lia.
    replace (Z.pos (digits2_pos m)) with (Z.pos (digits2_pos m) - 1 + 1) by lia.
    rewrite Z.pow_add_r by lia. rewrite (Z.pow_add_r 2 k 1) by lia. lia.
  - apply Z.lt_succ_r. unfold Z.succ.
    apply (Z.pow_lt_mono_r_iff 2); [lia|lia|].
    replace k with (k - 1 + 1) at 1 by lia.
    rewrite Z.pow_add_r by lia. rewrite (Z.pow_add_r 2 _ 1) by lia. lia.
Qed.

(** ** [binary_round_aux] on an exact mantissa *)

Lemma fexp_eq (x : Z) : fexp prec emax x = Z.max (x - 53) (-1074).
Proof. reflexivity. Qed.

Lemma shr_nonpos (mrs : shr_record) (e n : Z) : n <= 0 -> shr mrs e n = (mrs, e).
Proof. intros Hn. unfold shr. destruct n; try done; lia. Qed.

(** The three ways [binary_round_aux] can end when nothing overflows:
    the rounded mantissa vanishes, fits, or carries into one more bit. *)
Lemma round_aux_cases (s : bool) (m : positive) (e : Z) :
  let d := Z.pos (digits2_pos m) in
  let e1 := Z.max (d + e - 53) (-1074) in
  let r := rne (Z.pos m) (e1 - e) in
  e <= e1 -> e1 + 1 <= 971 ->
  0 <= r <= 2 ^ 53 /\
  binary_round_aux prec emax s (Z.pos m) e loc_Exact =
    if r =? 0 then S754_zero s
    else if r <? 2 ^ 53 then S754_finite s (Z.to_pos r) e1
    else S754_finite s (2 ^ 52)%positive (e1 + 1).
Proof.
  intros d e1 r Hal Hov.
  pose proof (digits2_pos_bounds m) as [Hdlo Hdhi]. fold d in Hdlo, Hdhi.
  assert (0 <= r <= 2 ^ 53) as Hr.
  { unfold r, rne. destruct (Z.leb_spec (e1 - e) 0) as [Hn|Hn].
    - assert (d <= 53) by lia.
      assert (2 ^ d <= 2 ^ 53) by (apply Z.pow_le_mono_r; lia). lia.
    - pose proof (pow2_pos (e1 - e) ltac:(lia)) as Hp.
      assert (2 ^ d <= 2 ^ 53 * 2 ^ (e1 - e)) as Hd.
      { rewrite <- Z.pow_add_r by lia. apply Z.pow_le_mono_r; lia. }
      assert (Z.pos m / 2 ^ (e1 - e) < 2 ^ 53) by (apply Z.div_lt_upper_bound; lia).
      assert (0 <= Z.pos m / 2 ^ (e1 - e)) by (apply Z.div_pos; lia).
      cbv zeta. repeat case_match; lia. }
  split; [done|].
  unfold binary_round_aux, shr_fexp. cbn [shr_record_of_loc Zdigits2].
  rewrite fexp_eq. fold d. fold e1.
  pose proof (shr_round (Z.pos m) e (e1 - e) ltac:(lia)) as Hsr.
  destruct (shr _ e (e1 - e)) as [mrs' e'].
  destruct Hsr as [Hround He']. rewrite Hround. fold r.
  assert (e' = e1) as -> by (destruct (Z.ltb_spec 0 (e1 - e)); lia).
  rewrite fexp_eq.
  destruct (Z.eqb_spec r 0) as [E0|E0].
  - rewrite E0. cbn [Zdigits2]. rewrite shr_nonpos by lia. reflexivity.
  - destruct (Z.ltb_spec r (2 ^ 53)) as [Hlt|Hge].
    + destruct r as [|pr|pr]; try lia. cbn [Zdigits2].
      pose proof (digits2_pos_bounds pr) as [Hrlo Hrhi].
      assert (Z.pos (digits2_pos pr) <= 53).
      { destruct (Z.le_gt_cases (Z.pos (digits2_pos pr)) 53) as [|Hgt]; [done|].
        assert (2 ^ 53 <= 2 ^ (Z.pos (digits2_pos pr) - 1))
          by (apply Z.pow_le_mono_r; lia). lia. }
      rewrite shr_nonpos by lia. cbn [shr_m].
      destruct (Z.leb_spec e1 (emax - Binary64.prec)) as [|Hbad]; [done|].
      unfold emax, Binary64.prec in Hbad. lia.
    + assert (r = 2 ^ 53) as -> by lia.
      replace (Z.max (Zdigits2 (2 ^ 53) + e1 - 53) (-1074) - e1) with 1
        by (change (Zdigits2 (2 ^ 53)) with 54; lia).
      cbn [shr SpecFloat.iter_pos shr_1 shr_m]. simpl.
      destruct (Z.leb_spec (e1 + 1) (emax - Binary64.prec)) as [|Hbad]; [done|].
      unfold emax, Binary64.prec in Hbad. lia.
Qed.



(** ** Exact operations on small integers *)

Lemma digits_le_53 (V : positive) : Z.pos V < 2 ^ 53 -> Z.pos (digits2_pos V) <= 53.
Proof.
  intros HV. pose proof (digits2_pos_bounds V) as [Hlo _].
  destruct (Z.le_gt_cases (Z.pos (digits2_pos V)) 53) as [|Hgt]; [done|].
  assert (2 ^ 53 <= 2 ^ (Z.pos (digits2_pos V) - 1)) by (apply Z.pow_le_mono_r; lia).
  lia.
Qed.

(** A mantissa that holds the integer [V] with [k] trailing zero bits is
    rounded to the canonical representation of [V]. *)
Lemma round_aux_exact (s : bool) (m V : positive) (k : Z) :
  Z.pos V < 2 ^ 53 -> 53 - Z.pos (digits2_pos V) <= k ->
  Z.pos m = Z.pos V * 2 ^ k ->
  binary_round_aux prec emax s (Z.pos m) (- k) loc_Exact =
  S754_finite s (Z.to_pos (Z.pos V * 2 ^ (53 - Z.pos (digits2_pos V))))
    (Z.pos (digits2_pos V) - 53).
Proof.
  intros HV Hk Hm.
  pose proof (digits_le_53 V HV) as HdV.
  pose proof (digits2_pos_bounds V) as [HVlo HVhi].
  set (dV := Z.pos (digits2_pos V)) in *.
  assert (0 <= k) as Hk0 by lia.
  pose proof (pow2_pos k Hk0) as Hpk.
  assert (Z.pos (digits2_pos m) = dV + k) as Hd.
  { apply digits2_pos_unique. rewrite Hm.
    replace (dV + k - 1) with (dV - 1 + k) by lia.
    rewrite !Z.pow_add_r by lia. nia. }
  assert (Z.max (Z.pos (digits2_pos m) + - k - 53) (-1074) = dV - 53) as He1 by lia.
  destruct (round_aux_cases s m (- k)) as [Hr E]; [lia|lia|].
  rewrite He1 in Hr, E. rewrite E.
  assert (rne (Z.pos m) (dV - 53 - - k) = Z.pos V * 2 ^ (53 - dV)) as Hrne.
  { apply rne_exact; [lia|]. rewrite Hm, <- Z.mul_assoc, <- Z.pow_add_r by lia.
    do 2 f_equal. lia. }
  rewrite Hrne.
  pose proof (pow2_pos (53 - dV) ltac:(lia)) as Hp2.
  assert (Z.pos V * 2 ^ (53 - dV) < 2 ^ 53) as Hlt.
  { replace 53 with (dV + (53 - dV)) at 2 by lia. rewrite Z.pow_add_r by lia. nia. }
  destruct (Z.eqb_spec (Z.pos V * 2 ^ (53 - dV)) 0); [nia|].
  destruct (Z.ltb_spec (Z.pos V * 2 ^ (53 - dV)) (2 ^ 53)); [done|lia].
Qed.

Lemma pos_iter_xO (m d : positive) : Z.pos (Pos.iter xO m d) = Z.pos m * 2 ^ Z.pos d.
Proof.
  induction d as [|d IH] using Pos.peano_ind.
  - change (Z.pos (Pos.iter xO m 1)) with (2 * Z.pos m). change (2 ^ 1) with 2. lia.
  - rewrite Pos.iter_succ, Pos2Z.inj_succ, Z.pow_succ_r by lia.
    change (Z.pos (Pos.iter xO m d)~0) with (2 * Z.pos (Pos.iter xO m d)). lia.
Qed.

Lemma shl_align_spec (m : positive) (e e' : Z) :
  e' <= e -> shl_align m e e' = (Z.to_pos (Z.pos m * 2 ^ (e - e')), e').
Proof.
  intros Hle. unfold shl_align. destruct (e' - e) as [|p|p] eqn:E; try lia.
  - replace (e - e') with 0 by lia. rewrite Z.mul_1_r. simpl. f_equal. lia.
  - replace (e - e') with (Z.pos p) by lia. by rewrite <- pos_iter_xO.
Qed.

Lemma double_of_int_pos (V : positive) :
  Z.pos V < 2 ^ 53 -> double_of_int (Z.pos V) = canon V.
Proof.
  intros HV. pose proof (digits_le_53 V HV) as HdV.
  unfold double_of_int, binary_normalize, binary_round, canon.
  rewrite fexp_eq, Z.add_0_r.
  replace (Z.max (Z.pos (digits2_pos V) - 53) (-1074)) with (Z.pos (digits2_pos V) - 53)
    by lia.
  rewrite shl_align_spec by lia.
  pose proof (pow2_pos (0 - (Z.pos (digits2_pos V) - 53)) ltac:(lia)) as Hp.
  replace (Z.pos (digits2_pos V) - 53) with (- (53 - Z.pos (digits2_pos V))) at 2 by lia.
  rewrite (round_aux_exact false _ V (53 - Z.pos (digits2_pos V))); [done|done|lia|].
  rewrite Z2Pos.id by lia. do 2 f_equal. lia.
Qed.


Lemma digits_mul_lower (a b : positive) :
  Z.pos (digits2_pos a) + Z.pos (digits2_pos b) - 1 <= Z.pos (digits2_pos (a * b)).
Proof.
  pose proof (digits2_pos_bounds a) as [Ha _].
  pose proof (digits2_pos_bounds b) as [Hb _].
  pose proof (digits2_pos_bounds (a * b)) as [_ Hab].
  set (da := Z.pos (digits2_pos a)) in *. set (db := Z.pos (digits2_pos b)) in *.
  set (dab := Z.pos (digits2_pos (a * b))) in *.
  destruct (Z.le_gt_cases (da + db - 1) dab) as [|Hgt]; [done|exfalso].
  assert (2 ^ dab <= 2 ^ (da - 1 + (db - 1))) as Hp by (apply Z.pow_le_mono_r; lia).
  rewrite Z.pow_add_r in Hp by lia.
  rewrite Pos2Z.inj_mul in Hab.
  pose proof (pow2_pos (da - 1) ltac:(lia)). pose proof (pow2_pos (db - 1) ltac:(lia)).
  nia.
Qed.

Lemma dmul_canon (a b : positive) :
  Z.pos a * Z.pos b < 2 ^ 53 -> (canon a * canon b)%D = canon (a * b).
Proof.
  intros Hab.
  assert (Z.pos a < 2 ^ 53) as Ha by nia. assert (Z.pos b < 2 ^ 53) as Hb by nia.
  pose proof (digits_le_53 a Ha) as Hda. pose proof (digits_le_53 b Hb) as Hdb.
  pose proof (digits_mul_lower a b) as Hdab.
  unfold dmul, canon. cbn [SFmul xorb].
  set (da := Z.pos (digits2_pos a)) in *. set (db := Z.pos (digits2_pos b)) in *.
  replace (da - 53 + (db - 53)) with (- (106 - da - db)) by lia.
  apply (round_aux_exact false _ (a * b) (106 - da - db)).
  - by rewrite Pos2Z.inj_mul.
  - lia.
  - rewrite Pos2Z.inj_mul. fold da db.
    rewrite !Z2Pos.id.
    + replace (106 - da - db) with ((53 - da) + (53 - db)) by lia.
      rewrite Z.pow_add_r by lia. rewrite Pos2Z.inj_mul. lia.
    + pose proof (pow2_pos (53 - db) ltac:(lia)). lia.
    + pose proof (pow2_pos (53 - da) ltac:(lia)). lia.
Qed.

Lemma digits_mono (a b : positive) :
  Z.pos a <= Z.pos b -> Z.pos (digits2_pos a) <= Z.pos (digits2_pos b).
Proof.
  intros Hle.
  pose proof (digits2_pos_bounds a) as [Ha _].
  pose proof (digits2_pos_bounds b) as [_ Hb].
  destruct (Z.le_gt_cases (Z.pos (digits2_pos a)) (Z.pos (digits2_pos b))) as [|Hgt];
    [done|exfalso].
  assert (2 ^ Z.pos (digits2_pos b) <= 2 ^ (Z.pos (digits2_pos a) - 1))
    by (apply Z.pow_le_mono_r; lia).
  lia.
Qed.

Lemma dadd_canon (a b : positive) :
  Z.pos a + Z.pos b < 2 ^ 53 -> (canon a + canon b)%D = canon (a + b).
Proof.
  intros Hab.
  assert (Z.pos a < 2 ^ 53) as Ha by lia. assert (Z.pos b < 2 ^ 53) as Hb by lia.
  pose proof (digits_le_53 a Ha) as Hda. pose proof (digits_le_53 b Hb) as Hdb.
  pose proof (digits_le_53 (a + b) ltac:(by rewrite Pos2Z.inj_add)) as Hdab.
  pose proof (digits_mono a (a + b) ltac:(lia)) as Hma.
  pose proof (digits_mono b (a + b) ltac:(lia)) as Hmb.
  unfold dadd, canon. cbn [SFadd cond_Zopp].
  set (da := Z.pos (digits2_pos a)) in *. set (db := Z.pos (digits2_pos b)) in *.
  set (dab := Z.pos (digits2_pos (a + b))) in *.
  set (ez := Z.min (da - 53) (db - 53)).
  rewrite !shl_align_spec by lia. cbn [fst].
  pose proof (pow2_pos (53 - da) ltac:(lia)) as Hpa.
  pose proof (pow2_pos (53 - db) ltac:(lia)) as Hpb.
  pose proof (pow2_pos (da - 53 - ez) ltac:(lia)) as Hpa'.
  pose proof (pow2_pos (db - 53 - ez) ltac:(lia)) as Hpb'.
  pose proof (pow2_pos (- ez) ltac:(lia)) as Hpz.
  rewrite !Z2Pos.id by nia.
  assert (Z.pos a * 2 ^ (53 - da) * 2 ^ (da - 53 - ez)
          + Z.pos b * 2 ^ (53 - db) * 2 ^ (db - 53 - ez)
          = Z.pos (a + b) * 2 ^ (- ez)) as Hsum.
  { rewrite <- !Z.mul_assoc, <- !Z.pow_add_r by lia.
    replace (53 - da + (da - 53 - ez)) with (- ez) by lia.
    replace (53 - db + (db - 53 - ez)) with (- ez) by lia.
    rewrite Pos2Z.inj_add. lia. }
  rewrite Hsum.
  destruct (Z.pos (a + b) * 2 ^ (- ez)) as [|M|M] eqn:EM; try lia.
  unfold binary_normalize, binary_round.
  assert (Z.pos (digits2_pos M) = dab + - ez) as HdM.
  { apply digits2_pos_unique. rewrite <- EM.
    pose proof (digits2_pos_bounds (a + b)) as [Hlo Hhi]. fold dab in Hlo, Hhi.
    replace (dab + - ez - 1) with (dab - 1 + - ez) by lia.
    rewrite !Z.pow_add_r by lia. nia. }
  rewrite fexp_eq, HdM.
  unfold shl_align.
  destruct (Z.max (dab + - ez + ez - 53) (-1074) - ez) as [|d|d] eqn:Ed; try lia.
  - replace ez with (- - ez) at 1 by lia.
    apply (round_aux_exact false M (a + b) (- ez)); [by rewrite Pos2Z.inj_add|lia|lia].
  - replace ez with (- - ez) at 1 by lia.
    apply (round_aux_exact false M (a + b) (- ez)); [by rewrite Pos2Z.inj_add|lia|lia].
Qed.

Lemma double_of_int_mul (a b : Z) :
  0 <= a < 2 ^ 53 -> 0 <= b < 2 ^ 53 -> a * b < 2 ^ 53 ->
  (double_of_int a * double_of_int b)%D = double_of_int (a * b).
Proof.
  intros Ha Hb Hab. destruct a as [|a|a], b as [|b|b]; try lia.
  - reflexivity.
  - by rewrite (double_of_int_pos b) by lia.
  - by rewrite (double_of_int_pos a), Z.mul_0_r by lia.
  - rewrite (double_of_int_pos a), (double_of_int_pos b) by lia.
    change (Z.pos a * Z.pos b) with (Z.pos (a * b)).
    rewrite (double_of_int_pos (a * b)) by (rewrite Pos2Z.inj_mul; lia).
    by apply dmul_canon.
Qed.

Lemma double_of_int_square (d : Z) :
  d * d < 2 ^ 53 -> (double_of_int d * double_of_int d)%D = double_of_int (d * d).
Proof.
  intros Hd. assert (2 ^ 53 = 9007199254740992) as E by reflexivity.
  destruct (Z.le_gt_cases 0 d).
  - apply double_of_int_mul; nia.
  - rewrite <- (square_opp d).
    replace (d * d) with (- d * - d) by lia.
    apply double_of_int_mul; nia.
Qed.

Lemma double_of_int_add (a b : Z) :
  0 <= a -> 0 <= b -> a + b < 2 ^ 53 ->
  (double_of_int a + double_of_int b)%D = double_of_int (a + b).
Proof.
  intros Ha Hb Hab. destruct a as [|a|a], b as [|b|b]; try lia.
  - reflexivity.
  - change (0 + Z.pos b) with (Z.pos b). by rewrite (double_of_int_pos b) by lia.
  - rewrite Z.add_0_r. by rewrite (double_of_int_pos a) by lia.
  - rewrite (double_of_int_pos a), (double_of_int_pos b) by lia.
  change (Z.pos a + Z.pos b) with (Z.pos (a + b)).
  rewrite (double_of_int_pos (a + b)) by (rewrite Pos2Z.inj_add; lia).
  by apply dadd_canon.
Qed.

Lemma sum_sq_nonneg (p q : list Z) : 0 <= sum_sq p q.
Proof.
  unfold sum_sq. induction (zip p q) as [|[a b] l IH]; cbn [foldr]; [done|].
  pose proof (Z.square_nonneg (a - b)). lia.
Qed.

(** Below [2^53] the accumulation in doubles is the integer sum. *)
Lemma sum_sq_diff_exact (p q : list Z) :
  sum_sq p q < 2 ^ 53 -> sum_sq_diff p q = double_of_int (sum_sq p q).
Proof.
  unfold sum_sq_diff, sum_sq.
  assert (forall l A, 0 <= A ->
            A + foldr (fun '(a, b) acc => (a - b) * (a - b) + acc) 0 l < 2 ^ 53 ->
            fold_left (fun acc '(a, b) =>
                         let d := double_of_int (a - b) in (acc + d * d)%D)
                      l (double_of_int A)
            = double_of_int
                (A + foldr (fun '(a, b) acc => (a - b) * (a - b) + acc) 0 l)) as Hgen.
  { induction l as [|[a b] l IH]; intros A HA Hlt; cbn [foldr fold_left] in *.
    - by rewrite Z.add_0_r.
    - assert (0 <= foldr (fun '(a, b) acc => (a - b) * (a - b) + acc) 0 l) as Hnn.
      { clear. induction l as [|[a' b'] l IH]; cbn [foldr]; [done|].
        pose proof (Z.square_nonneg (a' - b')). lia. }
      pose proof (Z.square_nonneg (a - b)) as Hsq.
      rewrite double_of_int_square by lia.
      rewrite double_of_int_add by lia.
      rewrite IH by lia. f_equal. lia. }
  intros Hlt. apply (Hgen _ 0); [done|lia].
Qed.

(** ** The largest sum of squared rank differences *)

Lemma zsum_app (l1 l2 : list Z) : zsum (l1 ++ l2) = zsum l1 + zsum l2.
Proof. unfold zsum. induction l1 as [|x l1 IH]; simpl; lia. Qed.

Lemma zsum_perm (l1 l2 : list Z) : Permutation l1 l2 -> zsum l1 = zsum l2.
Proof. unfold zsum. induction 1; simpl; lia. Qed.

Lemma zsum_seqZ (n : nat) : 2 * zsum (seqZ 0 (Z.of_nat n)) = Z.of_nat n * (Z.of_nat n - 1).
Proof.
  induction n as [|n IH]; [done|].
  replace (Z.of_nat (Datatypes.S n)) with (Z.of_nat n + 1) by lia.
  rewrite seqZ_app, zsum_app by lia.
  change (seqZ (0 + Z.of_nat n) 1) with [0 + Z.of_nat n]. unfold zsum at 2. simpl foldr.
  lia.
Qed.

Lemma zsum_sq_seqZ (n : nat) :
  6 * zsum ((fun x => x * x) <$> seqZ 0 (Z.of_nat n))
  = (Z.of_nat n - 1) * Z.of_nat n * (2 * Z.of_nat n - 1).
Proof.
  induction n as [|n IH]; [done|].
  replace (Z.of_nat (Datatypes.S n)) with (Z.of_nat n + 1) by lia.
  rewrite seqZ_app, fmap_app, zsum_app by lia.
  change (seqZ (0 + Z.of_nat n) 1) with [0 + Z.of_nat n].
  unfold zsum at 2. simpl foldr. lia.
Qed.

Lemma sum_sq_le (c : Z) (p q : list Z) :
  length p = length q ->
  sum_sq p q <=
    2 * zsum ((fun x => x * x) <$> p) + 2 * zsum ((fun x => x * x) <$> q)
    - 2 * c * (zsum p + zsum q) + Z.of_nat (length p) * (c * c).
Proof.
  unfold sum_sq, zsum. revert q.
  induction p as [|a p IH]; intros [|b q] Hlen; try done.
  { simpl. lia. }
  injection Hlen as Hlen. specialize (IH q Hlen).
  cbn [zip zip_with foldr fmap list_fmap length] in *.
  pose proof (Z.square_nonneg (a + b - c)). nia.
Qed.

(** Two rankings of [N] items differ by at most [N (N^2 - 1) / 3] in
    squared distance. *)
Lemma sum_sq_perm_bound (N : Z) (p q : list Z) :
  0 <= N -> Permutation p (seqZ 0 N) -> Permutation q (seqZ 0 N) ->
  3 * sum_sq p q <= N * (N * N - 1).
Proof.
  intros HN Hp Hq.
  assert (length p = Z.to_nat N) as Hlp by (by rewrite Hp, length_seqZ).
  assert (length q = Z.to_nat N) as Hlq by (by rewrite Hq, length_seqZ).
  pose proof (sum_sq_le (N - 1) p q ltac:(lia)) as Hle.
  rewrite (zsum_perm _ _ Hp), (zsum_perm _ _ Hq) in Hle.
  rewrite (zsum_perm _ _ (fmap_Permutation _ _ _ Hp)) in Hle.
  rewrite (zsum_perm _ _ (fmap_Permutation _ _ _ Hq)) in Hle.
  rewrite Hlp in Hle.
  pose proof (zsum_seqZ (Z.to_nat N)) as H1.
  pose proof (zsum_sq_seqZ (Z.to_nat N)) as H2.
  rewrite Z2Nat.id in H1, H2, Hle by lia.
  nia.
Qed.


(** An integer held with trailing zero bits is normalized to its
    canonical representation. *)
Lemma binary_round_exact (s : bool) (M V : positive) (k : Z) :
  0 <= k -> Z.pos V < 2 ^ 53 -> Z.pos M = Z.pos V * 2 ^ k ->
  binary_round prec emax s M (- k) =
  S754_finite s (Z.to_pos (Z.pos V * 2 ^ (53 - Z.pos (digits2_pos V))))
    (Z.pos (digits2_pos V) - 53).
Proof.
  intros Hk HV HM.
  pose proof (digits_le_53 V HV) as HdV.
  pose proof (digits2_pos_bounds V) as [HVlo HVhi].
  set (dV := Z.pos (digits2_pos V)) in *.
  pose proof (pow2_pos k Hk) as Hpk.
  assert (Z.pos (digits2_pos M) = dV + k) as HdM.
  { apply digits2_pos_unique. rewrite HM.
    replace (dV + k - 1) with (dV - 1 + k) by lia.
    rewrite !Z.pow_add_r by lia. nia. }
  unfold binary_round. rewrite fexp_eq, HdM.
  replace (Z.max (dV + k + - k - 53) (-1074)) with (dV - 53) by lia.
  destruct (Z.le_gt_cases (dV - 53) (- k)) as [Hle|Hgt].
  - rewrite shl_align_spec by lia.
    pose proof (pow2_pos (- k - (dV - 53)) ltac:(lia)) as Hp.
    replace (dV - 53) with (- (53 - dV)) at 2 by lia.
    apply (round_aux_exact s _ V (53 - dV)); [done|lia|].
    rewrite Z2Pos.id by lia. rewrite HM, <- Z.mul_assoc, <- Z.pow_add_r by lia.
    do 2 f_equal. lia.
  - unfold shl_align. destruct (dV - 53 - - k) as [|d|d] eqn:Ed; try lia.
    apply (round_aux_exact s M V k); [done|lia|done].
Qed.

Lemma dsub_canon (a b : positive) :
  Z.pos b < Z.pos a < 2 ^ 53 ->
  (canon a - canon b)%D = canon (Z.to_pos (Z.pos a - Z.pos b)).
Proof.
  intros [Hba Ha].
  assert (Z.pos b < 2 ^ 53) as Hb by lia.
  pose proof (digits_le_53 a Ha) as Hda. pose proof (digits_le_53 b Hb) as Hdb.
  unfold dsub, canon at 1 2. cbn [SFsub cond_Zopp].
  set (da := Z.pos (digits2_pos a)) in *. set (db := Z.pos (digits2_pos b)) in *.
  set (ez := Z.min (da - 53) (db - 53)).
  rewrite !shl_align_spec by lia. cbn [fst].
  pose proof (pow2_pos (53 - da) ltac:(lia)) as Hpa.
  pose proof (pow2_pos (53 - db) ltac:(lia)) as Hpb.
  pose proof (pow2_pos (da - 53 - ez) ltac:(lia)) as Hpa'.
  pose proof (pow2_pos (db - 53 - ez) ltac:(lia)) as Hpb'.
  pose proof (pow2_pos (- ez) ltac:(lia)) as Hpz.
  rewrite !Z2Pos.id by nia.
  assert (Z.pos a * 2 ^ (53 - da) * 2 ^ (da - 53 - ez)
          - Z.pos b * 2 ^ (53 - db) * 2 ^ (db - 53 - ez)
          = (Z.pos a - Z.pos b) * 2 ^ (- ez)) as Hdiff.
  { rewrite <- !Z.mul_assoc, <- !Z.pow_add_r by lia.
    replace (53 - da + (da - 53 - ez)) with (- ez) by lia.
    replace (53 - db + (db - 53 - ez)) with (- ez) by lia. lia. }
  rewrite Hdiff.
  destruct ((Z.pos a - Z.pos b) * 2 ^ (- ez)) as [|M|M] eqn:EM; try nia.
  unfold binary_normalize. replace ez with (- - ez) at 1 by lia.
  apply (binary_round_exact false M (Z.to_pos (Z.pos a - Z.pos b)) (- ez));
    rewrite ?Z2Pos.id by lia; lia.
Qed.

Lemma double_of_int_sub (a b : Z) :
  0 < b < a -> a < 2 ^ 53 ->
  (double_of_int a - double_of_int b)%D = double_of_int (a - b).
Proof.
  intros Hba Ha. destruct a as [|a|a], b as [|b|b]; try lia.
  rewrite (double_of_int_pos a), (double_of_int_pos b) by lia.
  rewrite dsub_canon by lia.
  rewrite <- double_of_int_pos by (rewrite Z2Pos.id; lia).
  by rewrite Z2Pos.id by lia.
Qed.

(** Up to [N_exact] the denominator of the scaling constant is exact. *)
Lemma rho_mult_exact (N : Z) :
  2 <= N <= N_exact ->
  rho_mult (double_of_int N) = (dsix / double_of_int (N * (N * N - 1)))%D.
Proof.
  unfold N_exact. intros HN. unfold rho_mult.
  assert (2 ^ 53 = 9007199254740992) as E by reflexivity.
  assert (N * (N * N - 1) < 2 ^ 53) as HD by nia.
  rewrite double_of_int_mul by nia.
  unfold done_. rewrite double_of_int_sub by nia.
  rewrite double_of_int_mul by nia. done.
Qed.

(** ** Division *)

(** The end of [binary_round_aux], whatever the location it started from. *)
Lemma round_aux_finish (s : bool) (mx ex : Z) (lx : location) mrs' e' (r : Z) :
  shr_fexp prec emax mx ex lx = (mrs', e') ->
  round_nearest_even (shr_m mrs') (loc_of_shr_record mrs') = r ->
  0 <= r <= 2 ^ 53 -> -1074 <= e' <= 970 ->
  binary_round_aux prec emax s mx ex lx =
    if r =? 0 then S754_zero s
    else if r <? 2 ^ 53 then S754_finite s (Z.to_pos r) e'
    else S754_finite s (2 ^ 52)%positive (e' + 1).
Proof.
  intros Hshr Hround Hr He. unfold binary_round_aux. rewrite Hshr, Hround.
  unfold shr_fexp. cbn [shr_record_of_loc]. rewrite fexp_eq.
  destruct (Z.eqb_spec r 0) as [E0|E0].
  - rewrite E0. cbn [Zdigits2]. rewrite shr_nonpos by lia. reflexivity.
  - destruct (Z.ltb_spec r (2 ^ 53)) as [Hlt|Hge].
    + destruct r as [|pr|pr]; try lia. cbn [Zdigits2].
      pose proof (digits_le_53 pr Hlt).
      rewrite shr_nonpos by lia. cbn [shr_m].
      destruct (Z.leb_spec e' (emax - Binary64.prec)) as [|Hbad]; [done|].
      unfold emax, Binary64.prec in Hbad. lia.
    + assert (r = 2 ^ 53) as -> by lia.
      replace (Z.max (Zdigits2 (2 ^ 53) + e' - 53) (-1074) - e') with 1
        by (change (Zdigits2 (2 ^ 53)) with 54; lia).
      cbn [shr SpecFloat.iter_pos shr_1 shr_m]. simpl.
      destruct (Z.leb_spec (e' + 1) (emax - Binary64.prec)) as [|Hbad]; [done|].
      unfold emax, Binary64.prec in Hbad. lia.
Qed.

Lemma new_location_spec (my r : Z) :
  0 <= r < my ->
  new_location my r = if r =? 0 then loc_Exact else loc_Inexact (2 * r ?= my).
Proof.
  intros Hr. unfold new_location, new_location_even, new_location_odd.
  destruct (Z.even my) eqn:Hev; [done|].
  destruct (Z.eqb_spec r 0); [done|]. f_equal.
  assert (Z.odd my = true) as Hodd by (by rewrite <- Z.negb_even, Hev).
  pose proof (Zmod_odd my) as Hm. rewrite Hodd in Hm.
  pose proof (Z.div_mod my 2 ltac:(lia)) as Hdm.
  destruct (Z.compare_spec (2 * r + 1) my), (Z.compare_spec (2 * r) my); try done; lia.
Qed.

(** Shifting and rounding a quotient of two 53-bit mantissas together
    with the location of the remainder: the result exceeds the exact
    quotient by at most the factor [1 + 2^-53]. *)
Lemma div_round (q r my E0 : Z) :
  2 ^ 52 <= q < 2 ^ 54 -> 0 <= r < my -> -1074 <= E0 ->
  exists mrs' e' r1,
    shr_fexp prec emax q E0 (if r =? 0 then loc_Exact else loc_Inexact (2 * r ?= my))
    = (mrs', e') /\
    round_nearest_even (shr_m mrs') (loc_of_shr_record mrs') = r1 /\
    E0 <= e' <= E0 + 1 /\ 2 ^ 52 <= r1 <= 2 ^ 53 /\
    r1 * my * 2 ^ (e' - E0) * 2 ^ 53 <= (2 ^ 53 + 1) * (q * my + r).
Proof.
  intros Hq Hr HE0.
  assert (2 ^ 52 = 4503599627370496) as P52 by reflexivity.
  assert (2 ^ 53 = 9007199254740992) as P53 by reflexivity.
  assert (2 ^ 54 = 18014398509481984) as P54 by reflexivity.
  destruct q as [|pq|pq]; try lia.
  unfold shr_fexp. rewrite fexp_eq. cbn [Zdigits2].
  destruct (Z.lt_ge_cases (Z.pos pq) (2 ^ 53)) as [Hlt|Hge].
  - rewrite (digits2_pos_unique pq 53) by (change (53 - 1) with 52; lia).
    rewrite shr_nonpos by lia.
    eexists _, E0, _. split; [reflexivity|]. split; [reflexivity|].
    replace (E0 - E0) with 0 by lia. rewrite Z.pow_0_r, Z.mul_1_r.
    split; [lia|].
    destruct (Z.eqb_spec r 0) as [->|Hr0]; cbn [round_nearest_even shr_m loc_of_shr_record shr_record_of_loc orb].
    { split; [lia|nia]. }
    destruct (Z.compare_spec (2 * r) my); cbn [round_nearest_even shr_m loc_of_shr_record shr_record_of_loc orb].
    + destruct (Z.even (Z.pos pq)); split; try lia; nia.
    + split; [lia|nia].
    + split; [lia|nia].
  - rewrite (digits2_pos_unique pq 54) by (change (54 - 1) with 53; lia).
    replace (Z.max (54 + E0 - 53) (-1074) - E0) with 1 by lia.
    cbn [shr SpecFloat.iter_pos].
    pose proof (Zmod_odd (Z.pos pq)) as Hm.
    pose proof (Z.div_mod (Z.pos pq) 2 ltac:(lia)) as Hdm.
    eexists _, (E0 + 1), _. split; [reflexivity|]. split; [reflexivity|].
    replace (E0 + 1 - E0) with 1 by lia. rewrite Z.pow_1_r.
    split; [lia|].
    assert (2 ^ 52 <= Z.pos pq / 2 < 2 ^ 53) as Hhalf.
    { split; [apply Z.div_le_lower_bound; lia|apply Z.div_lt_upper_bound; lia]. }
    destruct (Z.eqb_spec r 0) as [->|Hr0].
    + cbn [shr_record_of_loc]. rewrite shr_1_spec by lia. cbn [round_nearest_even shr_m loc_of_shr_record shr_record_of_loc orb].
      destruct (Z.odd (Z.pos pq)); cbn [round_nearest_even shr_m loc_of_shr_record shr_record_of_loc orb].
      * destruct (Z.even (Z.pos pq / 2)); split; try lia; nia.
      * split; [lia|nia].
    + destruct (Z.compare_spec (2 * r) my); cbn [shr_record_of_loc];
        rewrite shr_1_spec by lia; cbn [round_nearest_even shr_m loc_of_shr_record shr_record_of_loc orb];
        destruct (Z.odd (Z.pos pq)); cbn [round_nearest_even shr_m loc_of_shr_record shr_record_of_loc orb]; split; try lia; nia.
Qed.

(** The quotient of two positive normal doubles is a normal double that
    exceeds the exact quotient by at most the factor [1 + 2^-53]. *)
Lemma ddiv_round_up (mx my : positive) (ex ey : Z) :
  Z.pos (digits2_pos mx) = 53 -> Z.pos (digits2_pos my) = 53 ->
  -1074 <= ex - ey - 53 <= 968 ->
  exists M E,
    (S754_finite false mx ex / S754_finite false my ey)%D = S754_finite false M E /\
    2 ^ 52 <= Z.pos M < 2 ^ 53 /\
    ex - ey - 53 <= E <= ex - ey - 51 /\
    Z.pos M * Z.pos my * 2 ^ (E - (ex - ey - 53)) <= (2 ^ 53 + 1) * Z.pos mx.
Proof.
  intros Hdx Hdy HE.
  assert (2 ^ 52 = 4503599627370496) as P52 by reflexivity.
  assert (2 ^ 53 = 9007199254740992) as P53 by reflexivity.
  assert (2 ^ 54 = 18014398509481984) as P54 by reflexivity.
  pose proof (digits2_pos_bounds mx) as Hmx. rewrite Hdx in Hmx.
  pose proof (digits2_pos_bounds my) as Hmy. rewrite Hdy in Hmy.
  change (53 - 1) with 52 in Hmx, Hmy.
  unfold ddiv, SFdiv, SFdiv_core_binary. cbn [xorb Zdigits2].
  rewrite Hdx, Hdy, fexp_eq.
  set (E0 := ex - ey - 53) in *.
  replace (Z.min (Z.max (53 + ex - (53 + ey) - 53) (-1074)) (ex - ey)) with E0 by lia.
  replace (ex - ey - E0) with 53 by lia.
  rewrite Z.shiftl_mul_pow2 by lia.
  pose proof (Z_div_mod (Z.pos mx * 2 ^ 53) (Z.pos my) ltac:(lia)) as Hdm.
  destruct (Z.div_eucl (Z.pos mx * 2 ^ 53) (Z.pos my)) as [q r].
  destruct Hdm as [Hdm Hr].
  rewrite new_location_spec by done.
  assert (2 ^ 52 <= q < 2 ^ 54) as Hq by nia.
  destruct (div_round q r (Z.pos my) E0 Hq Hr ltac:(lia))
    as (mrs' & e' & r1 & Hshr & Hround & He' & Hr1 & Hineq).
  rewrite (round_aux_finish false q E0 _ mrs' e' r1 Hshr Hround) by lia.
  pose proof (pow2_pos (e' - E0) ltac:(lia)) as Hpe.
  assert (r1 * Z.pos my * 2 ^ (e' - E0) <= (2 ^ 53 + 1) * Z.pos mx) as Hval.
  { replace (q * Z.pos my + r) with (Z.pos mx * 2 ^ 53) in Hineq by lia.
    rewrite Z.mul_assoc in Hineq.
    apply Z.mul_le_mono_pos_r in Hineq; lia. }
  destruct (Z.eqb_spec r1 0); [lia|].
  destruct (Z.ltb_spec r1 (2 ^ 53)) as [Hlt|Hge].
  - exists (Z.to_pos r1), e'. rewrite Z2Pos.id by lia. repeat split; try lia.
  - exists (2 ^ 52)%positive, (e' + 1). assert (r1 = 2 ^ 53) as -> by lia.
    change (Z.pos (2 ^ 52)) with (2 ^ 52).
    repeat split; try lia.
    replace (e' + 1 - E0) with (e' - E0 + 1) by lia.
    rewrite Z.pow_add_r, Z.pow_1_r by lia. lia.
Qed.

(** ** Bounds *)

Lemma canon_mantissa_bounds (V : positive) :
  Z.pos V < 2 ^ 53 ->
  2 ^ 52 <= Z.pos V * 2 ^ (53 - Z.pos (digits2_pos V)) < 2 ^ 53.
Proof.
  intros HV. pose proof (digits_le_53 V HV) as HdV.
  pose proof (digits2_pos_bounds V) as [Hlo Hhi].
  set (dV := Z.pos (digits2_pos V)) in *.
  pose proof (pow2_pos (53 - dV) ltac:(lia)) as Hp.
  replace 52 with (dV - 1 + (53 - dV)) by lia.
  replace 53 with (dV + (53 - dV)) at 4 by lia.
  rewrite !Z.pow_add_r by lia. nia.
Qed.

Lemma rho_mult_spec (N : Z) :
  2 <= N <= N_exact -> mult_spec (N * (N * N - 1)) (rho_mult (double_of_int N)).
Proof.
  intros HN. rewrite rho_mult_exact by done. unfold N_exact in HN.
  assert (2 ^ 52 = 4503599627370496) as P52 by reflexivity.
  assert (2 ^ 53 = 9007199254740992) as P53 by reflexivity.
  destruct (N * (N * N - 1)) as [|D|D] eqn:ED; try nia.
  assert (Z.pos D < 2 ^ 53) as HD by nia.
  assert (6 <= Z.pos D) as HD6 by nia.
  rewrite (double_of_int_pos D HD).
  change dsix with (S754_finite false 6755399441055744 (-50)).
  unfold canon.
  pose proof (canon_mantissa_bounds D HD) as Hmy.
  pose proof (digits_le_53 D HD) as HdD.
  pose proof (digits2_pos_bounds D) as [_ HDhi].
  set (dD := Z.pos (digits2_pos D)) in *.
  assert (3 <= dD) as HdD3.
  { destruct (Z.le_gt_cases 3 dD) as [|Hgt]; [done|].
    assert (2 ^ dD <= 2 ^ 2) by (apply Z.pow_le_mono_r; lia).
    change (2 ^ 2) with 4 in *. lia. }
  pose proof (pow2_pos (53 - dD) ltac:(lia)) as Hp.
  destruct (ddiv_round_up 6755399441055744 (Z.to_pos (Z.pos D * 2 ^ (53 - dD)))
              (-50) (dD - 53)) as (M & E & Ediv & HM & HE & Hval).
  { reflexivity. }
  { apply digits2_pos_unique. rewrite Z2Pos.id by lia. change (53 - 1) with 52. lia. }
  { lia. }
  rewrite Z2Pos.id in Hval by lia.
  exists M, E. split; [exact Ediv|]. split; [done|].
  replace (-50 - (dD - 53) - 53) with (-50 - dD) in * by lia.
  pose proof (pow2_pos (E - (-50 - dD)) ltac:(lia)) as HpE.
  assert (E <= -49 - dD) as HE1.
  { destruct (Z.le_gt_cases E (-49 - dD)) as [|Hgt]; [done|exfalso].
    assert (E - (-50 - dD) = 2) as E2 by lia. rewrite E2 in Hval.
    change (2 ^ 2) with 4 in Hval. change (Z.pos 6755399441055744) with 6755399441055744 in Hval.
    nia. }
  split; [lia|].
  pose proof (pow2_pos (-52 - E) ltac:(lia)) as HpE'.
  pose proof (pow2_pos (103 + E) ltac:(lia)) as HpE''.
  assert (2 ^ (53 - dD) * 2 ^ (E - (-50 - dD)) = 2 ^ (103 + E)) as Hp1.
  { rewrite <- Z.pow_add_r by lia. f_equal. lia. }
  assert (2 ^ (-52 - E) * 2 ^ (103 + E) = 2 ^ 51) as Hp2.
  { rewrite <- Z.pow_add_r by lia. f_equal. lia. }
  assert (2 ^ 51 = 2251799813685248) as P51 by reflexivity.
  change (Z.pos 6755399441055744) with (3 * 2 ^ 51) in Hval.
  apply (Z.mul_le_mono_pos_r _ _ (2 ^ (103 + E))); [done|].
  rewrite <- Hp1 at 1.
  replace (3 * (2 ^ 53 + 1) * 2 ^ (-52 - E) * 2 ^ (103 + E))
    with (3 * (2 ^ 53 + 1) * (2 ^ (-52 - E) * 2 ^ (103 + E))) by ring.
  rewrite Hp2. lia.
Qed.






(** With a single observation the scaling constant is infinite and the
    score of any two realizations is NaN. *)
Lemma spearman_rho_single (x y : double) :
  spearman_rho 1 (ranks [x]) (ranks [y]) = S754_nan.
Proof.
  unfold ranks, sorted_position, indexed. cbn [length imap seqZ].
  change (seqZ 0 (Z.of_nat 1)) with [0]. cbn [map fmap list_fmap vget nth Z.to_nat].
  rewrite !filter_cons_False by (by rewrite pair_lt_irrefl).
  reflexivity.
Qed.

(** ** The scaling constant beyond [N_exact] *)






(** At 262150 the constant is too large by one unit in the last place. *)
Lemma mult_ok_262150 : mult_ok 262150 = false.
Proof. vm_compute. reflexivity. Qed.



(** ** The design-adjusted sampler in closed form *)
Section DesignClosed.

Variable generator : Type.
Variable mt19937 : Z -> generator.
Variable normal_distribution : Type.
Variable normal_init : normal_distribution.
Variable rnorm :
  normal_distribution -> generator -> double * normal_distribution * generator.
Variable sort : list (double * Z) -> list (double * Z).
Variable multQ : run_dormqr.

Hypothesis sort_ok : sort_contract sort.
Hypothesis coef_range : 0 <= get_ncoefs multQ <= get_nobs multQ.
Hypothesis run_length : forall v, length (run multQ v) = length v.

Local Abbreviation Nobs := (get_nobs multQ).
Local Abbreviation null_rho_design :=
  (get_null_rho_design generator mt19937 normal_distribution normal_init rnorm sort multQ).

(** The sequence of values of a successful call of the design-adjusted
    sampler. *)
Lemma get_null_rho_design_closed_form iters seeds t :
  0 < iters -> Z.of_nat (length seeds) = iters -> is_int Nobs ->
  length (rhs_init multQ) = Z.to_nat Nobs ->
  Forall (realizations_no_nan mt19937 normal_init rnorm multQ) seeds ->
  exists t',
    null_rho_design iters seeds t =
    (Returned (map (design_rho mt19937 normal_init rnorm multQ) seeds), t').
Proof.
  intros Hi Hs Hint Hrhs Hnan. unfold get_null_rho_design.
  destruct (Z.leb_spec iters 0); [lia|].
  destruct (Z.eqb_spec (Z.of_nat (length seeds)) iters); [simpl|lia].
  set (mult := rho_mult (double_of_int Nobs)).
  set (val := fun it : Z =>
         let vs := realizations mt19937 normal_init rnorm multQ (vget 0 seeds it) in
         (done_ - sum_sq_diff (ranks vs.1) (ranks vs.2) * mult)%D).
  unfold forM_range.
  replace (Z.to_nat (iters - 0)) with (length seeds) by lia.
  replace (Z.to_nat iters) with (length seeds) by lia.
  lazymatch goal with
  | |- context [forM_iter _ 0 ?b (?w0, ?o0)] =>
      destruct (forM_output_loop (workspace_sized (Z.to_nat Nobs)) val b (length seeds))
        with (n := length seeds) (i := O) (s := w0) (out := o0) (t := t)
        as (w' & t' & E & _)
  end.
  { intros it w out t0 Hit Hw Hout.
    destruct (realizations mt19937 normal_init rnorm multQ (vget 0 seeds it))
      as [v0 v1] eqn:Hreal.
    assert (realizations_no_nan mt19937 normal_init rnorm multQ (vget 0 seeds it))
      as [Hn0 Hn1].
    { rewrite Forall_lookup in Hnan. apply (Hnan (Z.to_nat it)).
      destruct (lookup_lt_is_Some_2 seeds (Z.to_nat it) ltac:(lia)) as [x Hx].
      unfold vget. by rewrite (nth_lookup_Some _ _ _ _ Hx). }
    rewrite Hreal in Hn0, Hn1. simpl in Hn0, Hn1.
    destruct (design_iteration_spec generator mt19937 normal_distribution normal_init
                rnorm sort multQ sort_ok coef_range run_length
                mult seeds it w out t0 v0 v1)
      as (w1 & t1 & E & Hw1 & _); try done; [lia|].
    exists w1, t1. split; [|done]. rewrite E. unfold val. by rewrite Hreal. }
  { done. }
  { unfold workspace_sized. simpl. by rewrite !length_replicate. }
  { by rewrite length_replicate. }
  change (Z.of_nat 0) with 0 in E.
  rewrite (bind_returned _ _ _ _ _ E). simpl.
  exists t'. unfold ret. do 2 f_equal.
  rewrite <- (map_vget_seqZ 0 (design_rho mt19937 normal_init rnorm multQ) seeds).
  apply map_ext. intros it. unfold val, design_rho, spearman_rho.
  destruct (realizations mt19937 normal_init rnorm multQ (vget 0 seeds it)) as [v0 v1].
  simpl. by rewrite dmul_comm.
Qed.

End DesignClosed.

(** ** The values of both samplers *)
Section Values.

Variable generator : Type.
Variable mt19937 : Z -> generator.
Variable shuffle : list Z -> generator -> list Z.
Variable normal_distribution : Type.
Variable normal_init : normal_distribution.
Variable rnorm :
  normal_distribution -> generator -> double * normal_distribution * generator.
Variable sort : list (double * Z) -> list (double * Z).
Variable multQ : run_dormqr.

Hypothesis shuffle_perm : forall v g, Permutation (shuffle v g) v.
Hypothesis sort_ok : sort_contract sort.
Hypothesis coef_range : 0 <= get_ncoefs multQ <= get_nobs multQ.
Hypothesis run_length : forall v, length (run multQ v) = length v.

Local Abbreviation Nobs := (get_nobs multQ).
Local Abbreviation null_rho := (get_null_rho generator mt19937 shuffle).
Local Abbreviation ranking_of := (permuted mt19937 shuffle).
Local Abbreviation null_rho_design :=
  (get_null_rho_design generator mt19937 normal_distribution normal_init rnorm sort multQ).

(** C3: for more than one cell, a non-negative number of iterations and
    as many seeds, the unconstrained sampler returns as many values as
    there are iterations; the value of iteration [it] is
    [1 - c * sum (permuted[i] - i)^2] with [c = 6 / (N * (N^2 - 1))]
    evaluated in doubles as [6 / (N * (N * N - 1))], where [permuted] is
    the identity ranking of the cells shuffled with the generator made
    from the seed of that iteration, a permutation of [0..N-1].  Up to
    [N_exact] cells the denominator is the integer [N (N^2 - 1)] itself,
    so that [c] is the double nearest to the quotient. *)
Theorem get_null_rho_values cells iters seeds t :
  1 < cells -> is_int cells -> 0 <= iters -> Z.of_nat (length seeds) = iters ->
  exists out t',
    null_rho cells iters seeds t = (Returned out, t') /\
    Z.of_nat (length out) = iters /\
    (forall (it : nat) seed, seeds !! it = Some seed ->
       Permutation (ranking_of cells seed) (seqZ 0 cells) /\
       out !! it =
         Some (double_of_int 1 -
               double_of_int 6 /
                 (double_of_int cells *
                    (double_of_int cells * double_of_int cells - double_of_int 1)) *
               sum_sq_diff (ranking_of cells seed) (seqZ 0 cells))%D) /\
    (cells <= N_exact ->
     (double_of_int 6 /
        (double_of_int cells *
           (double_of_int cells * double_of_int cells - double_of_int 1)))%D
     = (double_of_int 6 / double_of_int (cells * (cells * cells - 1)))%D).
Proof.
  intros Hc Hint Hi Hs.
  destruct (get_null_rho_closed_form generator mt19937 shuffle shuffle_perm
              cells iters seeds t) as (t' & E); try done.
  eexists _, t'. split; [exact E|]. split; [|split].
  - rewrite length_map. done.
  - intros it seed Hit. split; [by apply permuted_perm|].
    rewrite list_lookup_fmap, Hit. done.
  - intros Hle. apply (rho_mult_exact cells). lia.
Qed.

(** C1: the design-adjusted sampler returns one value per seed; the value
    for a seed is [1 - c * sum (rank_mode0[i] - rank_mode1[i])^2] over the
    [Nobs] positions, with [c = 6 / (Nobs * (Nobs^2 - 1))] evaluated in
    doubles as [6 / (Nobs * (Nobs * Nobs - 1))], where the two rank
    vectors are the sorted positions (ties decided by the index) of the two
    realizations drawn, mode 0 then mode 1, from the one generator made
    from that seed: zeros in the first [Ncoef] entries, deviates in the
    other [Nobs - Ncoef], then the orthogonal transform.  Up to [N_exact]
    observations the denominator is the integer [Nobs (Nobs^2 - 1)]
    itself, so that [c] is the double nearest to the quotient. *)
Theorem get_null_rho_design_values iters seeds t :
  0 < iters -> Z.of_nat (length seeds) = iters -> is_int Nobs ->
  length (rhs_init multQ) = Z.to_nat Nobs ->
  Forall (realizations_no_nan mt19937 normal_init rnorm multQ) seeds ->
  exists out t',
    null_rho_design iters seeds t = (Returned out, t') /\
    Z.of_nat (length out) = iters /\
    (forall (it : nat) seed, seeds !! it = Some seed ->
       exists v0 v1,
         realizations mt19937 normal_init rnorm multQ seed = (v0, v1) /\
         out !! it =
           Some (double_of_int 1 -
                 double_of_int 6 /
                   (double_of_int Nobs *
                      (double_of_int Nobs * double_of_int Nobs - double_of_int 1)) *
                 sum_sq_diff (ranks v0) (ranks v1))%D) /\
    (2 <= Nobs <= N_exact ->
     (double_of_int 6 /
        (double_of_int Nobs *
           (double_of_int Nobs * double_of_int Nobs - double_of_int 1)))%D
     = (double_of_int 6 / double_of_int (Nobs * (Nobs * Nobs - 1)))%D).
Proof.
  intros Hi Hs Hint Hrhs Hnan.
  destruct (get_null_rho_design_closed_form generator mt19937 normal_distribution
              normal_init rnorm sort multQ sort_ok coef_range run_length
              iters seeds t) as (t' & E); try done.
  eexists _, t'. split; [exact E|]. split; [|split].
  - rewrite length_map. done.
  - intros it seed Hit.
    destruct (realizations mt19937 normal_init rnorm multQ seed) as [v0 v1] eqn:Hreal.
    exists v0, v1. split; [done|].
    change (map ?f seeds) with (f <$> seeds).
    rewrite list_lookup_fmap, Hit. simpl. unfold design_rho. by rewrite Hreal.
  - intros Hle. by apply (rho_mult_exact Nobs).
Qed.

End Values.

Lemma get_null_rho_values_witness :
  exists out t',
    Instance.null_rho 5 2 [7; 8] [] = (Returned out, t') /\
    Z.of_nat (length out) = 2 /\
    (forall (it : nat) seed, [7; 8] !! it = Some seed ->
       Permutation (permuted Instance.seed_generator Instance.shuffle 5 seed) (seqZ 0 5) /\
       out !! it =
         Some (double_of_int 1 -
               double_of_int 6 / (double_of_int 5 * (double_of_int 5 * double_of_int 5 - double_of_int 1)) *
               sum_sq_diff (permuted Instance.seed_generator Instance.shuffle 5 seed)
                           (seqZ 0 5))%D) /\
    (5 <= N_exact ->
     (double_of_int 6 / (double_of_int 5 * (double_of_int 5 * double_of_int 5 - double_of_int 1)))%D
     = (double_of_int 6 / double_of_int (5 * (5 * 5 - 1)))%D).
Proof.
  apply (get_null_rho_values Instance.generator Instance.seed_generator
           Instance.shuffle instance_shuffle_perm 5 2 [7; 8] []);
    [lia | unfold is_int, INT_MIN, INT_MAX; lia | lia | reflexivity].
Defined.

Lemma get_null_rho_design_values_witness :
  exists out t',
    Instance.null_rho_design (Instance.identityQ 4 1) 2 [3; 4] [] = (Returned out, t') /\
    Z.of_nat (length out) = 2 /\
    (forall (it : nat) seed, [3; 4] !! it = Some seed ->
       exists v0 v1,
         realizations Instance.seed_generator tt Instance.rnorm
           (Instance.identityQ 4 1) seed = (v0, v1) /\
         out !! it =
           Some (double_of_int 1 -
                 double_of_int 6 / (double_of_int 4 * (double_of_int 4 * double_of_int 4 - double_of_int 1)) *
                 sum_sq_diff (ranks v0) (ranks v1))%D) /\
    (2 <= 4 <= N_exact ->
     (double_of_int 6 / (double_of_int 4 * (double_of_int 4 * double_of_int 4 - double_of_int 1)))%D
     = (double_of_int 6 / double_of_int (4 * (4 * 4 - 1)))%D).
Proof.
  apply (get_null_rho_design_values Instance.generator Instance.seed_generator
           Instance.normal_distribution tt Instance.rnorm
           Instance.insertion_sort (Instance.identityQ 4 1)
           insertion_sort_contract).
  - simpl. lia.
  - intros v. reflexivity.
  - lia.
  - reflexivity.
  - unfold is_int, INT_MIN, INT_MAX. simpl. lia.
  - reflexivity.
  - repeat constructor.
Defined.

(** ** The range of the emitted values *)
Section Range.

Variable generator : Type.
Variable mt19937 : Z -> generator.
Variable shuffle : list Z -> generator -> list Z.
Variable normal_distribution : Type.
Variable normal_init : normal_distribution.
Variable rnorm :
  normal_distribution -> generator -> double * normal_distribution * generator.
Variable sort : list (double * Z) -> list (double * Z).
Variable multQ : run_dormqr.

Hypothesis shuffle_perm : forall v g, Permutation (shuffle v g) v.
Hypothesis sort_ok : sort_contract sort.
Hypothesis coef_range : 0 <= get_ncoefs multQ <= get_nobs multQ.
Hypothesis run_length : forall v, length (run multQ v) = length v.

Local Abbreviation Nobs := (get_nobs multQ).
Local Abbreviation null_rho := (get_null_rho generator mt19937 shuffle).
Local Abbreviation null_rho_design :=
  (get_null_rho_design generator mt19937 normal_distribution normal_init rnorm sort multQ).

Lemma realizations_length seed v0 v1 :
  realizations mt19937 normal_init rnorm multQ seed = (v0, v1) ->
  length v0 = Z.to_nat Nobs /\ length v1 = Z.to_nat Nobs.
Proof.
  unfold realizations.
  destruct (residuals rnorm multQ normal_init _) as [[a d1] g1] eqn:E0.
  destruct (residuals rnorm multQ d1 g1) as [[b d2] g2] eqn:E1.
  intros [= <- <-].
  split; eapply residuals_length; eauto.
Qed.


End Range.


(** ** Where the bound ends

    Above [N_range] the bound depends on the rankings.  The reversed
    ranking has the largest sum of squares, [N (N^2 - 1) / 3]; with 262150
    items that sum is still exact, but its product with the constant
    rounds to [2 + 2^-51], and the value comes out as [-(1 + 2^-51)]. *)

Lemma rev_seqZ (n : nat) :
  rev (seqZ 0 (Z.of_nat n)) = (fun i => Z.of_nat n - 1 - i) <$> seqZ 0 (Z.of_nat n).
Proof.
  induction n as [|n IH]; [done|].
  rewrite seqZ_S at 1. rewrite rev_unit, IH.
  rewrite (seqZ_cons 0 (Z.of_nat (S n))) by lia.
  replace (Z.pred (Z.of_nat (S n))) with (Z.of_nat n) by lia.
  change (Z.succ 0) with (1 + 0). rewrite <- fmap_add_seqZ.
  cbn [fmap list_fmap]. f_equal; [lia|].
  rewrite <- list_fmap_compose. apply list_fmap_ext. intros _ i _. simpl. lia.
Qed.

Lemma sum_sq_fmap (f : Z -> Z) (l : list Z) :
  sum_sq (f <$> l) l = zsum ((fun i => (f i - i) * (f i - i)) <$> l).
Proof.
  unfold sum_sq, zsum. induction l as [|x l IH]; [done|].
  cbn [fmap list_fmap zip zip_with foldr]. f_equal. exact IH.
Qed.

Lemma zsum_sq_affine (c : Z) (k : nat) :
  3 * zsum ((fun i => (c - 2 * i) * (c - 2 * i)) <$> seqZ 0 (Z.of_nat k)) =
  Z.of_nat k * (3 * c * c - 6 * c * (Z.of_nat k - 1)
                + 2 * (Z.of_nat k - 1) * (2 * Z.of_nat k - 1)).
Proof.
  induction k as [|k IH]; [done|].
  rewrite seqZ_S, fmap_app, zsum_app. cbn [fmap list_fmap zsum foldr].
  rewrite Z.mul_add_distr_l, IH. lia.
Qed.

(** The reversed ranking is the worst case: its sum of squared differences
    is [N (N^2 - 1) / 3]. *)
Lemma sum_sq_reversed (n : nat) :
  3 * sum_sq (rev (seqZ 0 (Z.of_nat n))) (seqZ 0 (Z.of_nat n)) =
  Z.of_nat n * (Z.of_nat n * Z.of_nat n - 1).
Proof.
  rewrite rev_seqZ, sum_sq_fmap.
  rewrite (list_fmap_ext _ (fun i => (Z.of_nat n - 1 - 2 * i) * (Z.of_nat n - 1 - 2 * i)))
    by (intros; simpl; f_equal; lia).
  rewrite zsum_sq_affine. lia.
Qed.

(** Spearman's rho of the identity ranking of 262150 items and its
    reverse. *)
Lemma spearman_rho_reversed_262150 :
  spearman_rho 262150 (rev (seqZ 0 262150)) (seqZ 0 262150)
  = S754_finite true 4503599627370498 (-52).
Proof.
  unfold spearman_rho.
  pose proof (sum_sq_reversed (Pos.to_nat 262150)) as H.
  rewrite positive_nat_Z in H.
  rewrite sum_sq_diff_exact by lia.
  replace (sum_sq (rev (seqZ 0 262150)) (seqZ 0 262150)) with 6005211829370950 by lia.
  vm_compute. reflexivity.
Qed.

(** With a shuffle that reverses its range (the contract of
    [std::shuffle] allows any rearrangement; whether the library's
    algorithm produces this one for some seed is not decided here) the
    unconstrained sampler leaves the interval as well. *)
Lemma reversed_ranking_below_minus_one :
  exists r t',
    Instance.null_rho 262150 1 [7] [] = (Returned [r], t') /\
    r = S754_finite true 4503599627370498 (-52) /\
    dlt r (double_of_int (-1)) = true.
Proof.
  destruct (get_null_rho_closed_form Instance.generator Instance.seed_generator
              Instance.shuffle instance_shuffle_perm 262150 1 [7] [])
    as (t' & E); [lia|unfold is_int, INT_MIN, INT_MAX; lia|lia|reflexivity|].
  eexists _, t'. split; [exact E|].
  unfold permuted, Instance.shuffle.
  rewrite spearman_rho_reversed_262150. split; reflexivity.
Qed.







Lemma dlt_not_nan (x y : double) :
  dlt x y = true -> is_nan x = false /\ is_nan y = false.
Proof. by destruct x, y. Qed.

Lemma dlt_pair_lt (x y : double) (i j : Z) :
  dlt x y = true -> pair_lt (x, i) (y, j) = true /\ pair_lt (y, j) (x, i) = false.
Proof.
  intros H. destruct (dlt_not_nan x y H) as [Hx Hy].
  assert (pair_lt (x, i) (y, j) = true) as Hlt by (unfold pair_lt; simpl; by rewrite H).
  split; [done|]. by apply (pair_lt_asym (x, i) (y, j)).
Qed.

(** Counting the pairs that satisfy a predicate holding exactly of the
    first [k] positions, or exactly from position [k] on. *)
Lemma count_prefix (v : list double) (P : double * Z -> Prop)
    `{!forall p, Decision (P p)} (k : nat) :
  (forall (j : nat) x, v !! j = Some x -> (j < k)%nat -> P (x, Z.of_nat j)) ->
  (forall (j : nat) x, v !! j = Some x -> (k <= j)%nat -> ~ P (x, Z.of_nat j)) ->
  (k <= length v)%nat ->
  length (filter P (indexed v)) = k.
Proof.
  intros Hlo Hhi Hk.
  rewrite <- (take_drop k (indexed v)), filter_app, length_app.
  rewrite filter_all, filter_none.
  - rewrite length_take, indexed_length. simpl. lia.
  - apply Forall_lookup. intros j p Hj. rewrite lookup_drop in Hj.
    apply indexed_lookup in Hj as (x & Hx & ->). apply (Hhi _ _ Hx). lia.
  - apply Forall_lookup. intros j p Hj. apply lookup_take_Some in Hj as [Hj Hjk].
    apply indexed_lookup in Hj as (x & Hx & ->). by apply (Hlo _ _ Hx).
Qed.

Lemma count_suffix (v : list double) (P : double * Z -> Prop)
    `{!forall p, Decision (P p)} (k : nat) :
  (forall (j : nat) x, v !! j = Some x -> (j < k)%nat -> ~ P (x, Z.of_nat j)) ->
  (forall (j : nat) x, v !! j = Some x -> (k <= j)%nat -> P (x, Z.of_nat j)) ->
  (k <= length v)%nat ->
  length (filter P (indexed v)) = (length v - k)%nat.
Proof.
  intros Hlo Hhi Hk.
  rewrite <- (take_drop k (indexed v)), filter_app, length_app.
  rewrite filter_none, filter_all.
  - rewrite length_drop, indexed_length. simpl. lia.
  - apply Forall_lookup. intros j p Hj. rewrite lookup_drop in Hj.
    apply indexed_lookup in Hj as (x & Hx & ->). apply (Hhi _ _ Hx). lia.
  - apply Forall_lookup. intros j p Hj. apply lookup_take_Some in Hj as [Hj Hjk].
    apply indexed_lookup in Hj as (x & Hx & ->). by apply (Hlo _ _ Hx).
Qed.

(** The ranks of a vector that grows strictly are the positions. *)
Lemma ranks_increasing (v : list double) :
  increasing v -> ranks v = seqZ 0 (Z.of_nat (length v)).
Proof.
  intros Hinc. unfold ranks. apply list_eq. intros i.
  change (map ?f ?l) with (f <$> l). rewrite list_lookup_fmap.
  destruct (decide (i < length v)%nat) as [Hi|Hi].
  2:{ by rewrite lookup_seqZ_ge by lia. }
  rewrite lookup_seqZ_lt by lia. simpl. f_equal.
  destruct (lookup_lt_is_Some_2 v i Hi) as [x Hx].
  unfold sorted_position. rewrite (vget_lookup _ _ _ _ Hx).
  rewrite (count_prefix v _ i); [done| | |lia].
  - intros j y Hy Hj. by apply (dlt_pair_lt y x), (Hinc j i).
  - intros j y Hy Hj. apply not_true_iff_false.
    destruct (decide (j = i)) as [->|Hne].
    + assert (y = x) as -> by congruence. apply pair_lt_irrefl.
    + apply (dlt_pair_lt x y), (Hinc i j); [done|done|lia].
Qed.

(** The ranks of a vector that falls strictly are the positions
    reversed. *)
Lemma ranks_decreasing (v : list double) :
  decreasing v -> ranks v = rev (seqZ 0 (Z.of_nat (length v))).
Proof.
  intros Hdec. rewrite rev_seqZ. unfold ranks. apply list_eq. intros i.
  change (map ?f ?l) with (f <$> l). rewrite !list_lookup_fmap.
  destruct (decide (i < length v)%nat) as [Hi|Hi].
  2:{ by rewrite lookup_seqZ_ge by lia. }
  rewrite lookup_seqZ_lt by lia. simpl. f_equal.
  destruct (lookup_lt_is_Some_2 v i Hi) as [x Hx].
  unfold sorted_position. rewrite (vget_lookup _ _ _ _ Hx).
  rewrite (count_suffix v _ (Datatypes.S i)); [lia| | |lia].
  - intros j y Hy Hj. apply not_true_iff_false.
    destruct (decide (j = i)) as [->|Hne].
    + assert (y = x) as -> by congruence. apply pair_lt_irrefl.
    + apply (dlt_pair_lt x y), (Hdec j i); [done|done|lia].
  - intros j y Hy Hj. apply (dlt_pair_lt y x), (Hdec i j); [done|done|lia].
Qed.








(** Whatever the factorization: an iteration whose first realization
    grows strictly with the index and whose second falls strictly scores
    the identity ranking against its reverse. *)
Lemma design_rho_mirror {normal_distribution generator : Type}
    (mt19937 : Z -> generator) (normal_init : normal_distribution)
    (rnorm : normal_distribution -> generator ->
             double * normal_distribution * generator)
    (multQ : run_dormqr) (seed : Z) (v0 v1 : list double) :
  realizations mt19937 normal_init rnorm multQ seed = (v0, v1) ->
  Z.of_nat (length v0) = get_nobs multQ -> Z.of_nat (length v1) = get_nobs multQ ->
  increasing v0 -> decreasing v1 ->
  design_rho mt19937 normal_init rnorm multQ seed
  = spearman_rho (get_nobs multQ)
      (rev (seqZ 0 (get_nobs multQ))) (seqZ 0 (get_nobs multQ)).
Proof.
  intros Hreal Hl0 Hl1 Hinc Hdec. unfold design_rho. rewrite Hreal.
  rewrite (ranks_increasing v0 Hinc), (ranks_decreasing v1 Hdec), Hl0, Hl1.
  unfold spearman_rho. by rewrite sum_sq_diff_sym.
Qed.

(** For 262150 observations that value is [-(1 + 2^-51)]. *)
Lemma design_rho_reversed {normal_distribution generator : Type}
    (mt19937 : Z -> generator) (normal_init : normal_distribution)
    (rnorm : normal_distribution -> generator ->
             double * normal_distribution * generator)
    (multQ : run_dormqr) (seed : Z) (v0 v1 : list double) :
  get_nobs multQ = 262150 ->
  realizations mt19937 normal_init rnorm multQ seed = (v0, v1) ->
  Z.of_nat (length v0) = get_nobs multQ -> Z.of_nat (length v1) = get_nobs multQ ->
  increasing v0 -> decreasing v1 ->
  design_rho mt19937 normal_init rnorm multQ seed
  = S754_finite true 4503599627370498 (-52).
Proof.
  intros HN Hreal Hl0 Hl1 Hinc Hdec.
  etransitivity; [exact (design_rho_mirror _ _ _ _ _ _ _ Hreal Hl0 Hl1 Hinc Hdec)|].
  generalize spearman_rho_reversed_262150. generalize (get_nobs multQ) HN.
  intros N ->. intros H; exact H.
Qed.



(** ** The trace of a successful call *)

Lemma emits_ret {A} (a : A) : emits (ret a) [].
Proof. intros t. exists a. unfold ret. by rewrite app_nil_r. Qed.

Lemma emits_emit e : emits (emit e) [e].
Proof. intros t. by exists tt. Qed.

Lemma emits_bind {A B} (m : M A) (k : A -> M B) e1 e2 :
  emits m e1 -> (forall a, emits (k a) e2) -> emits (m ≫= k) (e1 ++ e2).
Proof.
  intros Hm Hk t. destruct (Hm t) as (a & E).
  destruct (Hk a (t ++ e1)) as (b & E'). exists b.
  rewrite (bind_returned _ _ _ _ _ E), E'. by rewrite app_assoc.
Qed.

Lemma emits_forM_iter {S : Type} (evs : Z -> list event) (n : nat) (i : Z)
    (body : Z -> S -> M S) (s : S) :
  (forall j s', emits (body j s') (evs j)) ->
  emits (forM_iter n i body s) (concat (map evs (seqZ i (Z.of_nat n)))).
Proof.
  intros Hb. revert i s. induction n as [|n IH]; intros i s.
  - apply emits_ret.
  - rewrite (seqZ_cons i (Z.of_nat (Datatypes.S n))) by lia.
    replace (Z.pred (Z.of_nat (Datatypes.S n))) with (Z.of_nat n) by lia.
    cbn [map concat forM_iter].
    apply emits_bind; [apply Hb|]. intros s'. apply IH.
Qed.

Lemma emits_forM_iter_const {S : Type} (evs : list event) (n : nat) (i : Z)
    (body : Z -> S -> M S) (s : S) :
  (forall j s', emits (body j s') evs) ->
  emits (forM_iter n i body s) (concat (replicate n evs)).
Proof.
  intros Hb. revert i s. induction n as [|n IH]; intros i s.
  - apply emits_ret.
  - cbn [replicate concat forM_iter].
    apply emits_bind; [apply Hb|]. intros s'. apply IH.
Qed.

Lemma concat_singletons {A} (x : A) (n : nat) :
  concat (replicate n [x]) = replicate n x.
Proof. induction n as [|n IH]; [done|]. simpl. by rewrite IH. Qed.

Ltac emits_step :=
  lazymatch goal with
  | |- emits (ret _) [] => apply emits_ret
  | |- emits (mret _) [] => apply emits_ret
  | |- emits (emit _) _ => apply emits_emit
  | |- emits (match ?x with (_, _) => _ end) _ => destruct x
  | |- forall _, _ => intro
  end.

Section Traces.

Variable generator : Type.
Variable mt19937 : Z -> generator.
Variable shuffle : list Z -> generator -> list Z.
Variable normal_distribution : Type.
Variable normal_init : normal_distribution.
Variable rnorm :
  normal_distribution -> generator -> double * normal_distribution * generator.
Variable sort : list (double * Z) -> list (double * Z).

Local Abbreviation null_rho := (get_null_rho generator mt19937 shuffle).
Local Abbreviation mode_body :=
  (simulate_mode generator normal_distribution rnorm sort).
Local Abbreviation iteration_body :=
  (design_iteration generator mt19937 normal_distribution normal_init rnorm sort).
Local Abbreviation null_rho_design :=
  (get_null_rho_design generator mt19937 normal_distribution normal_init rnorm sort).
Local Abbreviation rnorm_test :=
  (test_rnorm generator mt19937 normal_distribution normal_init rnorm).

Lemma emits_new_generator seed :
  emits (new_generator generator mt19937 seed) [EvSeed seed].
Proof.
  unfold new_generator. change [EvSeed seed] with ([EvSeed seed] ++ []).
  apply emits_bind; repeat emits_step.
Qed.

Lemma emits_cpp_rnorm d g :
  emits (cpp_rnorm generator normal_distribution rnorm d g) [EvNormal].
Proof.
  unfold cpp_rnorm. change [EvNormal] with ([EvNormal] ++ []).
  apply emits_bind; repeat emits_step.
Qed.

Lemma emits_draws {V : Type} (n : nat) (i : Z) (v : list V)
    (put : list V -> Z -> double -> list V) d g :
  emits (forM_iter n i
           (fun col '(rhs, d, g) =>
              '(x, d, g) ← cpp_rnorm generator normal_distribution rnorm d g;
              ret (put rhs col x, d, g))
           (v, d, g))
        (replicate n EvNormal).
Proof.
  rewrite <- concat_singletons. apply emits_forM_iter_const.
  intros j [[r d'] g']. change [EvNormal] with ([EvNormal] ++ []).
  apply emits_bind; [apply emits_cpp_rnorm|]. repeat emits_step.
Qed.

Lemma emits_simulate_mode multQ mode s :
  emits (mode_body multQ mode s) (mode_events multQ).
Proof.
  destruct s as [[w d] g]. unfold simulate_mode, mode_events, forM_range. cbv zeta.
  apply emits_bind.
  - apply (emits_draws _ _ _ (fun rhs col x => vset rhs col x)).
  - intros [[r d'] g']. rewrite <- (app_nil_r [EvRun]).
    apply emits_bind; [|repeat emits_step].
    unfold multQ_run. rewrite <- (app_nil_r [EvRun]).
    apply emits_bind; repeat emits_step.
Qed.

Lemma emits_design_iteration multQ mult Seeds it s :
  emits (iteration_body multQ mult Seeds it s) (iteration_events multQ (vget 0 Seeds it)).
Proof.
  destruct s as [w output]. unfold design_iteration, iteration_events, forM_range.
  cbv zeta. change (Z.to_nat (2 - 0)) with 2%nat.
  change (EvSeed ?s :: ?l) with ([EvSeed s] ++ l).
  apply emits_bind; [apply emits_new_generator|]. intros g.
  rewrite <- (app_nil_r (_ ++ _)).
  apply emits_bind.
  - cbn [forM_iter]. apply emits_bind; [apply emits_simulate_mode|]. intros s1.
    rewrite <- (app_nil_r (mode_events multQ)).
    apply emits_bind; [apply emits_simulate_mode|]. intros s2. apply emits_ret.
  - repeat emits_step.
Qed.

(** X1: a successful call of the unconstrained sampler constructs one
    generator per seed, in the order of the seeds, and calls the shuffle
    once with each; it draws no deviate and applies no transform. *)
Theorem get_null_rho_trace cells iters seeds t :
  1 < cells -> 0 <= iters -> Z.of_nat (length seeds) = iters ->
  exists out,
    null_rho cells iters seeds t =
    (Returned out, t ++ concat (map (fun seed => [EvSeed seed; EvShuffle]) seeds)).
Proof.
  intros Hc Hi Hs. unfold get_null_rho.
  destruct (Z.leb_spec cells 1); [lia|].
  destruct (Z.ltb_spec iters 0); [lia|].
  destruct (Z.eqb_spec (Z.of_nat (length seeds)) iters); [simpl|lia].
  rewrite <- (map_vget_seqZ 0 (fun seed => [EvSeed seed; EvShuffle]) seeds).
  rewrite <- (app_nil_r (concat _)).
  revert t. apply emits_bind; [|repeat emits_step].
  unfold forM_range. replace (Z.to_nat (iters - 0)) with (length seeds) by lia.
  apply (emits_forM_iter (fun it => [EvSeed (vget 0 seeds it); EvShuffle])).
  intros j [r o].
  change [EvSeed ?s; EvShuffle] with ([EvSeed s] ++ [EvShuffle] ++ []).
  apply emits_bind; [apply emits_new_generator|]. intros g.
  apply emits_bind; [|repeat emits_step].
  unfold std_shuffle. change [EvShuffle] with ([EvShuffle] ++ []).
  apply emits_bind; repeat emits_step.
Qed.

(** X2: a successful call of the design-adjusted sampler does, for each
    seed in order: one generator construction, then twice
    [Nobs - Ncoef] deviates followed by one application of the orthogonal
    transform; it never shuffles. *)
Theorem get_null_rho_design_trace multQ iters seeds t :
  0 <= get_ncoefs multQ <= get_nobs multQ ->
  0 < iters -> Z.of_nat (length seeds) = iters ->
  exists out,
    null_rho_design multQ iters seeds t =
    (Returned out, t ++ concat (map (iteration_events multQ) seeds)).
Proof.
  intros _ Hi Hs. unfold get_null_rho_design.
  destruct (Z.leb_spec iters 0); [lia|].
  destruct (Z.eqb_spec (Z.of_nat (length seeds)) iters); [simpl|lia].
  rewrite <- (map_vget_seqZ 0 (iteration_events multQ) seeds).
  rewrite <- (app_nil_r (concat _)).
  revert t. apply emits_bind; [|repeat emits_step].
  unfold forM_range. replace (Z.to_nat (iters - 0)) with (length seeds) by lia.
  apply (emits_forM_iter (fun it => iteration_events multQ (vget 0 seeds it))).
  intros j s. apply emits_design_iteration.
Qed.

End Traces.

(** ** The diagnostic of the random number layer *)

Lemma draw_normals_length {normal_distribution generator : Type}
    (rnorm : normal_distribution -> generator ->
             double * normal_distribution * generator) n d g :
  length (draw_normals rnorm n d g).1.1 = n.
Proof.
  revert d g. induction n as [|n IH]; intros d g; simpl; [done|].
  destruct (rnorm d g) as [[x d1] g1]. specialize (IH d1 g1).
  destruct (draw_normals rnorm n d1 g1) as [[xs d2] g2]. simpl in *. by rewrite IH.
Qed.

(** Drawing [a + b] deviates is drawing [a], then [b] more. *)
Lemma draw_normals_app {normal_distribution generator : Type}
    (rnorm : normal_distribution -> generator ->
             double * normal_distribution * generator) a b d g :
  draw_normals rnorm (a + b) d g =
  let '(xs, d1, g1) := draw_normals rnorm a d g in
  let '(ys, d2, g2) := draw_normals rnorm b d1 g1 in
  (xs ++ ys, d2, g2).
Proof.
  revert d g. induction a as [|a IH]; intros d g; simpl.
  - by destruct (draw_normals rnorm b d g) as [[ys d2] g2].
  - destruct (rnorm d g) as [[x d1] g1]. rewrite IH.
    destruct (draw_normals rnorm a d1 g1) as [[xs d2] g2].
    by destruct (draw_normals rnorm b d2 g2) as [[ys d3] g3].
Qed.

Section Diagnostic.

Variable generator : Type.
Variable mt19937 : Z -> generator.
Variable normal_distribution : Type.
Variable normal_init : normal_distribution.
Variable rnorm :
  normal_distribution -> generator -> double * normal_distribution * generator.

Local Abbreviation rnorm_test :=
  (test_rnorm generator mt19937 normal_distribution normal_init rnorm).

(** What a call with a count that is not negative does. *)
Lemma test_rnorm_run N seed t :
  0 <= N ->
  rnorm_test N seed t =
    (Returned (deviates mt19937 normal_init rnorm (Z.to_nat N) seed),
     t ++ EvSeed seed :: replicate (Z.to_nat N) EvNormal).
Proof.
  intros HN. unfold test_rnorm, deviates. cbv zeta.
  erewrite bind_returned; [|unfold new_generator; munfold; reflexivity].
  unfold numeric_vector. destruct (Z.ltb_spec N 0); [lia|].
  erewrite bind_returned; [|reflexivity].
  rewrite length_replicate, Z2Nat.id by done. unfold forM_range.
  replace (Z.to_nat (N - 0)) with (Z.to_nat N) by lia.
  destruct (draw_normals rnorm (Z.to_nat N) normal_init (mt19937 seed))
    as [[xs d'] g'] eqn:Hdraw.
  destruct (draw_loop generator normal_distribution rnorm (Z.to_nat N) O 0
              (replicate (Z.to_nat N) dzero) normal_init (mt19937 seed)
              (t ++ [EvSeed seed]) xs d' g') as (t' & E);
    [done|rewrite length_replicate; lia|done|].
  destruct (emits_draws generator normal_distribution rnorm (Z.to_nat N) 0
              (replicate (Z.to_nat N) dzero) (fun rhs col x => vset rhs col x)
              normal_init (mt19937 seed) (t ++ [EvSeed seed])) as (a & E').
  rewrite E in E'. injection E' as <- ->.
  erewrite bind_returned; [|exact E]. munfold. simpl.
  rewrite drop_ge by (rewrite length_replicate; lia).
  by rewrite app_nil_r, <- app_assoc.
Qed.

(** X3: for a count [0 <= N] the diagnostic returns exactly [N] values,
    the deviates that [N] successive calls of the distribution produce
    from the generator made from the seed, in the order of the calls; it
    constructs one generator and makes [N] draws. *)
Theorem test_rnorm_values N seed t :
  0 <= N ->
  rnorm_test N seed t =
    (Returned (deviates mt19937 normal_init rnorm (Z.to_nat N) seed),
     t ++ EvSeed seed :: replicate (Z.to_nat N) EvNormal) /\
  Z.of_nat (length (deviates mt19937 normal_init rnorm (Z.to_nat N) seed)) = N.
Proof.
  intros HN. split; [by apply test_rnorm_run|].
  unfold deviates. rewrite draw_normals_length. lia.
Qed.

(** X4: asking the diagnostic for more values extends the sequence: the
    values for a count [n] are the first [n] of the values for any larger
    count with the same seed. *)
Theorem test_rnorm_prefix n m seed t :
  0 <= n <= m ->
  exists xs ys,
    (rnorm_test n seed t).1 = Returned xs /\
    (rnorm_test m seed t).1 = Returned ys /\
    xs = take (Z.to_nat n) ys.
Proof.
  intros Hnm.
  eexists _, _. rewrite (test_rnorm_run n), (test_rnorm_run m) by lia. do 2 (split; [reflexivity|]).
  unfold deviates.
  replace (Z.to_nat m) with (Z.to_nat n + Z.to_nat (m - n))%nat by lia.
  rewrite draw_normals_app.
  pose proof (draw_normals_length rnorm (Z.to_nat n) normal_init (mt19937 seed)) as Hl.
  destruct (draw_normals rnorm (Z.to_nat n) normal_init (mt19937 seed)) as [[xs d1] g1].
  destruct (draw_normals rnorm (Z.to_nat (m - n)) d1 g1) as [[ys d2] g2].
  simpl in *. by rewrite take_app_length' by done.
Qed.

End Diagnostic.

(** ** Determinism *)
Section Determinism.

Variable generator : Type.
Variable mt19937 : Z -> generator.
Variable shuffle : list Z -> generator -> list Z.
Variable normal_distribution : Type.
Variable normal_init : normal_distribution.
Variable rnorm :
  normal_distribution -> generator -> double * normal_distribution * generator.
Variable sort : list (double * Z) -> list (double * Z).
Variable multQ : run_dormqr.

Hypothesis shuffle_perm : forall v g, Permutation (shuffle v g) v.
Hypothesis sort_ok : sort_contract sort.
Hypothesis coef_range : 0 <= get_ncoefs multQ <= get_nobs multQ.
Hypothesis run_length : forall v, length (run multQ v) = length v.

Local Abbreviation Nobs := (get_nobs multQ).
Local Abbreviation null_rho := (get_null_rho generator mt19937 shuffle).
Local Abbreviation null_rho_design :=
  (get_null_rho_design generator mt19937 normal_distribution normal_init rnorm sort multQ).
Local Abbreviation rnorm_test :=
  (test_rnorm generator mt19937 normal_distribution normal_init rnorm).

(** A returned value of the unconstrained sampler is its closed form. *)
Lemma get_null_rho_returned cells iters seeds t out t' :
  is_int cells ->
  null_rho cells iters seeds t = (Returned out, t') ->
  out = map (fun seed =>
               spearman_rho cells (permuted mt19937 shuffle cells seed) (seqZ 0 cells))
            seeds.
Proof.
  intros Hint E.
  destruct (decide (cells <= 1 \/ iters < 0 \/ Z.of_nat (length seeds) <> iters))
    as [Hbad|Hok].
  - destruct (get_null_rho_rejects generator mt19937 shuffle cells iters seeds t Hbad)
      as (msg & E'). congruence.
  - destruct (get_null_rho_closed_form generator mt19937 shuffle shuffle_perm
                cells iters seeds t) as (t'' & E'); [lia|done|lia|lia|].
    congruence.
Qed.

(** A returned value of the design-adjusted sampler is its closed form. *)
Lemma get_null_rho_design_returned iters seeds t out t' :
  is_int Nobs -> length (rhs_init multQ) = Z.to_nat Nobs ->
  Forall (realizations_no_nan mt19937 normal_init rnorm multQ) seeds ->
  null_rho_design iters seeds t = (Returned out, t') ->
  out = map (design_rho mt19937 normal_init rnorm multQ) seeds.
Proof.
  intros Hint Hrhs Hnan E.
  destruct (decide (iters <= 0 \/ Z.of_nat (length seeds) <> iters)) as [Hbad|Hok].
  - destruct (get_null_rho_design_rejects generator mt19937 normal_distribution
                normal_init rnorm sort multQ iters seeds t Hbad) as (msg & E').
    congruence.
  - destruct (get_null_rho_design_closed_form generator mt19937 normal_distribution
                normal_init rnorm sort multQ sort_ok coef_range run_length
                iters seeds t) as (t'' & E'); [lia|lia|done|done|done|].
    congruence.
Qed.

(** C6: the three procedures are deterministic.  Two calls with the same
    arguments return the same sequence of doubles, whatever happened
    before either call.  Beyond that, nothing but the seed enters a value:
    the generator is made anew from the seed in every iteration, the
    distribution object is made anew as well, and the reused buffers
    carry nothing over, so that a seed gives the same double at every
    position of every seed sequence and in every call; and the diagnostic
    with one seed returns the same deviates, the shorter sequence being
    the beginning of the longer. *)
Theorem procedures_deterministic :
  (forall cells iters seeds N seed t1 t2,
     (null_rho cells iters seeds t1).1 = (null_rho cells iters seeds t2).1 /\
     (null_rho_design iters seeds t1).1 = (null_rho_design iters seeds t2).1 /\
     (rnorm_test N seed t1).1 = (rnorm_test N seed t2).1) /\
  (forall cells iters1 iters2 seeds1 seeds2 t1 t2 out1 out2 t1' t2' (i j : nat) seed,
     is_int cells ->
     null_rho cells iters1 seeds1 t1 = (Returned out1, t1') ->
     null_rho cells iters2 seeds2 t2 = (Returned out2, t2') ->
     seeds1 !! i = Some seed -> seeds2 !! j = Some seed ->
     exists x, out1 !! i = Some x /\ out2 !! j = Some x) /\
  (forall iters1 iters2 seeds1 seeds2 t1 t2 out1 out2 t1' t2' (i j : nat) seed,
     is_int Nobs -> length (rhs_init multQ) = Z.to_nat Nobs ->
     Forall (realizations_no_nan mt19937 normal_init rnorm multQ) seeds1 ->
     Forall (realizations_no_nan mt19937 normal_init rnorm multQ) seeds2 ->
     null_rho_design iters1 seeds1 t1 = (Returned out1, t1') ->
     null_rho_design iters2 seeds2 t2 = (Returned out2, t2') ->
     seeds1 !! i = Some seed -> seeds2 !! j = Some seed ->
     exists x, out1 !! i = Some x /\ out2 !! j = Some x) /\
  (forall n m seed t1 t2 xs ys t1' t2',
     0 <= n <= m ->
     rnorm_test n seed t1 = (Returned xs, t1') ->
     rnorm_test m seed t2 = (Returned ys, t2') ->
     xs = take (Z.to_nat n) ys).
Proof.
  split; [|split; [|split]].
  - intros cells iters seeds N seed t1 t2.
    split; [|split]; apply uniform_fst.
    + apply uniform_get_null_rho.
    + apply uniform_get_null_rho_design.
    + apply uniform_test_rnorm.
  - intros cells iters1 iters2 seeds1 seeds2 t1 t2 out1 out2 t1' t2' i j seed
      Hint E1 E2 Hi Hj.
    rewrite (get_null_rho_returned _ _ _ _ _ _ Hint E1).
    rewrite (get_null_rho_returned _ _ _ _ _ _ Hint E2).
    eexists. change (map ?f ?l) with (f <$> l).
    rewrite !list_lookup_fmap, Hi, Hj. done.
  - intros iters1 iters2 seeds1 seeds2 t1 t2 out1 out2 t1' t2' i j seed
      Hint Hrhs Hn1 Hn2 E1 E2 Hi Hj.
    rewrite (get_null_rho_design_returned _ _ _ _ _ Hint Hrhs Hn1 E1).
    rewrite (get_null_rho_design_returned _ _ _ _ _ Hint Hrhs Hn2 E2).
    eexists. change (map ?f ?l) with (f <$> l).
    rewrite !list_lookup_fmap, Hi, Hj. done.
  - intros n m seed t1 t2 xs ys t1' t2' Hnm E1 E2.
    rewrite (test_rnorm_run generator mt19937 normal_distribution normal_init rnorm)
      in E1, E2 by lia.
    injection E1 as <- _. injection E2 as <- _. unfold deviates.
    replace (Z.to_nat m) with (Z.to_nat n + Z.to_nat (m - n))%nat by lia.
    rewrite draw_normals_app.
    pose proof (draw_normals_length rnorm (Z.to_nat n) normal_init (mt19937 seed)) as Hl.
    destruct (draw_normals rnorm (Z.to_nat n) normal_init (mt19937 seed)) as [[xs d1] g1].
    destruct (draw_normals rnorm (Z.to_nat (m - n)) d1 g1) as [[ys d2] g2].
    simpl in *. by rewrite take_app_length' by done.
Qed.

End Determinism.

Lemma procedures_deterministic_witness :
  (exists out1 out2 t1' t2' x,
     get_null_rho Instance.generator Instance.seed_generator Instance.shuffle
       5 2 [7; 8] [] = (Returned out1, t1') /\
     get_null_rho Instance.generator Instance.seed_generator Instance.shuffle
       5 3 [9; 8; 7] [EvShuffle] = (Returned out2, t2') /\
     out1 !! 1%nat = Some x /\ out2 !! 1%nat = Some x) /\
  (exists out1 out2 t1' t2' x,
     get_null_rho_design Instance.generator Instance.seed_generator
       Instance.normal_distribution tt Instance.rnorm Instance.insertion_sort
       (Instance.identityQ 4 1) 2 [3; 4] [] = (Returned out1, t1') /\
     get_null_rho_design Instance.generator Instance.seed_generator
       Instance.normal_distribution tt Instance.rnorm Instance.insertion_sort
       (Instance.identityQ 4 1) 3 [4; 5; 3] [EvRun] = (Returned out2, t2') /\
     out1 !! 0%nat = Some x /\ out2 !! 2%nat = Some x) /\
  (exists xs ys t1' t2',
     test_rnorm Instance.generator Instance.seed_generator
       Instance.normal_distribution tt Instance.rnorm 2 7 [] = (Returned xs, t1') /\
     test_rnorm Instance.generator Instance.seed_generator
       Instance.normal_distribution tt Instance.rnorm 5 7 [EvRun] = (Returned ys, t2') /\
     xs = take (Z.to_nat 2) ys).
Proof.
  assert (0 <= get_ncoefs (Instance.identityQ 4 1) <= get_nobs (Instance.identityQ 4 1))
    as Hcoef by (simpl; lia).
  destruct (procedures_deterministic Instance.generator Instance.seed_generator
              Instance.shuffle Instance.normal_distribution tt Instance.rnorm
              Instance.insertion_sort (Instance.identityQ 4 1)
              instance_shuffle_perm insertion_sort_contract Hcoef (fun v => eq_refl))
    as (_ & Hu & Hd & Hr).
  split; [|split].
  - assert (exists out t',
              get_null_rho Instance.generator Instance.seed_generator Instance.shuffle
                5 2 [7; 8] [] = (Returned out, t'))
      as (out1 & t1' & E1) by (eexists _, _; vm_compute; reflexivity).
    assert (exists out t',
              get_null_rho Instance.generator Instance.seed_generator Instance.shuffle
                5 3 [9; 8; 7] [EvShuffle] = (Returned out, t'))
      as (out2 & t2' & E2) by (eexists _, _; vm_compute; reflexivity).
    destruct (Hu 5 2 3 [7; 8] [9; 8; 7] [] [EvShuffle] out1 out2 t1' t2' 1%nat 1%nat 8)
      as (x & H1 & H2); [unfold is_int, INT_MIN, INT_MAX; lia|exact E1|exact E2
                        |reflexivity|reflexivity|].
    exists out1, out2, t1', t2', x. repeat split; assumption.
  - assert (exists out t',
              get_null_rho_design Instance.generator Instance.seed_generator
                Instance.normal_distribution tt Instance.rnorm Instance.insertion_sort
                (Instance.identityQ 4 1) 2 [3; 4] [] = (Returned out, t'))
      as (out1 & t1' & E1) by (eexists _, _; vm_compute; reflexivity).
    assert (exists out t',
              get_null_rho_design Instance.generator Instance.seed_generator
                Instance.normal_distribution tt Instance.rnorm Instance.insertion_sort
                (Instance.identityQ 4 1) 3 [4; 5; 3] [EvRun] = (Returned out, t'))
      as (out2 & t2' & E2) by (eexists _, _; vm_compute; reflexivity).
    destruct (Hd 2 3 [3; 4] [4; 5; 3] [] [EvRun] out1 out2 t1' t2' 0%nat 2%nat 3)
      as (x & H1 & H2);
      [unfold is_int, INT_MIN, INT_MAX; simpl; lia|reflexivity
      |repeat constructor|repeat constructor|exact E1|exact E2|reflexivity|reflexivity|].
    exists out1, out2, t1', t2', x. repeat split; assumption.
  - assert (exists xs t',
              test_rnorm Instance.generator Instance.seed_generator
                Instance.normal_distribution tt Instance.rnorm 2 7 [] = (Returned xs, t'))
      as (xs & t1' & E1) by (eexists _, _; vm_compute; reflexivity).
    assert (exists ys t',
              test_rnorm Instance.generator Instance.seed_generator
                Instance.normal_distribution tt Instance.rnorm 5 7 [EvRun]
              = (Returned ys, t'))
      as (ys & t2' & E2) by (eexists _, _; vm_compute; reflexivity).
    exists xs, ys, t1', t2'. split; [exact E1|]. split; [exact E2|].
    apply (Hr 2 5 7 [] [EvRun] xs ys t1' t2'); [lia|exact E1|exact E2].
Defined.

(** ** The outcome of every call *)

Lemma forM_iter_inv {S : Type} (Inv : S -> Prop) (n : nat) (i : Z)
    (body : Z -> S -> M S) (s : S) (t : list event) :
  (forall j s' t', Inv s' -> exists s'' t'', body j s' t' = (Returned s'', t'') /\ Inv s'') ->
  Inv s ->
  exists s' t', forM_iter n i body s t = (Returned s', t') /\ Inv s'.
Proof.
  intros Hb. revert i s t. induction n as [|n IH]; intros i s t Hs; simpl.
  - by exists s, t.
  - destruct (Hb i s t Hs) as (s1 & t1 & E1 & Hs1).
    destruct (IH (i + 1) s1 t1 Hs1) as (s2 & t2 & E2 & Hs2).
    exists s2, t2. by rewrite (bind_returned _ _ _ _ _ E1).
Qed.

Lemma length_vset {A} (v : list A) (i : Z) (x : A) : length (vset v i x) = length v.
Proof. unfold vset. apply length_insert. Qed.

Section Outcomes.

Variable generator : Type.
Variable mt19937 : Z -> generator.
Variable shuffle : list Z -> generator -> list Z.

Local Abbreviation null_rho := (get_null_rho generator mt19937 shuffle).

(** X5: the outcome of every call of the unconstrained sampler.  The checks
    are made in the order cells, iterations, seeds, and the first that
    fails decides the message; a call that passes all three returns one
    value per iteration, with nothing assumed of the shuffle. *)
Theorem get_null_rho_outcome cells iters seeds t :
  (cells <= 1 ->
   null_rho cells iters seeds t =
     (Thrown "number of cells should be greater than 2", t)) /\
  (1 < cells -> iters < 0 ->
   null_rho cells iters seeds t =
     (Thrown "number of iterations should be non-negative", t)) /\
  (1 < cells -> 0 <= iters -> Z.of_nat (length seeds) <> iters ->
   null_rho cells iters seeds t =
     (Thrown "number of iterations and seeds should be the same", t)) /\
  (1 < cells -> 0 <= iters -> Z.of_nat (length seeds) = iters ->
   exists out t',
     null_rho cells iters seeds t = (Returned out, t') /\
     Z.of_nat (length out) = iters).
Proof.
  unfold get_null_rho.
  destruct (Z.leb_spec cells 1); [repeat split; (done || lia)|].
  destruct (Z.ltb_spec iters 0); [repeat split; (done || lia)|].
  destruct (Z.eqb_spec (Z.of_nat (length seeds)) iters);
    [|repeat split; (done || lia)].
  simpl. repeat split; try lia. intros _ _ _.
  unfold forM_range.
  lazymatch goal with
  | |- context [forM_iter ?n 0 ?b ?s0] =>
      destruct (forM_iter_inv
                  (fun s : list Z * list double => Z.of_nat (length s.2) = iters)
                  n 0 b s0 t) as ([r o] & t' & E & Ho)
  end.
  - intros j [r o] t0 Ho.
    unfold new_generator, std_shuffle. munfold. simpl.
    eexists _, _. split; [reflexivity|]. simpl. by rewrite length_vset.
  - simpl. rewrite length_replicate. lia.
  - rewrite (bind_returned _ _ _ _ _ E). by exists o, t'.
Qed.

End Outcomes.

(** ** More on the unconstrained sampler *)

Lemma sum_sq_diag (l : list Z) : sum_sq l l = 0.
Proof.
  unfold sum_sq. rewrite zip_diag.
  induction l as [|x l IH]; [done|]. cbn [fmap list_fmap foldr]. rewrite IH. lia.
Qed.

(** Two equal rankings of [2 <= N <= N_exact] items score exactly 1. *)
Lemma spearman_rho_diag (N : Z) (l : list Z) :
  2 <= N <= N_exact -> spearman_rho N l l = done_.
Proof.
  intros HN. unfold spearman_rho.
  rewrite sum_sq_diff_exact by (rewrite sum_sq_diag; done).
  rewrite sum_sq_diag.
  destruct (rho_mult_spec N HN) as (mq & eq & -> & _).
  reflexivity.
Qed.

Section UnconstrainedMore.

Variable generator : Type.
Variable mt19937 : Z -> generator.
Variable shuffle : list Z -> generator -> list Z.

Hypothesis shuffle_perm : forall v g, Permutation (shuffle v g) v.

Local Abbreviation null_rho := (get_null_rho generator mt19937 shuffle).
Local Abbreviation ranking_of := (permuted mt19937 shuffle).

(** X6: the value for a seed depends on that seed alone, so the seeds
    can be split over several calls: the values for [seeds1 ++ seeds2]
    are the values for [seeds1] followed by the values for [seeds2]. *)
Theorem get_null_rho_batches cells seeds1 seeds2 t :
  1 < cells -> is_int cells ->
  exists out1 out2,
    (null_rho cells (Z.of_nat (length seeds1)) seeds1 t).1 = Returned out1 /\
    (null_rho cells (Z.of_nat (length seeds2)) seeds2 t).1 = Returned out2 /\
    (null_rho cells (Z.of_nat (length (seeds1 ++ seeds2))) (seeds1 ++ seeds2) t).1
      = Returned (out1 ++ out2).
Proof.
  intros Hc Hint.
  destruct (get_null_rho_closed_form generator mt19937 shuffle shuffle_perm
              cells (Z.of_nat (length seeds1)) seeds1 t) as (t1 & E1);
    [done|done|lia|done|].
  destruct (get_null_rho_closed_form generator mt19937 shuffle shuffle_perm
              cells (Z.of_nat (length seeds2)) seeds2 t) as (t2 & E2);
    [done|done|lia|done|].
  destruct (get_null_rho_closed_form generator mt19937 shuffle shuffle_perm
              cells (Z.of_nat (length (seeds1 ++ seeds2))) (seeds1 ++ seeds2) t)
    as (t3 & E3); [done|done|lia|done|].
  eexists _, _. rewrite E1, E2, E3. simpl. by rewrite map_app.
Qed.

(** X7: when the shuffle leaves the identity ranking in place, the value
    for that seed is exactly 1. *)
Theorem identity_ranking_rho cells iters seeds t (it : nat) seed :
  2 <= cells <= N_exact -> 0 <= iters -> Z.of_nat (length seeds) = iters ->
  seeds !! it = Some seed -> ranking_of cells seed = seqZ 0 cells ->
  exists out t',
    null_rho cells iters seeds t = (Returned out, t') /\ out !! it = Some done_.
Proof.
  intros Hc Hi Hs Hit Hid.
  destruct (get_null_rho_closed_form generator mt19937 shuffle shuffle_perm
              cells iters seeds t) as (t' & E); [lia| |done|done|].
  { unfold is_int, INT_MIN, INT_MAX, N_exact in *. lia. }
  eexists _, t'. split; [exact E|].
  change (map ?f seeds) with (f <$> seeds).
  rewrite list_lookup_fmap, Hit. simpl. rewrite Hid.
  by rewrite spearman_rho_diag.
Qed.

(** X8: up to [N_exact] cells only three operations round.  The sum of
    squared differences is accumulated without error, being an integer
    [S] with [3 S <= N (N^2 - 1) < 2^53], and so is the denominator of
    the constant; the value is [1 - (6 / D) * S] with one rounding in the
    quotient, one in the product and one in the difference. *)
Theorem get_null_rho_roundings cells iters seeds t :
  2 <= cells <= N_exact -> 0 <= iters -> Z.of_nat (length seeds) = iters ->
  exists out t',
    null_rho cells iters seeds t = (Returned out, t') /\
    forall (it : nat) seed, seeds !! it = Some seed ->
      let S := sum_sq (ranking_of cells seed) (seqZ 0 cells) in
      let D := cells * (cells * cells - 1) in
      0 <= 3 * S <= D /\ D < 2 ^ 53 /\
      out !! it = Some (done_ - dsix / double_of_int D * double_of_int S)%D.
Proof.
  intros Hc Hi Hs.
  destruct (get_null_rho_closed_form generator mt19937 shuffle shuffle_perm
              cells iters seeds t) as (t' & E); [lia| |done|done|].
  { unfold is_int, INT_MIN, INT_MAX, N_exact in *. lia. }
  eexists _, t'. split; [exact E|]. intros it seed Hit S D.
  assert (3 * S <= D) as HS.
  { apply sum_sq_perm_bound; [lia|apply shuffle_perm|done]. }
  assert (D < 2 ^ 53) as HD.
  { unfold D, N_exact in *. nia. }
  pose proof (sum_sq_nonneg (ranking_of cells seed) (seqZ 0 cells)).
  split; [fold S in H; lia|]. split; [done|].
  change (map ?f seeds) with (f <$> seeds).
  rewrite list_lookup_fmap, Hit. simpl. unfold spearman_rho.
  rewrite rho_mult_exact by done.
  rewrite sum_sq_diff_exact by (fold S; lia). done.
Qed.

(** X9: with two cells, the fewest the sampler accepts, a ranking is
    either kept or swapped, and every value is exactly 1 or exactly -1. *)
Theorem get_null_rho_two_cells iters seeds t :
  0 <= iters -> Z.of_nat (length seeds) = iters ->
  exists out t',
    null_rho 2 iters seeds t = (Returned out, t') /\
    Forall (fun x => x = done_ \/ x = double_of_int (-1)) out.
Proof.
  intros Hi Hs.
  destruct (get_null_rho_closed_form generator mt19937 shuffle shuffle_perm
              2 iters seeds t) as (t' & E); [lia|done|done|done|].
  eexists _, t'. split; [exact E|].
  apply Forall_fmap, Forall_forall. intros seed _. simpl. unfold permuted.
  change (seqZ 0 2) with [0; 1].
  pose proof (shuffle_perm [0; 1] (mt19937 seed)) as Hp.
  symmetry in Hp. apply Permutation_length_2_inv in Hp as [-> | ->].
  - left. reflexivity.
  - right. reflexivity.
Qed.

End UnconstrainedMore.

(** ** More on the design-adjusted sampler *)
Section DesignMore.

Variable generator : Type.
Variable mt19937 : Z -> generator.
Variable normal_distribution : Type.
Variable normal_init : normal_distribution.
Variable rnorm :
  normal_distribution -> generator -> double * normal_distribution * generator.
Variable sort : list (double * Z) -> list (double * Z).
Variable multQ : run_dormqr.

Hypothesis sort_ok : sort_contract sort.
Hypothesis coef_range : 0 <= get_ncoefs multQ <= get_nobs multQ.
Hypothesis run_length : forall v, length (run multQ v) = length v.

Local Abbreviation Nobs := (get_nobs multQ).
Local Abbreviation Ncoef := (get_ncoefs multQ).
Local Abbreviation null_rho_design :=
  (get_null_rho_design generator mt19937 normal_distribution normal_init rnorm sort multQ).
Local Abbreviation rnorm_test :=
  (test_rnorm generator mt19937 normal_distribution normal_init rnorm).
Local Abbreviation closed_form :=
  (get_null_rho_design_closed_form generator mt19937 normal_distribution normal_init
     rnorm sort multQ sort_ok coef_range run_length).

(** X10: the outcome of every call of the design-adjusted sampler.  A
    number of iterations that is not positive is refused first, then a
    number of seeds that differs from it, each with its own message; every
    other call on a factorization of [Nobs] observations whose residuals
    hold no NaN returns one value per iteration. *)
Theorem get_null_rho_design_outcome iters seeds t :
  (iters <= 0 ->
   null_rho_design iters seeds t =
     (Thrown "number of iterations should be positive", t)) /\
  (0 < iters -> Z.of_nat (length seeds) <> iters ->
   null_rho_design iters seeds t =
     (Thrown "number of iterations and seeds should be the same", t)) /\
  (0 < iters -> Z.of_nat (length seeds) = iters -> is_int Nobs ->
   length (rhs_init multQ) = Z.to_nat Nobs ->
   Forall (realizations_no_nan mt19937 normal_init rnorm multQ) seeds ->
   exists out t',
     null_rho_design iters seeds t = (Returned out, t') /\
     Z.of_nat (length out) = iters).
Proof.
  split; [|split].
  - intros Hi. unfold get_null_rho_design.
    by destruct (Z.leb_spec iters 0); [|lia].
  - intros Hi Hs. unfold get_null_rho_design.
    destruct (Z.leb_spec iters 0); [lia|].
    by destruct (Z.eqb_spec (Z.of_nat (length seeds)) iters); [lia|].
  - intros Hi Hs Hint Hrhs Hnan.
    destruct (closed_form iters seeds t) as (t' & E); try done.
    eexists _, t'. split; [exact E|]. rewrite length_map. lia.
Qed.

(** X11: the buffers that are reused from one iteration to the next carry
    nothing over: the value for a seed depends on that seed alone, and the
    values for [seeds1 ++ seeds2] are the values for [seeds1] followed by
    the values for [seeds2]. *)
Theorem get_null_rho_design_batches seeds1 seeds2 t :
  seeds1 <> [] -> seeds2 <> [] -> is_int Nobs ->
  length (rhs_init multQ) = Z.to_nat Nobs ->
  Forall (realizations_no_nan mt19937 normal_init rnorm multQ) (seeds1 ++ seeds2) ->
  exists out1 out2,
    (null_rho_design (Z.of_nat (length seeds1)) seeds1 t).1 = Returned out1 /\
    (null_rho_design (Z.of_nat (length seeds2)) seeds2 t).1 = Returned out2 /\
    (null_rho_design (Z.of_nat (length (seeds1 ++ seeds2))) (seeds1 ++ seeds2) t).1
      = Returned (out1 ++ out2).
Proof.
  intros H1 H2 Hint Hrhs Hnan.
  apply Forall_app in Hnan as Hnan'. destruct Hnan' as [Hnan1 Hnan2].
  assert (0 < Z.of_nat (length seeds1)) by (destruct seeds1; [done|simpl; lia]).
  assert (0 < Z.of_nat (length seeds2)) by (destruct seeds2; [done|simpl; lia]).
  destruct (closed_form (Z.of_nat (length seeds1)) seeds1 t) as (t1 & E1); try done.
  destruct (closed_form (Z.of_nat (length seeds2)) seeds2 t) as (t2 & E2); try done.
  destruct (closed_form (Z.of_nat (length (seeds1 ++ seeds2))) (seeds1 ++ seeds2) t)
    as (t3 & E3); try done.
  { rewrite length_app. lia. }
  eexists _, _. rewrite E1, E2, E3. simpl. by rewrite map_app.
Qed.

(** X12: without a residual subspace ([Ncoef = Nobs]) no deviate enters
    the working vector, the two realizations coincide and are ranked
    alike, and every value is exactly 1, whatever the seeds. *)
Theorem no_residual_subspace_rho iters seeds t :
  Ncoef = Nobs -> 2 <= Nobs <= N_exact ->
  0 < iters -> Z.of_nat (length seeds) = iters ->
  length (rhs_init multQ) = Z.to_nat Nobs ->
  no_nan (indexed (run multQ (replicate (Z.to_nat Nobs) dzero))) ->
  exists t',
    null_rho_design iters seeds t = (Returned (replicate (Z.to_nat iters) done_), t').
Proof.
  intros Hco Hn Hi Hs Hrhs Hnan.
  assert (forall seed,
            realizations mt19937 normal_init rnorm multQ seed =
            (run multQ (replicate (Z.to_nat Nobs) dzero),
             run multQ (replicate (Z.to_nat Nobs) dzero))) as Hreal.
  { intros seed. unfold realizations, residuals.
    rewrite Hco, Z.sub_diag. simpl. by rewrite app_nil_r. }
  destruct (closed_form iters seeds t) as (t' & E); try done.
  { unfold is_int, INT_MIN, INT_MAX, N_exact in *. lia. }
  { apply Forall_forall. intros seed _. unfold realizations_no_nan.
    by rewrite Hreal. }
  exists t'. rewrite E. do 2 f_equal.
  replace (Z.to_nat iters) with (length seeds) by lia.
  clear -Hreal Hn. induction seeds as [|seed l IH]; [done|].
  simpl. rewrite IH. f_equal. unfold design_rho. rewrite Hreal.
  by apply spearman_rho_diag.
Qed.

(** X13: a factorization with at most one observation makes every value
    NaN: the scaling constant is [6/0], an infinity, and the sum of
    squares is 0. *)
Theorem degenerate_factorization_nan iters seeds t :
  Nobs <= 1 -> 0 < iters -> Z.of_nat (length seeds) = iters ->
  length (rhs_init multQ) = Z.to_nat Nobs ->
  Forall (realizations_no_nan mt19937 normal_init rnorm multQ) seeds ->
  exists t',
    null_rho_design iters seeds t = (Returned (replicate (Z.to_nat iters) S754_nan), t').
Proof.
  intros Hn Hi Hs Hrhs Hnan.
  destruct (closed_form iters seeds t) as (t' & E); try done.
  { unfold is_int, INT_MIN, INT_MAX. lia. }
  exists t'. rewrite E. do 2 f_equal.
  replace (Z.to_nat iters) with (length seeds) by lia.
  clear -Hn coef_range run_length. induction seeds as [|seed l IH]; [done|].
  simpl. rewrite IH. f_equal. unfold design_rho.
  destruct (realizations mt19937 normal_init rnorm multQ seed) as [v0 v1] eqn:Hreal.
  destruct (realizations_length generator mt19937 normal_distribution normal_init
              rnorm multQ coef_range run_length seed v0 v1 Hreal) as [Hl0 Hl1].
  assert (Nobs = 0 \/ Nobs = 1) as [H0|H1] by lia.
  - rewrite H0 in *. destruct v0; [|done]. destruct v1; [|done]. reflexivity.
  - rewrite H1 in *.
    destruct v0 as [|x [|]]; try done. destruct v1 as [|y [|]]; try done.
    apply spearman_rho_single.
Qed.

(** X14: the deviates of an iteration are those that the diagnostic
    returns for the same seed: of the [2 (Nobs - Ncoef)] values of
    [test_rnorm], the first half fills the residual entries in mode 0 and
    the second half in mode 1. *)
Theorem design_sampler_draws_diagnostic_stream iters seeds t :
  0 < iters -> Z.of_nat (length seeds) = iters -> is_int Nobs ->
  length (rhs_init multQ) = Z.to_nat Nobs ->
  Forall (realizations_no_nan mt19937 normal_init rnorm multQ) seeds ->
  exists out t',
    null_rho_design iters seeds t = (Returned out, t') /\
    forall (it : nat) seed, seeds !! it = Some seed ->
      exists xs,
        (rnorm_test (2 * (Nobs - Ncoef)) seed t).1 = Returned xs /\
        Z.of_nat (length xs) = 2 * (Nobs - Ncoef) /\
        let k := Z.to_nat (Nobs - Ncoef) in
        let zeros := replicate (Z.to_nat Ncoef) dzero in
        out !! it =
          Some (spearman_rho Nobs (ranks (run multQ (zeros ++ take k xs)))
                                  (ranks (run multQ (zeros ++ drop k xs)))).
Proof.
  intros Hi Hs Hint Hrhs Hnan.
  destruct (closed_form iters seeds t) as (t' & E); try done.
  eexists _, t'. split; [exact E|]. intros it seed Hit.
  rewrite (test_rnorm_run generator mt19937 normal_distribution normal_init rnorm)
    by lia.
  eexists. split; [reflexivity|]. unfold deviates.
  split; [rewrite draw_normals_length; lia|]. cbv zeta.
  change (map ?f seeds) with (f <$> seeds).
  rewrite list_lookup_fmap, Hit. simpl. f_equal.
  unfold design_rho, realizations, residuals.
  set (k := Z.to_nat (Nobs - Ncoef)).
  replace (Z.to_nat (2 * (Nobs - Ncoef))) with (k + k)%nat by lia.
  rewrite draw_normals_app.
  pose proof (draw_normals_length rnorm k normal_init (mt19937 seed)) as Hl.
  destruct (draw_normals rnorm k normal_init (mt19937 seed)) as [[xs d1] g1].
  destruct (draw_normals rnorm k d1 g1) as [[ys d2] g2]. simpl in *.
  by rewrite take_app_length', drop_app_length' by done.
Qed.

End DesignMore.

(** ** The additional properties on the small instance *)

Lemma test_rnorm_values_witness :
  Instance.rnorm_test 3 7 [] =
    (Returned (deviates Instance.seed_generator tt Instance.rnorm (Z.to_nat 3) 7),
     [] ++ EvSeed 7 :: replicate (Z.to_nat 3) EvNormal) /\
  Z.of_nat (length (deviates Instance.seed_generator tt Instance.rnorm (Z.to_nat 3) 7)) = 3.
Proof.
  apply (test_rnorm_values Instance.generator Instance.seed_generator
           Instance.normal_distribution tt Instance.rnorm 3 7 []).
  lia.
Defined.

Lemma test_rnorm_prefix_witness :
  exists xs ys,
    (Instance.rnorm_test 2 7 []).1 = Returned xs /\
    (Instance.rnorm_test 5 7 []).1 = Returned ys /\
    xs = take (Z.to_nat 2) ys.
Proof.
  apply (test_rnorm_prefix Instance.generator Instance.seed_generator
           Instance.normal_distribution tt Instance.rnorm 2 5 7 []).
  lia.
Defined.

Lemma get_null_rho_outcome_witness :
  Instance.null_rho 1 (-1) [7] [] =
    (Thrown "number of cells should be greater than 2", []) /\
  Instance.null_rho 3 (-1) [7] [] =
    (Thrown "number of iterations should be non-negative", []) /\
  Instance.null_rho 3 2 [7] [] =
    (Thrown "number of iterations and seeds should be the same", []) /\
  (exists out t',
     Instance.null_rho 3 2 [7; 8] [] = (Returned out, t') /\
     Z.of_nat (length out) = 2).
Proof.
  pose proof (get_null_rho_outcome Instance.generator Instance.seed_generator
                Instance.shuffle) as H.
  split; [|split; [|split]].
  - apply (proj1 (H 1 (-1) [7] [])). lia.
  - apply (proj1 (proj2 (H 3 (-1) [7] []))); lia.
  - apply (proj1 (proj2 (proj2 (H 3 2 [7] [])))); simpl; lia.
  - apply (proj2 (proj2 (proj2 (H 3 2 [7; 8] [])))); simpl; lia.
Defined.

Lemma get_null_rho_design_outcome_witness :
  Instance.null_rho_design (Instance.identityQ 4 1) 0 [7] [] =
    (Thrown "number of iterations should be positive", []) /\
  Instance.null_rho_design (Instance.identityQ 4 1) 2 [7] [] =
    (Thrown "number of iterations and seeds should be the same", []) /\
  (exists out t',
     Instance.null_rho_design (Instance.identityQ 4 1) 2 [7; 8] [] = (Returned out, t') /\
     Z.of_nat (length out) = 2).
Proof.
  assert (0 <= get_ncoefs (Instance.identityQ 4 1) <= get_nobs (Instance.identityQ 4 1))
    as Hc by (simpl; lia).
  pose proof (get_null_rho_design_outcome Instance.generator Instance.seed_generator
                Instance.normal_distribution tt Instance.rnorm Instance.insertion_sort
                (Instance.identityQ 4 1) insertion_sort_contract Hc
                (fun v => eq_refl)) as H.
  split; [|split].
  - apply (proj1 (H 0 [7] [])). lia.
  - apply (proj1 (proj2 (H 2 [7] []))); simpl; lia.
  - apply (proj2 (proj2 (H 2 [7; 8] []))).
    + lia.
    + reflexivity.
    + unfold is_int, INT_MIN, INT_MAX. simpl. lia.
    + reflexivity.
    + repeat constructor.
Defined.

Lemma get_null_rho_trace_witness :
  exists out,
    Instance.null_rho 3 2 [7; 8] [] =
    (Returned out, [] ++ concat (map (fun seed => [EvSeed seed; EvShuffle]) [7; 8])).
Proof.
  apply (get_null_rho_trace Instance.generator Instance.seed_generator
           Instance.shuffle 3 2 [7; 8] []); simpl; lia.
Defined.

Lemma get_null_rho_design_trace_witness :
  exists out,
    Instance.null_rho_design (Instance.identityQ 4 1) 2 [3; 4] [] =
    (Returned out, [] ++ concat (map (iteration_events (Instance.identityQ 4 1)) [3; 4])).
Proof.
  apply (get_null_rho_design_trace Instance.generator Instance.seed_generator
           Instance.normal_distribution tt Instance.rnorm Instance.insertion_sort
           (Instance.identityQ 4 1) 2 [3; 4] []); simpl; lia.
Defined.

Lemma get_null_rho_batches_witness :
  exists out1 out2,
    (Instance.null_rho 3 (Z.of_nat (length [7])) [7] []).1 = Returned out1 /\
    (Instance.null_rho 3 (Z.of_nat (length [8; 9])) [8; 9] []).1 = Returned out2 /\
    (Instance.null_rho 3 (Z.of_nat (length ([7] ++ [8; 9]))) ([7] ++ [8; 9]) []).1
      = Returned (out1 ++ out2).
Proof.
  apply (get_null_rho_batches Instance.generator Instance.seed_generator
           Instance.shuffle instance_shuffle_perm 3 [7] [8; 9] []).
  - lia.
  - unfold is_int, INT_MIN, INT_MAX. lia.
Defined.

Lemma identity_ranking_rho_witness :
  exists out t',
    get_null_rho Instance.generator Instance.seed_generator (fun v _ => v) 3 1 [7] []
      = (Returned out, t') /\
    out !! O = Some done_.
Proof.
  apply (identity_ranking_rho Instance.generator Instance.seed_generator
           (fun v _ => v) (fun v _ => Permutation_refl v) 3 1 [7] [] O 7).
  - unfold N_exact. lia.
  - lia.
  - reflexivity.
  - reflexivity.
  - reflexivity.
Defined.

Lemma get_null_rho_roundings_witness :
  exists out t',
    Instance.null_rho 5 2 [7; 8] [] = (Returned out, t') /\
    forall (it : nat) seed, [7; 8] !! it = Some seed ->
      let S := sum_sq (permuted Instance.seed_generator Instance.shuffle 5 seed)
                 (seqZ 0 5) in
      let D := 5 * (5 * 5 - 1) in
      0 <= 3 * S <= D /\ D < 2 ^ 53 /\
      out !! it = Some (done_ - dsix / double_of_int D * double_of_int S)%D.
Proof.
  apply (get_null_rho_roundings Instance.generator Instance.seed_generator
           Instance.shuffle instance_shuffle_perm 5 2 [7; 8] []).
  - unfold N_exact. lia.
  - lia.
  - reflexivity.
Defined.

Lemma get_null_rho_two_cells_witness :
  exists out t',
    Instance.null_rho 2 2 [7; 8] [] = (Returned out, t') /\
    Forall (fun x => x = done_ \/ x = double_of_int (-1)) out.
Proof.
  apply (get_null_rho_two_cells Instance.generator Instance.seed_generator
           Instance.shuffle instance_shuffle_perm 2 [7; 8] []).
  - lia.
  - reflexivity.
Defined.

Lemma get_null_rho_design_batches_witness :
  exists out1 out2,
    (Instance.null_rho_design (Instance.identityQ 4 1)
       (Z.of_nat (length [3])) [3] []).1 = Returned out1 /\
    (Instance.null_rho_design (Instance.identityQ 4 1)
       (Z.of_nat (length [4])) [4] []).1 = Returned out2 /\
    (Instance.null_rho_design (Instance.identityQ 4 1)
       (Z.of_nat (length ([3] ++ [4]))) ([3] ++ [4]) []).1 = Returned (out1 ++ out2).
Proof.
  apply (get_null_rho_design_batches Instance.generator Instance.seed_generator
           Instance.normal_distribution tt Instance.rnorm Instance.insertion_sort
           (Instance.identityQ 4 1) insertion_sort_contract).
  - simpl. lia.
  - intros v. reflexivity.
  - discriminate.
  - discriminate.
  - unfold is_int, INT_MIN, INT_MAX. simpl. lia.
  - reflexivity.
  - repeat constructor.
Defined.

Lemma no_residual_subspace_rho_witness :
  exists t',
    Instance.null_rho_design (Instance.identityQ 3 3) 2 [5; 6] []
      = (Returned (replicate (Z.to_nat 2) done_), t').
Proof.
  apply (no_residual_subspace_rho Instance.generator Instance.seed_generator
           Instance.normal_distribution tt Instance.rnorm Instance.insertion_sort
           (Instance.identityQ 3 3) insertion_sort_contract).
  - simpl. lia.
  - intros v. reflexivity.
  - reflexivity.
  - unfold N_exact. simpl. lia.
  - lia.
  - reflexivity.
  - reflexivity.
  - repeat constructor.
Defined.

Lemma degenerate_factorization_nan_witness :
  exists t',
    Instance.null_rho_design (Instance.identityQ 1 0) 2 [7; 8] []
      = (Returned (replicate (Z.to_nat 2) S754_nan), t').
Proof.
  apply (degenerate_factorization_nan Instance.generator Instance.seed_generator
           Instance.normal_distribution tt Instance.rnorm Instance.insertion_sort
           (Instance.identityQ 1 0) insertion_sort_contract).
  - simpl. lia.
  - intros v. reflexivity.
  - simpl. lia.
  - lia.
  - reflexivity.
  - reflexivity.
  - repeat constructor.
Defined.

Lemma design_sampler_draws_diagnostic_stream_witness :
  exists out t',
    Instance.null_rho_design (Instance.identityQ 4 1) 2 [3; 4] [] = (Returned out, t') /\
    forall (it : nat) seed, [3; 4] !! it = Some seed ->
      exists xs,
        (Instance.rnorm_test (2 * (4 - 1)) seed []).1 = Returned xs /\
        Z.of_nat (length xs) = 2 * (4 - 1) /\
        let k := Z.to_nat (4 - 1) in
        let zeros := replicate (Z.to_nat 1) dzero in
        out !! it =
          Some (spearman_rho 4 (ranks (zeros ++ take k xs))
                               (ranks (zeros ++ drop k xs))).
Proof.
  apply (design_sampler_draws_diagnostic_stream Instance.generator
           Instance.seed_generator Instance.normal_distribution tt Instance.rnorm
           Instance.insertion_sort (Instance.identityQ 4 1) insertion_sort_contract).
  - simpl. lia.
  - intros v. reflexivity.
  - lia.
  - reflexivity.
  - unfold is_int, INT_MIN, INT_MAX. simpl. lia.
  - reflexivity.
  - repeat constructor.
Defined.

(** ** Numerics and buffers of the design-adjusted sampler *)
Section DesignNumerics.

Variable generator : Type.
Variable mt19937 : Z -> generator.
Variable normal_distribution : Type.
Variable normal_init : normal_distribution.
Variable rnorm :
  normal_distribution -> generator -> double * normal_distribution * generator.
Variable sort : list (double * Z) -> list (double * Z).
Variable multQ : run_dormqr.

Hypothesis sort_ok : sort_contract sort.
Hypothesis coef_range : 0 <= get_ncoefs multQ <= get_nobs multQ.
Hypothesis run_length : forall v, length (run multQ v) = length v.

Local Abbreviation Nobs := (get_nobs multQ).
Local Abbreviation Ncoef := (get_ncoefs multQ).
Local Abbreviation null_rho_design :=
  (get_null_rho_design generator mt19937 normal_distribution normal_init rnorm sort multQ).

(** X15: up to [N_exact] observations the design-adjusted sampler rounds
    in only three places.  The sum that is accumulated in the output slot
    is exactly the integer [S] of the squared rank differences, with
    [3 S <= Nobs (Nobs^2 - 1) < 2^53], the denominator of the constant is
    exact as well, and the value is [1 - (6 / D) * S]. *)
Theorem get_null_rho_design_roundings iters seeds t :
  2 <= Nobs <= N_exact -> 0 < iters -> Z.of_nat (length seeds) = iters ->
  length (rhs_init multQ) = Z.to_nat Nobs ->
  Forall (realizations_no_nan mt19937 normal_init rnorm multQ) seeds ->
  exists out t',
    null_rho_design iters seeds t = (Returned out, t') /\
    forall (it : nat) seed, seeds !! it = Some seed ->
      exists v0 v1,
        realizations mt19937 normal_init rnorm multQ seed = (v0, v1) /\
        let S := sum_sq (ranks v0) (ranks v1) in
        let D := Nobs * (Nobs * Nobs - 1) in
        0 <= 3 * S <= D /\ D < 2 ^ 53 /\
        out !! it = Some (done_ - dsix / double_of_int D * double_of_int S)%D.
Proof.
  intros Hn Hi Hs Hrhs Hnan.
  destruct (get_null_rho_design_closed_form generator mt19937 normal_distribution
              normal_init rnorm sort multQ sort_ok coef_range run_length
              iters seeds t) as (t' & E); try done.
  { unfold is_int, INT_MIN, INT_MAX, N_exact in *. lia. }
  eexists _, t'. split; [exact E|]. intros it seed Hit.
  destruct (realizations mt19937 normal_init rnorm multQ seed) as [v0 v1] eqn:Hreal.
  exists v0, v1. split; [done|]. cbv zeta.
  destruct (realizations_length generator mt19937 normal_distribution normal_init
              rnorm multQ coef_range run_length seed v0 v1 Hreal) as [Hl0 Hl1].
  rewrite Forall_lookup in Hnan. destruct (Hnan it seed Hit) as [Hn0 Hn1].
  rewrite Hreal in Hn0, Hn1. simpl in Hn0, Hn1.
  assert (3 * sum_sq (ranks v0) (ranks v1) <= Nobs * (Nobs * Nobs - 1)) as HS.
  { apply sum_sq_perm_bound; [lia| |].
    - replace Nobs with (Z.of_nat (length v0)) by lia. by apply ranks_perm.
    - replace Nobs with (Z.of_nat (length v1)) by lia. by apply ranks_perm. }
  assert (Nobs * (Nobs * Nobs - 1) < 2 ^ 53) as HD.
  { unfold N_exact in *. nia. }
  pose proof (sum_sq_nonneg (ranks v0) (ranks v1)).
  split; [lia|]. split; [done|].
  change (map ?f seeds) with (f <$> seeds).
  rewrite list_lookup_fmap, Hit. simpl. unfold design_rho. rewrite Hreal.
  unfold spearman_rho. rewrite rho_mult_exact by done.
  by rewrite sum_sq_diff_exact by lia.
Qed.

(** X16: the contents that the constructor of the factorization leaves
    in the working vector are never read: every entry is overwritten
    before the transform is applied, and a factorization that differs in
    those contents alone gives the same values. *)
Theorem working_vector_contents_unused (rhs' : list double) iters seeds t :
  0 < iters -> Z.of_nat (length seeds) = iters -> is_int Nobs ->
  length (rhs_init multQ) = Z.to_nat Nobs -> length rhs' = Z.to_nat Nobs ->
  Forall (realizations_no_nan mt19937 normal_init rnorm multQ) seeds ->
  (get_null_rho_design generator mt19937 normal_distribution normal_init rnorm sort
     {| get_nobs := Nobs; get_ncoefs := Ncoef; rhs_init := rhs'; run := run multQ |}
     iters seeds t).1
  = (null_rho_design iters seeds t).1.
Proof.
  intros Hi Hs Hint Hrhs Hrhs' Hnan.
  destruct (get_null_rho_design_closed_form generator mt19937 normal_distribution
              normal_init rnorm sort multQ sort_ok coef_range run_length
              iters seeds t) as (t1 & E1); try done.
  destruct (get_null_rho_design_closed_form generator mt19937 normal_distribution
              normal_init rnorm sort
              {| get_nobs := Nobs; get_ncoefs := Ncoef; rhs_init := rhs'; run := run multQ |}
              sort_ok coef_range run_length iters seeds t) as (t2 & E2); try done.
  by rewrite E1, E2.
Qed.

End DesignNumerics.

Lemma get_null_rho_design_roundings_witness :
  exists out t',
    Instance.null_rho_design (Instance.identityQ 4 1) 2 [3; 4] [] = (Returned out, t') /\
    forall (it : nat) seed, [3; 4] !! it = Some seed ->
      exists v0 v1,
        realizations Instance.seed_generator tt Instance.rnorm
          (Instance.identityQ 4 1) seed = (v0, v1) /\
        let S := sum_sq (ranks v0) (ranks v1) in
        let D := 4 * (4 * 4 - 1) in
        0 <= 3 * S <= D /\ D < 2 ^ 53 /\
        out !! it = Some (done_ - dsix / double_of_int D * double_of_int S)%D.
Proof.
  apply (get_null_rho_design_roundings Instance.generator Instance.seed_generator
           Instance.normal_distribution tt Instance.rnorm Instance.insertion_sort
           (Instance.identityQ 4 1) insertion_sort_contract).
  - simpl. lia.
  - intros v. reflexivity.
  - unfold N_exact. simpl. lia.
  - lia.
  - reflexivity.
  - reflexivity.
  - repeat constructor.
Defined.

Lemma working_vector_contents_unused_witness :
  (Instance.null_rho_design
     {| get_nobs := 4; get_ncoefs := 1;
        rhs_init := replicate 4 done_; run := fun v => v |} 2 [3; 4] []).1
  = (Instance.null_rho_design (Instance.identityQ 4 1) 2 [3; 4] []).1.
Proof.
  apply (working_vector_contents_unused Instance.generator Instance.seed_generator
           Instance.normal_distribution tt Instance.rnorm Instance.insertion_sort
           (Instance.identityQ 4 1) insertion_sort_contract).
  - simpl. lia.
  - intros v. reflexivity.
  - lia.
  - reflexivity.
  - unfold is_int, INT_MIN, INT_MAX. simpl. lia.
  - reflexivity.
  - reflexivity.
  - repeat constructor.
Defined.
